(** * dnd-logseq-to-html: a shallow embedding of the exporter's text pipeline

    The exporter turns the public pages of a Logseq graph into static HTML.
    This development embeds the pure core of [dnd-logseq-to-html.py]:
    filename sanitising, wiki-link resolution, metadata stripping, the
    property formatter, the two block renderers, the asset lookup and the
    embed traversal, and states the properties of the specification over it.
    A second part embeds the site generator around that core: the page
    lists and the page hierarchy, the excerpts of the index, the exported
    documents and the run of [main].

    Python [str] values are sequences of Unicode code points, so a string is a
    [list N] here.  The regular expressions of the source are transcribed one
    by one into a small backtracking matcher that follows the semantics of
    Python's [re] module on the fragment the source uses. *)

From stdpp Require Import base list strings gmap sets.
From Stdlib Require Import NArith ZArith Lia DecimalString Ascii Sorted.

Local Open Scope N_scope.

(** ** Strings *)

Abbreviation char := N (only parsing).
Abbreviation pystr := (list N) (only parsing).

(** A Rocq string literal read as a Python string (one code point per
    character; the literals of the source are ASCII). *)
Definition py (s : string) : pystr :=
  (fun a => Ascii.N_of_ascii a) <$> String.list_ascii_of_string s.

Definition nl : pystr := [10].
Definition dq : pystr := [34].

Module Str.

(** [str.isspace] on one code point; [\s] of [re] uses the same table. *)
Definition isspace (c : char) : bool :=
  ((9 <=? c) && (c <=? 13)) || ((28 <=? c) && (c <=? 32))
  || (c =? 133) || (c =? 160) || (c =? 5760)
  || ((8192 <=? c) && (c <=? 8202))
  || (c =? 8232) || (c =? 8233) || (c =? 8239) || (c =? 8287) || (c =? 12288).

Fixpoint lstrip (s : pystr) : pystr :=
  match s with
  | c :: t => if isspace c then lstrip t else s
  | [] => []
  end.

Definition rstrip (s : pystr) : pystr := rev (lstrip (rev s)).

(** The longest prefix of characters of a class, and what follows it. *)
Fixpoint take_while (p : char -> bool) (s : pystr) : pystr :=
  match s with
  | c :: t => if p c then c :: take_while p t else []
  | [] => []
  end.

Fixpoint drop_while (p : char -> bool) (s : pystr) : pystr :=
  match s with
  | c :: t => if p c then drop_while p t else s
  | [] => []
  end.

Definition strip (s : pystr) : pystr := rstrip (lstrip s).

Fixpoint startswith (pre s : pystr) : bool :=
  match pre, s with
  | [], _ => true
  | a :: pre', b :: s' => (a =? b) && startswith pre' s'
  | _ :: _, [] => false
  end.

(** [sub in s] *)
Fixpoint contains (sub s : pystr) : bool :=
  startswith sub s ||
  match s with
  | [] => false
  | _ :: t => contains sub t
  end.

(** [s.replace(old, new)]: leftmost, non-overlapping. [skip] counts the
    characters of an occurrence that are still to be passed over. *)
Fixpoint replace_from (old new : pystr) (skip : nat) (s : pystr) : pystr :=
  match s with
  | [] => match old, skip with [], O => new | _, _ => [] end
  | c :: t =>
      match skip with
      | S n => replace_from old new n t
      | O =>
          if startswith old s then
            match old with
            | [] => new ++ c :: replace_from old new O t
            | _ :: old' => new ++ replace_from old new (length old') t
            end
          else c :: replace_from old new O t
      end
  end.

Definition replace (old new s : pystr) : pystr := replace_from old new O s.

(** [s.split(sep)] for a one-character separator. *)
Fixpoint split (sep : char) (s : pystr) : list pystr :=
  match s with
  | [] => [[]]
  | c :: t =>
      if c =? sep then [] :: split sep t
      else match split sep t with
           | l :: ls => (c :: l) :: ls
           | [] => [[c]]
           end
  end.

(** [sep.join(parts)] *)
Fixpoint join (sep : pystr) (parts : list pystr) : pystr :=
  match parts with
  | [] => []
  | [x] => x
  | x :: rest => x ++ sep ++ join sep rest
  end.

Definition eqb (a b : pystr) : bool := bool_decide (a = b).

(** Truthiness of a string: non-empty. *)
Definition truthy (s : pystr) : bool :=
  match s with [] => false | _ => true end.

(** Decimal rendering of a non-negative integer, as an f-string does. *)
Definition of_Z (z : Z) : pystr :=
  py (NilZero.string_of_uint (N.to_uint (Z.to_N z))).

(** ASCII case folding; [str.lower] agrees with it on ASCII text. *)
Definition ascii_lower_char (c : char) : char :=
  if (65 <=? c) && (c <=? 90) then c + 32 else c.

Definition ascii_lower (s : pystr) : pystr := ascii_lower_char <$> s.

Definition is_ascii (c : char) : bool := c <? 128.

End Str.

(** ** Regular expressions

    The fragment of [re] syntax that occurs in the source: literal
    characters and character classes, concatenation, alternation, capture
    groups, [^] and [$], and greedy or lazy bounded repetition of a single
    character class (every quantifier of the source applies to one class). *)

Module Re.

Inductive regex : Type :=
| Eps
| Chr (cls : char -> bool)
| Cat (r1 r2 : regex)
| Alt (r1 r2 : regex)
| Rep (cls : char -> bool) (lo : nat) (hi : option nat) (greedy : bool)
| Grp (i : nat) (r : regex)
| Bol
| Eol.

(** Captured groups, most recent first. *)
Definition caps := list (nat * pystr).

Fixpoint group (i : nat) (cs : caps) : pystr :=
  match cs with
  | [] => []
  | (j, s) :: rest => if Nat.eqb i j then s else group i rest
  end.

(** A match: the captures, the last character before the end position
    and the unread rest of the subject. *)
Definition result := (caps * option char * pystr)%type.

(** Character classes. *)
Definition ch (a : char) : char -> bool := fun c => c =? a.
Definition range (a b : char) : char -> bool := fun c => (a <=? c) && (c <=? b).
Definition neg (p : char -> bool) : char -> bool := fun c => negb (p c).
Definition either (p q : char -> bool) : char -> bool := fun c => p c || q c.
Definition dot : char -> bool := neg (ch 10).
Definition space : char -> bool := Str.isspace.

(** A literal string. *)
Fixpoint lit (s : pystr) : regex :=
  match s with
  | [] => Eps
  | [c] => Chr (ch c)
  | c :: t => Cat (Chr (ch c)) (lit t)
  end.

Definition star cls := Rep cls 0%nat None true.
Definition plus cls := Rep cls 1%nat None true.
Definition plus_lazy cls := Rep cls 1%nat None false.
Definition times cls n := Rep cls n (Some n) true.

(** What a left-to-right scan sees: characters outside every match,
    and matches with their text and captures. *)
Inductive piece :=
| Text (c : char)
| Hit (whole : pystr) (cs : caps).

Section Matcher.
(** [re.MULTILINE] *)
Variable multiline : bool.

(** [prev] is the character before the current position, [None] at
    the start of the subject. *)
Definition at_bol (prev : option char) : bool :=
  match prev with
  | None => true
  | Some c => multiline && (c =? 10)
  end.

(** [$]: at the end, before a final newline, and with MULTILINE before
    every newline. *)
Definition at_eol (s : pystr) : bool :=
  match s with
  | [] => true
  | c :: t => (c =? 10) && (multiline || match t with [] => true | _ => false end)
  end.

Fixpoint rep_greedy (cls : char -> bool) (lo : nat) (hi : option nat)
    (prev : option char) (s : pystr)
    (k : option char -> pystr -> option result) {struct s} : option result :=
  let stop (_ : unit) := match lo with O => k prev s | S _ => None end in
  match hi, s with
  | Some O, _ => stop ()
  | _, c :: t =>
      if cls c then
        match rep_greedy cls (Nat.pred lo) (Nat.pred <$> hi) (Some c) t k with
        | Some r => Some r
        | None => stop ()
        end
      else stop ()
  | _, [] => stop ()
  end.

Fixpoint rep_lazy (cls : char -> bool) (lo : nat) (hi : option nat)
    (prev : option char) (s : pystr)
    (k : option char -> pystr -> option result) {struct s} : option result :=
  let more (_ : unit) :=
    match hi, s with
    | Some O, _ => None
    | _, c :: t =>
        if cls c then rep_lazy cls (Nat.pred lo) (Nat.pred <$> hi) (Some c) t k
        else None
    | _, [] => None
    end in
  match lo with
  | O => match k prev s with Some r => Some r | None => more () end
  | S _ => more ()
  end.

(** The backtracking matcher in continuation-passing style: the first
    alternative that lets the continuation succeed wins. *)
Fixpoint m (r : regex) (prev : option char) (s : pystr) (cs : caps)
    (k : option char -> pystr -> caps -> option result) : option result :=
  match r with
  | Eps => k prev s cs
  | Chr cls =>
      match s with
      | c :: t => if cls c then k (Some c) t cs else None
      | [] => None
      end
  | Cat r1 r2 => m r1 prev s cs (fun p' s' cs' => m r2 p' s' cs' k)
  | Alt r1 r2 =>
      match m r1 prev s cs k with
      | Some x => Some x
      | None => m r2 prev s cs k
      end
  | Rep cls lo hi greedy =>
      (if greedy then rep_greedy else rep_lazy) cls lo hi prev s
        (fun p' s' => k p' s' cs)
  | Grp i r1 =>
      m r1 prev s cs
        (fun p' s' cs' => k p' s' ((i, take (length s - length s') s) :: cs'))
  | Bol => if at_bol prev then k prev s cs else None
  | Eol => if at_eol s then k prev s cs else None
  end.

(** One match attempt at the current position.  With [must_advance] an
    empty match is rejected and the matcher backtracks, as [re] does
    right after an empty match. *)
Definition match_at (must_advance : bool) (r : regex)
    (prev : option char) (s : pystr) : option result :=
  m r prev s []
    (fun p' s' cs =>
       if must_advance && (length s' =? length s)%nat then None
       else Some (cs, p', s')).

(** The text of a match that read [s] down to [s']. *)
Definition whole_of (s s' : pystr) : pystr := take (length s - length s') s.

(** The character before the position reached after reading [s] from a
    position preceded by [prev]. *)
Definition prev_after (prev : option char) (s : pystr) : option char :=
  match last s with
  | Some c => Some c
  | None => prev
  end.

(** The scan of [re.sub] and [re.finditer]: at each position the match
    found there is taken, and the scan goes on behind it; after an empty
    match the same position is tried once more for a match that
    advances.  Every step hands a shorter subject on, so [fuel] above
    the length of the subject is never used up. *)
Fixpoint scan (fuel : nat) (r : regex) (prev : option char) (s : pystr)
    : list piece :=
  match fuel with
  | O => Text <$> s
  | S fuel' =>
      let step (_ : unit) :=
        match s with
        | [] => []
        | c :: t => Text c :: scan fuel' r (Some c) t
        end in
      match match_at false r prev s with
      | None => step ()
      | Some (cs, p', s') =>
          match whole_of s s' with
          | (_ :: _) as w => Hit w cs :: scan fuel' r p' s'
          | [] =>
              Hit [] cs ::
              match match_at true r prev s with
              | Some (cs2, p2, s2) => Hit (whole_of s s2) cs2 :: scan fuel' r p2 s2
              | None => step ()
              end
          end
      end
  end.

(** [re.finditer] from a position preceded by [prev], with the text
    between the matches. *)
Definition pieces_from (r : regex) (prev : option char) (s : pystr) : list piece :=
  scan (S (length s)) r prev s.

Definition pieces (r : regex) (s : pystr) : list piece := pieces_from r None s.

Definition render (repl : caps -> pystr) (p : piece) : pystr :=
  match p with
  | Text c => [c]
  | Hit _ cs => repl cs
  end.

Definition sub_from (r : regex) (repl : caps -> pystr) (prev : option char)
    (s : pystr) : pystr :=
  pieces_from r prev s ≫= render repl.

(** [re.sub(r, repl, s)] with a function (or a template) [repl]. *)
Definition sub (r : regex) (repl : caps -> pystr) (s : pystr) : pystr :=
  sub_from r repl None s.

(** [re.match(r, s)]: a match at the start of [s]. *)
Definition match_ (r : regex) (s : pystr) : option caps :=
  match match_at false r None s with
  | Some (cs, _, _) => Some cs
  | None => None
  end.

(** No match anywhere in [s], from a position preceded by [prev]. *)
Fixpoint no_match_from (r : regex) (prev : option char) (s : pystr) : bool :=
  match match_at false r prev s with
  | Some _ => false
  | None =>
      match s with
      | [] => true
      | c :: t => no_match_from r (Some c) t
      end
  end.

End Matcher.

End Re.

Declare Scope re_scope.
Delimit Scope re_scope with re.
Bind Scope re_scope with Re.regex.
Notation "r1 ⋅ r2" := (Re.Cat r1 r2) (at level 45, right associativity) : re_scope.

(** One character of a literal. *)
Definition code (a : Ascii.ascii) : char := Ascii.N_of_ascii a.
Arguments code a%_char.

(** ** Exceptions

    In the asset code only the file system raises ([os.listdir] of
    something that is no directory, a copy that fails). *)

Inductive exn := OSError.

Inductive res (A : Type) : Type :=
| Ok (a : A)
| Raise (e : exn).
Arguments Ok {A} a.
Arguments Raise {A} e.

#[global] Instance res_ret : MRet res := fun A a => Ok a.
#[global] Instance res_bind : MBind res := fun A B f x =>
  match x with
  | Ok a => f a
  | Raise e => Raise e
  end.

(** The calls of a loop body, left to right, stopping at the first
    exception. *)
Definition mapM {A B : Type} (f : A -> res B) : list A -> res (list B) :=
  fix go l :=
    match l with
    | [] => Ok []
    | x :: t => y ← f x; ys ← go t; Ok (y :: ys)
    end.

(** The same for a generator with a condition:
    [f(x) for x in l if keep(x)]. *)
Definition mapM_if {A B : Type} (keep : A -> bool) (f : A -> res B)
    : list A -> res (list B) :=
  fix go l :=
    match l with
    | [] => Ok []
    | x :: t => if keep x then y ← f x; ys ← go t; Ok (y :: ys) else go t
    end.

(** [re.sub] with a replacement function that may raise. *)
Definition sub_m (multiline : bool) (r : Re.regex) (repl : Re.caps -> res pystr)
    (s : pystr) : res pystr :=
  parts ← mapM (fun p => match p with
                         | Re.Text c => Ok [c]
                         | Re.Hit _ cs => repl cs
                         end) (Re.pieces multiline r s);
  Ok (concat parts).

(** ** Data of the Logseq API *)

(** A JSON property value; [JNum] holds the numbers with an integral
    value, every other value is [JOther]. *)
Inductive json :=
| JNull
| JBool (b : bool)
| JNum (z : Z)
| JStr (s : pystr)
| JOther.

(** A page record; a field is [None] when the key is absent. *)
Record page := Page {
  page_name : option pystr;
  page_title : option pystr;
  page_uuid : option pystr;
  page_properties : option (list (pystr * json))
}.

(** A block of the tree the API returns.  [Null] is a missing block, and
    [other] tells whether the record has keys beside the three read here
    (an empty record is falsy in Python). *)
#[warnings="-register-all"]
Inductive block :=
| Null
| Node (uuid : option pystr) (content : option pystr)
       (children : option (list block)) (other : bool).

(** An entry of the public page set. *)
Record page_info := PageInfo {
  info_uuid : pystr;
  info_title : pystr;
  has_public_children : bool
}.

(** A Python [dict] with string keys, in insertion order. *)
Abbreviation dict V := (list (pystr * V)) (only parsing).

Fixpoint dict_get {V} (k : pystr) (d : dict V) : option V :=
  match d with
  | [] => None
  | (k', v) :: rest => if Str.eqb k k' then Some v else dict_get k rest
  end.

Definition dict_mem {V} (k : pystr) (d : dict V) : bool :=
  match dict_get k d with Some _ => true | None => false end.

(** [d[k] = v]: the value of an existing key is replaced in place, a new
    key goes to the end. *)
Fixpoint dict_set {V} (k : pystr) (v : V) (d : dict V) : dict V :=
  match d with
  | [] => [(k, v)]
  | (k', v') :: rest =>
      if Str.eqb k k' then (k', v) :: rest else (k', v') :: dict_set k v rest
  end.

Definition dict_keys {V} (d : dict V) : list pystr := d.*1.

(** Blocks as Python objects: a heap of records that refer to their
    children by address, so that a record may be shared or reach itself. *)
Abbreviation addr := nat (only parsing).

Record block_obj := BlockObj {
  b_uuid : option pystr;
  b_content : option pystr;
  b_children : option (list addr)
}.

Abbreviation heap := (gmap nat block_obj) (only parsing).

(** ** The environment of a run

    Everything the exporter takes from outside: the Python runtime and
    its libraries, the file system and the Logseq API. *)
Record runtime := Runtime {
  (** [str.lower] *)
  lower : pystr -> pystr;
  (** [urllib.parse.unquote] *)
  unquote : pystr -> pystr;
  (** the built-in [hash] on strings *)
  hash : pystr -> Z;
  (** the mistune renderer built by [mistune.create_markdown] *)
  markdown : pystr -> pystr;
  (** [os.path.expanduser] *)
  expanduser : pystr -> pystr;
  (** [os.path.exists] *)
  path_exists : pystr -> bool;
  (** [os.listdir]; [None] when it raises [OSError] *)
  listdir : pystr -> option (list pystr);
  (** [optimize_image]: the re-encoded image, or [None]; PIL is outside
      the model *)
  optimize_image : pystr -> option pystr;
  (** whether writing the bytes of an image to a path succeeds *)
  write_ok : pystr -> bool;
  (** whether [shutil.copy2] of a source to a destination succeeds *)
  copy2_ok : pystr -> pystr -> bool;
  (** the answer of the API to [logseq.Editor.getAllPages], the same for
      the whole run; [None] when the call fails *)
  all_pages : option (list page)
}.

(** [str.lower] is ASCII case folding on ASCII text. *)
Definition lower_on_ascii (rt : runtime) : Prop :=
  ∀ s, forallb Str.is_ascii s = true -> lower rt s = Str.ascii_lower s.

(** ** Character classes and patterns of the source *)

Definition lower_az : char -> bool := Re.range (code "a") (code "z").
Definition upper_az : char -> bool := Re.range (code "A") (code "Z").
Definition digit : char -> bool := Re.range (code "0") (code "9").
Definition alpha : char -> bool := Re.either lower_az upper_az.

(** [[a-zA-Z0-9\-_]] *)
Definition name_char : char -> bool :=
  Re.either alpha (Re.either digit (Re.either (Re.ch (code "-")) (Re.ch (code "_")))).

(** [[a-zA-Z0-9._-]] *)
Definition file_char : char -> bool :=
  Re.either alpha (Re.either digit
    (Re.either (Re.ch (code ".")) (Re.either (Re.ch (code "_")) (Re.ch (code "-"))))).

(** [[a-f0-9]] and [[a-f0-9-]] *)
Definition hex : char -> bool := Re.either (Re.range (code "a") (code "f")) digit.
Definition hex_dash : char -> bool := Re.either hex (Re.ch (code "-")).

Definition not_char (a : Ascii.ascii) : char -> bool := Re.neg (Re.ch (code a)).
Arguments not_char a%_char.

(** [\[\[([^\]]+)\]\]] *)
Definition link_pattern : Re.regex :=
  (Re.lit (py "[[") ⋅ Re.Grp 1 (Re.plus (not_char "]")) ⋅ Re.lit (py "]]"))%re.

(** [#\[\[([^\]]+)\]\]] *)
Definition tag_pattern : Re.regex :=
  (Re.lit (py "#[[") ⋅ Re.Grp 1 (Re.plus (not_char "]")) ⋅ Re.lit (py "]]"))%re.

(** [\(\(([a-f0-9-]+)\)\)] *)
Definition block_ref_pattern : Re.regex :=
  (Re.lit (py "((") ⋅ Re.Grp 1 (Re.plus hex_dash) ⋅ Re.lit (py "))"))%re.

(** [^DONE ], [^DOING ], ... *)
Definition task_pattern (marker : string) : Re.regex :=
  (Re.Bol ⋅ Re.lit (py marker))%re.

(** [\s*id::\s*[a-f0-9-]+] *)
Definition id_pattern : Re.regex :=
  (Re.star Re.space ⋅ Re.lit (py "id::") ⋅ Re.star Re.space ⋅ Re.plus hex_dash)%re.

(** [\s*[a-f0-9]{8}-[a-f0-9]{4}-[a-f0-9]{4}-[a-f0-9]{4}-[a-f0-9]{12}] *)
Definition uuid_pattern : Re.regex :=
  (Re.star Re.space ⋅ Re.times hex 8 ⋅ Re.lit (py "-") ⋅ Re.times hex 4 ⋅ Re.lit (py "-")
   ⋅ Re.times hex 4 ⋅ Re.lit (py "-") ⋅ Re.times hex 4 ⋅ Re.lit (py "-")
   ⋅ Re.times hex 12)%re.

(** [\s*public::\s*(true|children)] *)
Definition public_pattern : Re.regex :=
  (Re.star Re.space ⋅ Re.lit (py "public::") ⋅ Re.star Re.space
   ⋅ Re.Grp 1 (Re.Alt (Re.lit (py "true")) (Re.lit (py "children"))))%re.

(** [^(KEY)::(.+?)$] with KEY = [[a-zA-Z][a-zA-Z0-9-_]*] *)
Definition property_pattern : Re.regex :=
  (Re.Bol ⋅ Re.Grp 1 (Re.Chr alpha ⋅ Re.star name_char) ⋅ Re.lit (py "::")
   ⋅ Re.Grp 2 (Re.plus_lazy Re.dot) ⋅ Re.Eol)%re.

(** [\*\*(.+?)\*\*], [\*(.+?)\*], [~~(.+?)~~], [==(.+?)==] *)
Definition span_pattern (mark : string) : Re.regex :=
  (Re.lit (py mark) ⋅ Re.Grp 1 (Re.plus_lazy Re.dot) ⋅ Re.lit (py mark))%re.

(** [(https?://\S+)] *)
Definition url_pattern : Re.regex :=
  Re.Grp 1 (Re.lit (py "http") ⋅ Re.Rep (Re.ch (code "s")) 0 (Some 1%nat) true
            ⋅ Re.lit (py "://") ⋅ Re.plus (Re.neg Re.space))%re.

(** [`([^`]+)`] *)
Definition code_pattern : Re.regex :=
  (Re.lit (py "`") ⋅ Re.Grp 1 (Re.plus (not_char "`")) ⋅ Re.lit (py "`"))%re.

(** [!\[ALT\]\(([^)]+)\)] with ALT = [[^\]]*] in a group that captures
    nothing *)
Definition md_pattern : Re.regex :=
  (Re.lit (py "![") ⋅ Re.star (not_char "]") ⋅ Re.lit (py "](")
   ⋅ Re.Grp 1 (Re.plus (not_char ")")) ⋅ Re.lit (py ")"))%re.

(** [<img[^>]+src=Q([^Q]+)Q[^>]*>] where Q stands for the double quote *)
Definition html_pattern : Re.regex :=
  (Re.lit (py "<img") ⋅ Re.plus (not_char ">") ⋅ Re.lit (py "src=" ++ dq)
   ⋅ Re.Grp 1 (Re.plus (Re.neg (Re.ch 34))) ⋅ Re.lit dq
   ⋅ Re.star (not_char ">") ⋅ Re.lit (py ">"))%re.

(** [\.\./+] *)
Definition dotdot_pattern : Re.regex :=
  (Re.lit (py "..") ⋅ Re.plus (Re.ch (code "/")))%re.

(** [^(assets/|img/)] *)
Definition asset_prefix_pattern : Re.regex :=
  (Re.Bol ⋅ Re.Grp 1 (Re.Alt (Re.lit (py "assets/")) (Re.lit (py "img/"))))%re.

(** [^[a-z0-9\-_]*$], the shape of a sanitized filename *)
Definition filename_char : char -> bool :=
  Re.either lower_az (Re.either digit (Re.either (Re.ch (code "-")) (Re.ch (code "_")))).

Definition filename_pattern : Re.regex :=
  (Re.Bol ⋅ Re.star filename_char ⋅ Re.Eol)%re.

(** ** Configuration constants *)

Definition OUTPUT_DIR : pystr := py "html-output".
Definition CSS_FILE : pystr := py "styles.css".
Definition LOGSEQ_ASSETS_PATH : pystr :=
  py "/Users/job/Library/CloudStorage/SynologyDrive-on-demand/database/assets".

(** ** [os.path] on POSIX *)

Module Path.

Definition sep : char := code "/".

Definition endswith_sep (p : pystr) : bool :=
  match last p with
  | Some c => c =? sep
  | None => false
  end.

(** [os.path.join(a, b)] *)
Definition join (a b : pystr) : pystr :=
  if Str.startswith [sep] b then b
  else if negb (Str.truthy a) || endswith_sep a then a ++ b
  else a ++ [sep] ++ b.

(** The part after the last occurrence of [c], or all of [s]. *)
Fixpoint after_last (c : char) (s : pystr) : pystr :=
  match s with
  | [] => []
  | x :: t => if bool_decide (c ∈ t) then after_last c t
              else if x =? c then t else s
  end.

(** [os.path.basename] *)
Definition basename (p : pystr) : pystr := after_last sep p.

(** [os.path.splitext]: the extension starts at the last dot of the last
    component, unless only dots precede it there. *)
Definition splitext (p : pystr) : pystr * pystr :=
  let base := basename p in
  if bool_decide (code "." ∈ base) then
    let ext := code "." :: after_last (code ".") base in
    let stem := take (length base - length ext) base in
    if forallb (Re.ch (code ".")) stem then (p, [])
    else (take (length p - length ext) p, ext)
  else (p, []).

End Path.

Definition ASSETS_DIR : pystr := Path.join OUTPUT_DIR (py "assets").

(** ** A sample environment

    A fixed run, to evaluate the model on concrete inputs: ASCII case
    folding, no percent-escapes to decode, an empty disk and no pages. *)
Definition sample_runtime : runtime := {|
  lower := Str.ascii_lower;
  unquote := fun s => s;
  hash := fun s => Z.of_nat (length s);
  markdown := fun s => s;
  expanduser := fun p => p;
  path_exists := fun _ => false;
  listdir := fun _ => None;
  optimize_image := fun _ => None;
  write_ok := fun _ => true;
  copy2_ok := fun _ _ => true;
  all_pages := None
|}.

(** ** The exporter *)

Section Exporter.

Variable rt : runtime.

(** *** Filenames and links *)

(** [sanitize_filename(title)] *)
Definition sanitize_filename (title : pystr) : pystr :=
  let safe_name := Str.replace (py "/") (py "-") title in
  let safe_name := Re.sub false (Re.Chr (Re.neg name_char)) (fun _ => py "_") safe_name in
  lower rt safe_name.

(** The anchor to the file of a public page. *)
Definition page_anchor (page_name : pystr) : pystr :=
  let safe_name := sanitize_filename page_name in
  py "<a href=" ++ dq ++ safe_name ++ py ".html" ++ dq ++ py ">" ++ page_name ++ py "</a>".

(** The span that stands for a page outside the public set. *)
Definition inert_span (page_name : pystr) : pystr :=
  py "<span class=" ++ dq ++ py "non-public-link" ++ dq ++ py ">" ++ page_name ++ py "</span>".

(** The replacement function of [resolve_links_for_html]. *)
Definition link_repl (public_pages : dict page_info) (cs : Re.caps) : pystr :=
  let page_name := Re.group 1 cs in
  if dict_mem page_name public_pages then page_anchor page_name
  else inert_span page_name.

(** [resolve_links_for_html(content, public_pages)] *)
Definition resolve_links_for_html (content : pystr) (public_pages : dict page_info) : pystr :=
  Re.sub false link_pattern (link_repl public_pages) content.

(** *** Metadata *)

(** [clean_logseq_metadata(content)] *)
Definition clean_logseq_metadata (content : pystr) : pystr :=
  let content := Re.sub false id_pattern (fun _ => []) content in
  let content := Re.sub false uuid_pattern (fun _ => []) content in
  let content := Re.sub false public_pattern (fun _ => []) content in
  content.

(** *** Properties *)

(** [f'prop-{hash(prop_key) & 0xFFFFFFFF}'] *)
Definition key_id (prop_key : pystr) : pystr :=
  py "prop-" ++ Str.of_Z (Z.land (hash rt prop_key) 4294967295).

(** One key/value pair of the description list. *)
Definition property_pair (kv : pystr * pystr) : pystr :=
  let '(prop_key, prop_value) := kv in
  py "    <div class=" ++ dq ++ py "property-pair" ++ dq ++ py " role=" ++ dq ++ py "listitem"
    ++ dq ++ py ">" ++ nl
  ++ py "    <dt id=" ++ dq ++ key_id prop_key ++ dq ++ py ">" ++ prop_key ++ py "</dt>" ++ nl
  ++ py "    <dd aria-labelledby=" ++ dq ++ key_id prop_key ++ dq ++ py ">" ++ prop_value
    ++ py "</dd>" ++ nl
  ++ py "    </div>" ++ nl.

(** [f'props-{hash("".join([k+v for k,v in property_lines])) & 0xFFFFFFFF}'] *)
Definition section_id (property_lines : list (pystr * pystr)) : pystr :=
  py "props-"
  ++ Str.of_Z (Z.land (hash rt (concat ((fun kv => kv.1 ++ kv.2) <$> property_lines))) 4294967295).

(** The grouped block built from the pending property lines; the source
    has this text twice, in the loop and after it. *)
Definition property_section (property_lines : list (pystr * pystr)) : pystr :=
  py "<section id=" ++ dq ++ section_id property_lines ++ dq ++ py " class=" ++ dq
    ++ py "page-properties" ++ dq ++ py " aria-label=" ++ dq ++ py "Page properties" ++ dq
    ++ py ">" ++ nl
  ++ py "<h2 class=" ++ dq ++ py "visually-hidden" ++ dq ++ py ">Page Properties</h2>" ++ nl
  ++ py "<dl role=" ++ dq ++ py "list" ++ dq ++ py ">" ++ nl
  ++ concat (property_pair <$> property_lines)
  ++ py "</dl>" ++ nl
  ++ py "</section>" ++ nl.

(** [re.match(property_pattern, line.strip())] and [match.groups()] *)
Definition property_match (line : pystr) : option (pystr * pystr) :=
  match Re.match_ false property_pattern (Str.strip line) with
  | Some cs => Some (Re.group 1 cs, Re.group 2 cs)
  | None => None
  end.

(** [key not in ['id', 'public']] *)
Definition reserved_key (key : pystr) : bool :=
  Str.eqb key (py "id") || Str.eqb key (py "public").

(** The state of the loop of [format_properties]: the output lines and
    the pending property lines. *)
Definition fp_state := (list pystr * list (pystr * pystr))%type.

(** [if property_lines: ...; lines.append(dl_html); property_lines = []] *)
Definition fp_flush (st : fp_state) : fp_state :=
  match st.2 with
  | [] => st
  | _ :: _ => (st.1 ++ [property_section st.2], [])
  end.

(** One iteration of the loop over the lines. *)
Definition fp_step (st : fp_state) (line : pystr) : fp_state :=
  match property_match line with
  | Some (key, value) =>
      if reserved_key key then st
      else (st.1, st.2 ++ [(Str.strip key, Str.strip value)])
  | None =>
      let st := fp_flush st in
      if Str.truthy (Str.strip line) then
        let line :=
          if Str.startswith (py "<") (Str.strip line) then line
          else py "<p>" ++ line ++ py "</p>" in
        (st.1 ++ [line], st.2)
      else st
  end.

(** The list [lines] at the end of [format_properties]: the loop, and
    the flush of what is still pending after it. *)
Definition format_lines (lines : list pystr) : list pystr :=
  let st := foldl fp_step ([], []) lines in
  let st := fp_flush st in
  st.1.

(** [format_properties(content)] *)
Definition format_properties (content : pystr) : pystr :=
  Str.join nl (format_lines (Str.split 10 content)).





(** *** The syntax normalizer *)

(** [preprocess_markdown(content)] *)
Definition preprocess_markdown (content : pystr) : pystr :=
  if negb (Str.truthy content) then []
  else
    let content :=
      Re.sub false tag_pattern
        (fun cs => py "[" ++ Re.group 1 cs ++ py "](" ++ Re.group 1 cs ++ py ")") content in
    let content := Re.sub false block_ref_pattern (fun _ => []) content in
    let content := Re.sub true (task_pattern "DONE ") (fun _ => py "- [x] ") content in
    let content := Re.sub true (task_pattern "DOING ") (fun _ => py "- [ ] ") content in
    let content := Re.sub true (task_pattern "TODO ") (fun _ => py "- [ ] ") content in
    let content := Re.sub true (task_pattern "NOW ") (fun _ => py "- [ ] ") content in
    let content := Re.sub true (task_pattern "LATER ") (fun _ => py "- [ ] ") content in
    let content := format_properties content in
    let content := clean_logseq_metadata content in
    content.

(** *** Assets *)

(** The candidate directories of [find_asset], in order. *)
Definition possible_locations : list pystr :=
  [ LOGSEQ_ASSETS_PATH;
    py "assets";
    py "~/Documents/logseq/assets";
    expanduser rt (py "~/logseq/assets");
    expanduser rt (py "~/Library/CloudStorage/SynologyDrive-on-demand/database/assets") ].

(** [list(dict.fromkeys(xs))]: duplicates go, the first occurrences stay
    in order. *)
Fixpoint fromkeys (xs : list pystr) : list pystr :=
  match xs with
  | [] => []
  | x :: t => x :: List.filter (fun y => negb (Str.eqb y x)) (fromkeys t)
  end.

(** The list [variations] of [find_asset]: the spelling variants of a
    name. *)
Definition variations (name : pystr) : list pystr :=
  fromkeys [ name;
             Str.replace (py "_-_") (py "-") name;
             Str.replace (py "-") (py "_") name;
             Str.replace (py "_") (py "-") name ].

(** The first variant that exists in the directory. *)
Fixpoint exact_match (location : pystr) (variations : list pystr) : option pystr :=
  match variations with
  | [] => None
  | variant :: rest =>
      let full_path := Path.join location variant in
      if path_exists rt full_path then Some full_path
      else exact_match location rest
  end.

(** [base_variant.lower() in file_lower] for one of the variants *)
Definition partial_hit (base_variations : list pystr) (file : pystr) : bool :=
  existsb (fun base_variant => Str.contains (lower rt base_variant) (lower rt file))
    base_variations.

(** The first listed file that contains a variant of the base name. *)
Fixpoint partial_match (location : pystr) (base_variations files : list pystr)
    : option pystr :=
  match files with
  | [] => None
  | file :: rest =>
      if partial_hit base_variations file then Some (Path.join location file)
      else partial_match location base_variations rest
  end.

(** The list [base_variations] of [find_asset] *)
Definition base_variations (filename : pystr) : list pystr :=
  variations (Path.splitext (Path.basename filename)).1.

(** The loop of [find_asset] over the candidate directories. *)
Fixpoint search_locations (filename : pystr) (locations : list pystr)
    : res (option pystr) :=
  match locations with
  | [] => Ok None
  | location :: rest =>
      let location := expanduser rt location in
      if path_exists rt location then
        match exact_match location (variations filename) with
        | Some full_path => Ok (Some full_path)
        | None =>
            match listdir rt location with
            | None => Raise OSError
            | Some files =>
                match partial_match location (base_variations filename) files with
                | Some full_path => Ok (Some full_path)
                | None => search_locations filename rest
                end
            end
        end
      else search_locations filename rest
  end.

(** [find_asset(filename)] *)
Definition find_asset (filename : pystr) : res (option pystr) :=
  search_locations filename possible_locations.

(** [copy_asset(src_path)]: the relative path of the copy.  A failed
    write of the re-encoded image is caught and falls back to the plain
    copy, under the name already changed to [.jpg]. *)
Definition copy_asset (src_path : pystr) : res (option pystr) :=
  if negb (path_exists rt src_path) then Ok None
  else
    let filename := Path.basename src_path in
    let safe_filename :=
      Re.sub false (Re.Chr (Re.neg file_char)) (fun _ => py "_") filename in
    let ext := lower rt (Path.splitext filename).2 in
    let plain_copy (safe_filename : pystr) : res (option pystr) :=
      let dest_path := Path.join ASSETS_DIR safe_filename in
      if copy2_ok rt src_path dest_path then Ok (Some (py "assets/" ++ safe_filename))
      else Raise OSError in
    if bool_decide (ext ∈ [py ".jpg"; py ".jpeg"; py ".png"; py ".webp"]) then
      match optimize_image rt src_path with
      | Some optimized_data =>
          if Str.truthy optimized_data then
            let safe_filename := (Path.splitext safe_filename).1 ++ py ".jpg" in
            let dest_path := Path.join ASSETS_DIR safe_filename in
            if write_ok rt dest_path then Ok (Some (py "assets/" ++ safe_filename))
            else plain_copy safe_filename
          else plain_copy safe_filename
      | None => plain_copy safe_filename
      end
    else plain_copy safe_filename.

(** The name [process_image_links] asks [find_asset] for. *)
Definition requested_name (reference : pystr) : pystr :=
  let img_path := unquote rt reference in
  let img_path := Re.sub false dotdot_pattern (fun _ => []) img_path in
  let img_path := Re.sub false asset_prefix_pattern (fun _ => []) img_path in
  img_path.

Definition image_placeholder (img_path : pystr) : pystr :=
  py "[Image not found: " ++ img_path ++ py "]".

(** The replacement function of [process_image_links]. *)
Definition image_repl (cs : Re.caps) : res pystr :=
  let img_path := requested_name (Re.group 1 cs) in
  asset_path ← find_asset img_path;
  match asset_path with
  | Some asset_path =>
      if Str.truthy asset_path then
        new_path ← copy_asset asset_path;
        match new_path with
        | Some new_path =>
            if Str.truthy new_path then
              Ok (py "<img src=" ++ dq ++ new_path ++ dq ++ py " alt=" ++ dq ++ dq ++ py "/>")
            else Ok (image_placeholder img_path)
        | None => Ok (image_placeholder img_path)
        end
      else Ok (image_placeholder img_path)
  | None => Ok (image_placeholder img_path)
  end.

(** [process_image_links(content)] *)
Definition process_image_links (content : pystr) : res pystr :=
  content ← sub_m false md_pattern image_repl content;
  sub_m false html_pattern image_repl content.

(** *** The block renderers *)

(** [not block] *)
Definition block_falsy (b : block) : bool :=
  match b with
  | Null => true
  | Node None None None false => true
  | Node _ _ _ _ => false
  end.

(** [block.get("children", [])] is a non-empty list. *)
Definition has_children (children : option (list block)) : bool :=
  match children with
  | Some (_ :: _) => true
  | _ => false
  end.

Definition wrap_span (tag : string) (cs : Re.caps) : pystr :=
  py "<" ++ py tag ++ py ">" ++ Re.group 1 cs ++ py "</" ++ py tag ++ py ">".

(** The body of the loop over the lines in [process_block], for a
    stripped, non-empty line. *)
Definition render_line (public_pages : dict page_info) (line : pystr) : res pystr :=
  let line := Re.sub false (span_pattern "**") (wrap_span "strong") line in
  let line := Re.sub false (span_pattern "*") (wrap_span "em") line in
  let line := Re.sub false (span_pattern "~~") (wrap_span "del") line in
  let line := Re.sub false (span_pattern "==") (wrap_span "mark") line in
  let line := resolve_links_for_html line public_pages in
  let line :=
    Re.sub false url_pattern
      (fun cs => py "<a href=" ++ dq ++ Re.group 1 cs ++ dq ++ py ">" ++ Re.group 1 cs ++ py "</a>")
      line in
  let line := Re.sub false code_pattern (wrap_span "code") line in
  line ← process_image_links line;
  Ok (py "<p>" ++ line ++ py "</p>").

(** The task glyphs of [process_block]. *)
Definition glyph_done : pystr := [9745; 65039; 32].
Definition glyph_doing : pystr := [9203; 32].
Definition glyph_todo : pystr := [9744; 32].
Definition glyph_now : pystr := [9654; 65039; 32].
Definition glyph_later : pystr := [9200; 32].

(** The task-marker step of [process_block]: no flag is passed to
    [re.sub] there. *)
Definition block_task_markers (content : pystr) : pystr :=
  let content := Re.sub false (task_pattern "DONE ") (fun _ => glyph_done) content in
  let content := Re.sub false (task_pattern "DOING ") (fun _ => glyph_doing) content in
  let content := Re.sub false (task_pattern "TODO ") (fun _ => glyph_todo) content in
  let content := Re.sub false (task_pattern "NOW ") (fun _ => glyph_now) content in
  let content := Re.sub false (task_pattern "LATER ") (fun _ => glyph_later) content in
  content.

(** The stripped, non-empty lines [process_block] renders. *)
Definition block_lines (content : pystr) : list pystr :=
  let content := clean_logseq_metadata content in
  let content := block_task_markers content in
  List.filter Str.truthy (Str.strip <$> Str.split 10 content).

(** The markup [process_block] puts around the rendered lines and the
    rendered children ([None] when the block has no children). *)
Definition block_html (processed_lines : list pystr) (items : option (list pystr)) : pystr :=
  let html := py "<div class='block'>" ++ Str.join nl processed_lines in
  let html :=
    match items with
    | Some items =>
        html ++ py "<ul>"
        ++ concat ((fun item => py "<li>" ++ item ++ py "</li>") <$> items)
        ++ py "</ul>"
    | None => html
    end in
  html ++ py "</div>".

(** [process_block(block)], the renderer nested in
    [export_page_to_html]. *)
Fixpoint process_block (public_pages : dict page_info) (b : block) {struct b} : res pystr :=
  match b with
  | Null => Ok []
  | Node _ content children _ =>
      if block_falsy b then Ok []
      else
        let content := Str.strip (default [] content) in
        if negb (Str.truthy content) then Ok []
        else
          processed_lines ← mapM (render_line public_pages) (block_lines content);
          match children with
          | Some ((_ :: _) as children) =>
              items ← mapM (process_block public_pages) children;
              Ok (block_html processed_lines (Some items))
          | _ => Ok (block_html processed_lines None)
          end
  end.

(** The text of a block as [block_tree_to_html] hands it to the
    markdown compiler. *)
Definition tree_content (public_pages : dict page_info) (content : pystr) : res pystr :=
  let content := preprocess_markdown content in
  let content := resolve_links_for_html content public_pages in
  content ← process_image_links content;
  Ok (if Str.truthy content then markdown rt content else []).

(** The list of the rendered children below the content. *)
Definition tree_children (html_content : pystr) (parts : list pystr) : pystr :=
  let child_html := Str.join nl parts in
  if Str.truthy child_html then
    html_content ++ nl ++ py "<ul>" ++ nl ++ child_html ++ nl ++ py "</ul>"
  else html_content.

(** [<li>] around every block below the root. *)
Definition tree_item (indent : nat) (html_content : pystr) : pystr :=
  if (0 <? indent)%nat then py "<li>" ++ html_content ++ py "</li>"
  else html_content.

(** [block_tree_to_html(block, title, public_pages, indent)] *)
Fixpoint block_tree_to_html (b : block) (title : pystr)
    (public_pages : dict page_info) (indent : nat) {struct b} : res pystr :=
  match b with
  | Null => Ok []
  | Node _ content children _ =>
      if block_falsy b then Ok []
      else
        let content := Str.strip (default [] content) in
        if negb (Str.truthy content) && negb (has_children children) then Ok []
        else
          html_content ← tree_content public_pages content;
          match children with
          | Some ((_ :: _) as children) =>
              parts ← mapM_if (fun child => negb (block_falsy child))
                         (fun child => block_tree_to_html child title public_pages (S indent))
                         children;
              Ok (tree_item indent (tree_children html_content parts))
          | _ => Ok (tree_item indent html_content)
          end
  end.

(** *** The public page set *)

(** [(page.get("name") or page.get("title", "")).strip()] *)
Definition page_key (p : page) : pystr :=
  Str.strip match page_name p with
            | Some (c :: s) => c :: s
            | _ => default [] (page_title p)
            end.

(** [get_page_property(page, property_name)]; [JNull] stands for [None] *)
Definition get_page_property (p : page) (property_name : pystr) : json :=
  match page_properties p with
  | None => JNull
  | Some props => default JNull (dict_get property_name props)
  end.

(** [public_prop in [True, "true", "children"]]; in Python [1 == True] *)
Definition is_page_public (p : page) : bool :=
  match get_page_property p (py "public") with
  | JBool b => b
  | JNum z => bool_decide (z = 1%Z)
  | JStr s => Str.eqb s (py "true") || Str.eqb s (py "children")
  | _ => false
  end.

(** [public_prop == "children"] *)
Definition is_public_children (p : page) : bool :=
  match get_page_property p (py "public") with
  | JStr s => Str.eqb s (py "children")
  | _ => false
  end.

(** [get_nested_pages(page_name)] *)
Definition get_nested_pages (page_name : pystr) : list page :=
  match all_pages rt with
  | None | Some [] => []
  | Some pages =>
      let base_path := Str.strip page_name ++ py "/" in
      List.filter (fun p => Str.startswith base_path (page_key p)) pages
  end.

(** The two collections [get_public_pages] builds: [public_pages] and
    [processed_pages]. *)
Definition pp_state := (dict page_info * gset pystr)%type.

(** The closure [add_page] *)
Definition add_page (st : pp_state) (p : page) : pp_state :=
  let title := page_key p in
  match page_uuid p with
  | Some uuid =>
      if Str.truthy uuid && Str.truthy title && bool_decide (title ∉ st.2) then
        (dict_set title
           {| info_uuid := uuid; info_title := title;
              has_public_children := is_public_children p |} st.1,
         {[title]} ∪ st.2)
      else st
  | None => st
  end.

(** The body of the loop over the pages. *)
Definition visit_page (st : pp_state) (p : page) : pp_state :=
  if is_page_public p then
    let st := add_page st p in
    if is_public_children p then foldl add_page st (get_nested_pages (page_key p))
    else st
  else st.

(** [get_public_pages()]; the empty list returned when there are no
    pages is the empty mapping here. *)
Definition get_public_pages : dict page_info :=
  match all_pages rt with
  | None | Some [] => []
  | Some pages => (foldl visit_page ([], ∅) pages).1
  end.

(** *** Embeds *)

(** The global name [resolve_embeds].  The module calls it at one place
    and neither defines nor imports it: when [resolve_embeds_in_block]
    runs the name is bound to nothing, and to evaluate it raises
    [NameError]. *)
Definition resolve_embeds
    : option (pystr -> gset pystr -> dict page_info -> pystr * gset pystr) := None.

(** How a call of [resolve_embeds_in_block] ends: it returns the block,
    or it is left by [NameError] or by an exception of the file system. *)
Inductive ending :=
| Returned
| NameError
| Failed (e : exn).

Definition set_content (content : pystr) (blk : block_obj) : block_obj :=
  {| b_uuid := b_uuid blk; b_content := Some content; b_children := b_children blk |}.

(** The loop over the children: each call goes on from the heap and
    the visited set the call before left; an exception, or a call that
    does not return, ends the loop. *)
Definition each_child (visit : addr -> heap * gset pystr -> option (ending * (heap * gset pystr)))
    : list addr -> heap * gset pystr -> option (ending * (heap * gset pystr)) :=
  fix loop children st :=
    match children with
    | [] => Some (Returned, st)
    | child :: rest =>
        match visit child st with
        | Some (Returned, st') => loop rest st'
        | other => other
        end
    end.

(** [resolve_embeds_in_block(block, processed, public_pages)] on the
    object at address [a].  The result tells how the call ends, and the
    heap and the visited set it leaves behind: the set is a Python
    object the caller shares, so that what was added to it stays added
    when an exception ends the call.  The recursion of the source has no
    bound of its own; [fuel] bounds its depth, and [None] is a run that
    needs more (or an address that is not in the heap, which Python
    cannot have).  The lines behind the call of [resolve_embeds] are
    written as the source has them; with the name unbound they are never
    reached. *)
Fixpoint resolve_embeds_in_block (fuel : nat) (a : addr) (processed : option (gset pystr))
    (public_pages : dict page_info) (h : heap) : option (ending * (heap * gset pystr)) :=
  match fuel with
  | O => None
  | S fuel' =>
      blk ← h !! a;
      let processed := default ∅ processed in
      let block_uuid := default [] (b_uuid blk) in
      if Str.truthy block_uuid && bool_decide (block_uuid ∈ processed) then
        Some (Returned, (h, processed))
      else
        let processed :=
          if Str.truthy block_uuid then {[block_uuid]} ∪ processed else processed in
        let content := default [] (b_content blk) in
        match resolve_embeds with
        | None => Some (NameError, (h, processed))
        | Some resolve_embeds =>
            let '(content, processed) := resolve_embeds content processed public_pages in
            let content := resolve_links_for_html content public_pages in
            let h := <[a := set_content content blk]> h in
            match process_image_links content with
            | Raise e => Some (Failed e, (h, processed))
            | Ok content =>
                let h := <[a := set_content content blk]> h in
                match b_children blk with
                | None => Some (Returned, (h, processed))
                | Some children =>
                    each_child
                      (fun child st =>
                         resolve_embeds_in_block fuel' child (Some st.2) public_pages st.1)
                      children (h, processed)
                end
            end
        end
  end.

End Exporter.

(** * The site generator

    The page lists, the excerpts of the index, the documents and the run
    of [main], over the definitions above. *)

(** ** Exceptions and the rest of the environment *)

(** What this part of the exporter can raise: a missing key, iteration
    over [None], an attribute of [None], the exit of [main], and what the
    file system raises. *)
Inductive error :=
| KeyError
| TypeError
| AttributeError
| SystemExit (status : Z)
| Os (e : exn).

Inductive outcome (A : Type) : Type :=
| Return (a : A)
| Throw (e : error).
Arguments Return {A} a.
Arguments Throw {A} e.

#[global] Instance outcome_ret : MRet outcome := fun A a => Return a.
#[global] Instance outcome_bind : MBind outcome := fun A B f x =>
  match x with
  | Return a => f a
  | Throw e => Throw e
  end.

(** A call into the code above, which raises [OSError] only. *)
Definition lift {A} (r : res A) : outcome A :=
  match r with
  | Ok a => Return a
  | Raise e => Throw (Os e)
  end.

(** A loop that threads a value through its iterations and stops at the
    first exception. *)
Definition foldM {A B : Type} (f : B -> A -> outcome B) : list A -> B -> outcome B :=
  fix go l b :=
    match l with
    | [] => Return b
    | x :: t => b' ← f b x; go t b'
    end.

(** The answer to [logseq.Editor.getPageBlocksTree]: a list of blocks,
    or one block. *)
Inductive blocks :=
| BlockList (l : list block)
| OneBlock (b : block).

(** What the site generator takes from outside beside [runtime]. *)
Record host := Host {
  (** [str.title] *)
  str_title : pystr -> pystr;
  (** whether the answer of the API to [logseq.Editor.getPage] for a
      name is truthy *)
  get_page : pystr -> bool;
  (** the answer of the API to [logseq.Editor.getPageBlocksTree] for an
      identifier; [None] when the call fails *)
  get_page_blocks_tree : pystr -> option blocks;
  (** whether [setup_output_directory] returns: it only removes and
      creates directories and copies the style sheet *)
  setup_ok : bool;
  (** whether a text file at a path can be opened for writing *)
  can_write : pystr -> bool
}.

(** ** Order and sorting *)

(** [a <= b] on strings: by code points, a proper prefix first. *)
Fixpoint str_leb (a b : pystr) : bool :=
  match a, b with
  | [], _ => true
  | _ :: _, [] => false
  | x :: a', y :: b' => (x <? y) || ((x =? y) && str_leb a' b')
  end.

(** [sorted(l, key=key)], a stable sort: an element goes before the
    first one behind it whose key is not smaller. *)
Fixpoint insort {A} (key : A -> pystr) (x : A) (l : list A) : list A :=
  match l with
  | [] => [x]
  | y :: t => if str_leb (key x) (key y) then x :: l else y :: insort key x t
  end.

Definition sorted_by {A} (key : A -> pystr) (l : list A) : list A :=
  foldr (insort key) [] l.

Definition sorted (l : list pystr) : list pystr := sorted_by (fun s => s) l.

(** ** Titles *)

(** [title.split('/')] *)
Definition title_parts (title : pystr) : list pystr := Str.split (code "/") title.

(** [title.split('/')[0]] and [title.split('/')[-1]]; a split is never
    empty. *)
Definition first_part (title : pystr) : pystr := default [] (head (title_parts title)).
Definition last_part (title : pystr) : pystr := default [] (last (title_parts title)).

(** ['/'.join(title.split('/')[:-1])] *)
Definition parent_path (title : pystr) : pystr :=
  Str.join (py "/") (removelast (title_parts title)).

(** The text between double quotes. *)
Definition quoted (s : pystr) : pystr := dq ++ s ++ dq.

Definition spaces (n : nat) : pystr := replicate n 32.

(** The lines every document of the exporter starts with, up to
    [<body>]. *)
Definition document_head (title : pystr) : pystr :=
  py "<!DOCTYPE html>" ++ nl
  ++ py "<html lang=" ++ quoted (py "en") ++ py ">" ++ nl
  ++ py "<head>" ++ nl
  ++ spaces 4 ++ py "<meta charset=" ++ quoted (py "UTF-8") ++ py ">" ++ nl
  ++ spaces 4 ++ py "<meta name=" ++ quoted (py "viewport") ++ py " content="
     ++ quoted (py "width=device-width, initial-scale=1.0") ++ py ">" ++ nl
  ++ spaces 4 ++ py "<title>" ++ title ++ py "</title>" ++ nl
  ++ spaces 4 ++ py "<link rel=" ++ quoted (py "stylesheet") ++ py " href=" ++ quoted CSS_FILE
     ++ py ">" ++ nl
  ++ py "</head>" ++ nl
  ++ py "<body>" ++ nl.

(** ** The page hierarchy *)

(** The records of [get_page_hierarchy]. *)
Record base_page := BasePage {
  base_title : pystr;
  base_info : page_info;
  is_base : bool
}.

Record child_page := ChildPage {
  child_title : pystr;
  child_info : page_info;
  depth : nat
}.

(** The body of the first loop of [get_page_hierarchy]. *)
Definition base_step (base_pages : dict base_page) (item : pystr * page_info)
    : dict base_page :=
  let '(title, page_info) := item in
  let parts := title_parts title in
  let base_category := default [] (head parts) in
  if (length parts =? 1)%nat then
    dict_set base_category (BasePage title page_info true) base_pages
  else if negb (dict_mem base_category base_pages) then
    dict_set base_category (BasePage title page_info false) base_pages
  else base_pages.

(** The body of the second loop; [base_pages[parent]] raises [KeyError]
    for a key that is missing. *)
Definition child_step (base_pages : dict base_page) (child_pages : dict (list child_page))
    (item : pystr * page_info) : outcome (dict (list child_page)) :=
  let '(title, page_info) := item in
  let parts := title_parts title in
  if (1 <? length parts)%nat then
    let parent := default [] (head parts) in
    let child_pages :=
      if negb (dict_mem parent child_pages) then dict_set parent [] child_pages
      else child_pages in
    match dict_get parent base_pages with
    | None => Throw KeyError
    | Some base =>
        if negb (Str.eqb title (base_title base)) then
          Return (dict_set parent
                    (default [] (dict_get parent child_pages)
                     ++ [ChildPage title page_info (length parts - 1)])
                    child_pages)
        else Return child_pages
    end
  else Return child_pages.

(** [get_page_hierarchy(pages)] *)
Definition get_page_hierarchy (pages : dict page_info)
    : outcome (dict base_page * dict (list child_page)) :=
  let base_pages := foldl base_step [] pages in
  child_pages ← foldM (child_step base_pages) pages [];
  Return (base_pages, child_pages).

(** [get_page_children(title, public_pages)] *)
Definition get_page_children (title : pystr) (public_pages : dict page_info) : list pystr :=
  let base := title ++ py "/" in
  sorted (List.filter (fun page_title => Str.startswith base page_title)
            (dict_keys public_pages)).

(** [re.split(PATTERN, s)] for the pattern of [get_first_sentence], a run
    of white space behind a full stop, an exclamation mark or a question
    mark: the pieces between such runs.  [in_run] tells that the
    position is inside a run that is being skipped, [prev] is the
    character before the position. *)
Definition ends_sentence (prev : option char) : bool :=
  match prev with
  | Some c => (c =? code ".") || (c =? code "!") || (c =? code "?")
  | None => false
  end.

Fixpoint split_sentences (in_run : bool) (prev : option char) (s : pystr) : list pystr :=
  match s with
  | [] => [[]]
  | c :: t =>
      if Str.isspace c && in_run then split_sentences true (Some c) t
      else if Str.isspace c && ends_sentence prev then [] :: split_sentences true (Some c) t
      else match split_sentences false (Some c) t with
           | piece :: pieces => (c :: piece) :: pieces
           | [] => [[c]]
           end
  end.

(** [^[-*] ], the list marker at the start of a text *)
Definition list_marker_pattern : Re.regex :=
  (Re.Bol ⋅ Re.Chr (Re.either (Re.ch (code "-")) (Re.ch (code "*"))) ⋅ Re.lit (py " "))%re.

(** [next((p for p in pages if KEY(p) == page_name), None)] *)
Definition find_page (page_name : pystr) (pages : list page) : option page :=
  List.find (fun p => Str.eqb (page_key p) page_name) pages.

(** [page["name"]]; [None] is the missing key, on which the subscript
    raises [KeyError]. *)
Definition name_field (p : page) : option pystr := page_name p.

(** [not page]: a record without a key.  The records of the model hold
    the four keys the exporter reads and no others. *)
Definition page_falsy (p : page) : bool :=
  match p with
  | Page None None None None => true
  | _ => false
  end.

(** [not blocks] *)
Definition blocks_falsy (bs : blocks) : bool :=
  match bs with
  | BlockList [] => true
  | BlockList (_ :: _) => false
  | OneBlock b => block_falsy b
  end.

(** The loop of [find_first_content] over a list: the first content
    that is not empty. *)
Definition first_content_in (find : block -> outcome pystr) : list block -> outcome pystr :=
  fix go l :=
    match l with
    | [] => Return []
    | b :: t => content ← find b; if Str.truthy content then Return content else go t
    end.

(** [find_first_content(block)] for a block; [None] has no [get]. *)
Fixpoint find_first_content (b : block) : outcome pystr :=
  match b with
  | Null => Throw AttributeError
  | Node _ content children _ =>
      let content := Str.strip (default [] content) in
      if negb (Str.truthy content) || Str.contains (py "::") content
         || Str.startswith (py "public::") content then
        match children with
        | Some ((_ :: _) as children) => first_content_in find_first_content children
        | _ => Return []
        end
      else Return content
  end.

(** [find_first_content(blocks)] for the answer of the API *)
Definition find_first_content_of (bs : blocks) : outcome pystr :=
  match bs with
  | BlockList l => first_content_in find_first_content l
  | OneBlock b => find_first_content b
  end.

(** What [get_first_sentence] makes of the content it found. *)
Definition first_sentence_of (content : pystr) : pystr :=
  let content := clean_logseq_metadata content in
  let content := Re.sub false list_marker_pattern (fun _ => []) content in
  let content := Re.sub false link_pattern (fun cs => Re.group 1 cs) content in
  let sentences := split_sentences false None content in
  match sentences with
  | first :: _ =>
      let first_sentence := Str.strip first in
      if (150 <? length first_sentence)%nat then take 147 first_sentence ++ py "..."
      else first_sentence
  | [] => []
  end.

Section Site.

Variable rt : runtime.
Variable env : host.

(** [child.split('/')[-1].replace('_', ' ').title()] *)
Definition display_name (title : pystr) : pystr :=
  str_title env (Str.replace (py "_") (py " ") (last_part title)).

(** One item of the list of related pages. *)
Definition hierarchy_item (child : pystr) : pystr :=
  let safe_name := sanitize_filename rt child in
  py "<li><a href=" ++ quoted (safe_name ++ py ".html") ++ py ">" ++ display_name child
  ++ py "</a></li>" ++ nl.

(** [generate_hierarchy_section(title, public_pages)] *)
Definition generate_hierarchy_section (title : pystr) (public_pages : dict page_info) : pystr :=
  match get_page_children title public_pages with
  | [] => []
  | (_ :: _) as children =>
      py "<section class=" ++ quoted (py "hierarchy-section") ++ py ">" ++ nl
      ++ py "<h2>Related Pages</h2>" ++ nl
      ++ py "<ul class=" ++ quoted (py "hierarchy-list") ++ py ">" ++ nl
      ++ concat (hierarchy_item <$> children)
      ++ py "</ul>" ++ nl ++ py "</section>" ++ nl
  end.

(** [get_first_sentence(page_name)] *)
Definition get_first_sentence (page_name : pystr) : outcome pystr :=
  match all_pages rt with
  | None => Throw TypeError
  | Some pages =>
      match find_page page_name pages with
      | None => Return []
      | Some page =>
          if page_falsy page then Return []
          else
            match page_uuid page with
            | None => Throw KeyError
            | Some uuid =>
                match get_page_blocks_tree env uuid with
                | None => Return []
                | Some blocks =>
                    if blocks_falsy blocks then Return []
                    else
                      content ← find_first_content_of blocks;
                      Return (first_sentence_of content)
                end
            end
      end
  end.

(** The item of a page in the index. *)
Definition index_item (title first_sentence : pystr) : pystr :=
  let safe_name := sanitize_filename rt title in
  let display_title := display_name title in
  let html :=
    nl ++ spaces 16 ++ py "<a href=" ++ quoted (safe_name ++ py ".html") ++ py " class="
    ++ quoted (py "page-list-item") ++ py ">" ++ nl
    ++ spaces 20 ++ py "<div class=" ++ quoted (py "page-list-content") ++ py ">" ++ nl
    ++ spaces 24 ++ py "<h3>" ++ display_title ++ py "</h3>" in
  let html :=
    if bool_decide (code "/" ∈ title) then
      html ++ nl ++ spaces 24 ++ py "<p class=" ++ quoted (py "page-path") ++ py ">"
      ++ parent_path title ++ py "</p>"
    else html in
  let html :=
    if Str.truthy first_sentence then
      html ++ nl ++ spaces 24 ++ py "<p class=" ++ quoted (py "page-excerpt") ++ py ">"
      ++ first_sentence ++ py "</p>"
    else html in
  html ++ nl ++ spaces 20 ++ py "</div>" ++ nl ++ spaces 16 ++ py "</a>".

(** The text of the index page. *)
Definition index_html (public_pages : dict page_info) : outcome pystr :=
  let html :=
    document_head (py "De Amaristische Zee")
    ++ spaces 4 ++ py "<main>" ++ nl
    ++ spaces 8 ++ py "<article>" ++ nl
    ++ spaces 12 ++ py "<h1>De Amaristische Zee</h1>" ++ nl
    ++ spaces 12 ++ py "<div class=" ++ quoted (py "page-list") ++ py ">" in
  let sorted_pages := sorted_by fst public_pages in
  html ← foldM (fun html '(title, _) =>
                  first_sentence ← get_first_sentence title;
                  Return (html ++ index_item title first_sentence))
           sorted_pages html;
  Return (html ++ nl
          ++ spaces 12 ++ py "</div>" ++ nl
          ++ spaces 8 ++ py "</article>" ++ nl
          ++ spaces 4 ++ py "</main>" ++ nl
          ++ py "</body>" ++ nl
          ++ py "</html>").

(** [with open(filepath, "w") as f: f.write(text)], on the files written
    so far. *)
Definition write_text (filepath text : pystr) (files : dict pystr) : outcome (dict pystr) :=
  if can_write env filepath then Return (dict_set filepath text files)
  else Throw (Os OSError).

(** [generate_index_page(public_pages)] *)
Definition generate_index_page (public_pages : dict page_info) (files : dict pystr)
    : outcome (dict pystr) :=
  html ← index_html public_pages;
  write_text (Path.join OUTPUT_DIR (py "index.html")) html files.

(** [export_page_to_html(page_name, public_pages)] *)
Definition export_page_to_html (page_name : pystr) (public_pages : dict page_info)
    : outcome (option pystr) :=
  match all_pages rt with
  | None => Throw TypeError
  | Some pages =>
      match find_page page_name pages with
      | None => Return None
      | Some page =>
          if page_falsy page then Return None
          else
            match name_field page with
            | None => Throw KeyError
            | Some name =>
                if negb (get_page env name) then Return None
                else
                  match page_uuid page with
                  | None => Throw KeyError
                  | Some uuid =>
                      match get_page_blocks_tree env uuid with
                      | None => Return None
                      | Some blocks =>
                          if blocks_falsy blocks then Return None
                          else
                            let html_content :=
                              document_head page_name
                              ++ spaces 4 ++ py "<main>" ++ nl
                              ++ spaces 8 ++ py "<article>" ++ nl
                              ++ spaces 12 ++ py "<a href=" ++ quoted (py "index.html")
                                 ++ py " class=" ++ quoted (py "back-to-index")
                                 ++ py ">Back to Index</a>" ++ nl
                              ++ spaces 12 ++ py "<h1>" ++ page_name ++ py "</h1>" ++ nl in
                            body ←
                              match blocks with
                              | BlockList l =>
                                  parts ← lift (mapM (process_block rt public_pages) l);
                                  Return (concat parts)
                              | OneBlock b => lift (process_block rt public_pages b)
                              end;
                            let html_content := html_content ++ body in
                            let html_content :=
                              html_content ++ generate_hierarchy_section page_name public_pages in
                            Return (Some (html_content ++ nl
                                          ++ spaces 8 ++ py "</article>" ++ nl
                                          ++ spaces 4 ++ py "</main>" ++ nl
                                          ++ py "</body>" ++ nl
                                          ++ py "</html>"))
                      end
                  end
            end
      end
  end.

(** The body of the loop of [main] over the public pages. *)
Definition export_step (public_pages : dict page_info) (files : dict pystr)
    (item : pystr * page_info) : outcome (dict pystr) :=
  let title := item.1 in
  html_content ← export_page_to_html title public_pages;
  match html_content with
  | Some ((_ :: _) as html_content) =>
      let filename := sanitize_filename rt title ++ py ".html" in
      write_text (Path.join OUTPUT_DIR filename) html_content files
  | _ => Return files
  end.

(** [main()]: the text files it has written when it returns.
    [sys.exit(1)] is the exception [SystemExit]. *)
Definition main : outcome (dict pystr) :=
  if negb (setup_ok env) then Throw (Os OSError)
  else
    let public_pages := get_public_pages rt in
    if bool_decide (public_pages = []) then Throw (SystemExit 1)
    else
      files ← generate_index_page public_pages [];
      foldM (export_step public_pages) public_pages files.

End Site.

(** * Auxiliary definitions of the statements *)

(** A class is followed by something outside it. *)
Definition ends_run (cls : char -> bool) (rest : pystr) : Prop :=
  match rest with
  | c :: _ => cls c = false
  | [] => True
  end.

(** What [sanitize_filename] does to one character before the case
    folding. *)
Definition safe_char (c : char) : char :=
  if c =? code "/" then code "-" else if name_char c then c else code "_".

(** Case analysis on the comparisons of code points in sight. *)
Ltac cmp_cases :=
  repeat match goal with
         | |- context [N.leb ?a ?b] => destruct (N.leb_spec a b)
         | |- context [N.ltb ?a ?b] => destruct (N.ltb_spec a b)
         | |- context [N.eqb ?a ?b] => destruct (N.eqb_spec a b)
         end;
  cbn [andb orb negb]; try done; try lia.



(** The pattern matches nowhere in [s]. *)
Definition unmatched (multiline : bool) (r : Re.regex) (s : pystr) : bool :=
  Re.no_match_from multiline r None s.

(** A line that already looks like markup: its first character that is
    no white space is [<]. *)
Definition markup_line (line : pystr) : bool :=
  Str.startswith (py "<") (Str.strip line).

(** Text in normal form for the syntax normalizer: not empty, every line
    is markup, and none of the rewritten forms occurs (tag link, block
    reference, task marker at the start of a line, metadata token). *)
Definition normalized (s : pystr) : bool :=
  Str.truthy s
  && unmatched false tag_pattern s
  && unmatched false block_ref_pattern s
  && forallb (fun marker => unmatched true (task_pattern marker) s)
       ["DONE "; "DOING "; "TODO "; "NOW "; "LATER "]%string
  && forallb markup_line (Str.split 10 s)
  && unmatched false id_pattern s
  && unmatched false uuid_pattern s
  && unmatched false public_pattern s.

(** A path made of a candidate directory and a spelling of the name. *)
Definition is_exact_path (rt : runtime) (filename p : pystr) : Prop :=
  ∃ location variant,
    location ∈ possible_locations rt ∧ variant ∈ variations filename
    ∧ p = Path.join (expanduser rt location) variant.

(** The reading of the specification: an exact match in any candidate
    directory is the result. *)
Definition exact_match_wins (rt : runtime) : Prop :=
  ∀ filename location variant,
    location ∈ possible_locations rt -> variant ∈ variations filename ->
    path_exists rt (expanduser rt location) = true ->
    path_exists rt (Path.join (expanduser rt location) variant) = true ->
    ∃ p, find_asset rt filename = Ok (Some p) ∧ is_exact_path rt filename p.

(** A disk with two of the candidate directories: the configured one
    holds [holiday-photo-big.png], the local [assets] holds [photo.png]. *)
Definition two_dir_runtime : runtime := {|
  lower := Str.ascii_lower;
  unquote := fun s => s;
  hash := fun s => Z.of_nat (length s);
  markdown := fun s => s;
  expanduser := fun p => p;
  path_exists := fun p =>
    bool_decide (p ∈ [ LOGSEQ_ASSETS_PATH;
                       Path.join LOGSEQ_ASSETS_PATH (py "holiday-photo-big.png");
                       py "assets";
                       py "assets/photo.png" ]);
  listdir := fun p =>
    if bool_decide (p = LOGSEQ_ASSETS_PATH) then Some [py "holiday-photo-big.png"]
    else if bool_decide (p = py "assets") then Some [py "photo.png"]
    else None;
  optimize_image := fun _ => None;
  write_ok := fun _ => true;
  copy2_ok := fun _ _ => true;
  all_pages := None
|}.

(** A disk with the local [assets] directory only, holding [photo.png]. *)
Definition assets_only_runtime : runtime := {|
  lower := Str.ascii_lower;
  unquote := fun s => s;
  hash := fun s => Z.of_nat (length s);
  markdown := fun s => s;
  expanduser := fun p => p;
  path_exists := fun p => bool_decide (p ∈ [py "assets"; py "assets/photo.png"]);
  listdir := fun p => if bool_decide (p = py "assets") then Some [py "photo.png"] else None;
  optimize_image := fun _ => None;
  write_ok := fun _ => true;
  copy2_ok := fun _ _ => true;
  all_pages := None
|}.

(** The reading of the specification for the public page set: every
    page below a page marked [children] is a member. *)
Definition descendants_included (rt : runtime) : Prop :=
  ∀ pages p q,
    all_pages rt = Some pages -> p ∈ pages -> q ∈ pages ->
    get_page_property p (py "public") = JStr (py "children") ->
    Str.startswith (page_key p ++ py "/") (page_key q) = true ->
    page_key q ∈ dict_keys (get_public_pages rt).

Definition with_pages (pages : list page) : runtime := {|
  lower := Str.ascii_lower;
  unquote := fun s => s;
  hash := fun s => Z.of_nat (length s);
  markdown := fun s => s;
  expanduser := fun p => p;
  path_exists := fun _ => false;
  listdir := fun _ => None;
  optimize_image := fun _ => None;
  write_ok := fun _ => true;
  copy2_ok := fun _ _ => true;
  all_pages := Some pages
|}.

(** A graph with a page marked [children] and two pages below it, one of
    them without an identifier. *)
Definition trip_pages : list page :=
  [ Page (Some (py "trip")) None (Some (py "u-1")) (Some [(py "public", JStr (py "children"))]);
    Page (Some (py "trip/day1")) None (Some (py "u-2")) None;
    Page (Some (py "trip/day2")) None None None ].

(** What the loop of [get_public_pages] keeps true: the keys are
    unique, and every title in [processed_pages] is a key. *)
Definition pp_inv (st : pp_state) : Prop :=
  NoDup (dict_keys st.1) ∧ ∀ t, t ∈ st.2 -> t ∈ dict_keys st.1.

(** [if block_uuid:] *)
Definition has_id (blk : block_obj) : bool := Str.truthy (default [] (b_uuid blk)).

(** A block without an identifier that is its own child. *)
Definition self_child : block_obj :=
  {| b_uuid := None; b_content := None; b_children := Some [0%nat] |}.

(** A block with an identifier that is its own child. *)
Definition self_child_with_uuid : block_obj :=
  {| b_uuid := Some (py "6f1a"); b_content := None; b_children := Some [0%nat] |}.

(** A disk on which the local [assets] is a file, not a directory: it
    exists and cannot be listed. *)
Definition assets_file_runtime : runtime := {|
  lower := Str.ascii_lower;
  unquote := fun s => s;
  hash := fun s => Z.of_nat (length s);
  markdown := fun s => s;
  expanduser := fun p => p;
  path_exists := fun p => bool_decide (p = py "assets");
  listdir := fun _ => None;
  optimize_image := fun _ => None;
  write_ok := fun _ => true;
  copy2_ok := fun _ _ => true;
  all_pages := None
|}.

(** A disk on which the configured directory holds [notes.txt] and the
    local [assets] holds [photo.png]. *)
Definition notes_first_runtime : runtime := {|
  lower := Str.ascii_lower;
  unquote := fun s => s;
  hash := fun s => Z.of_nat (length s);
  markdown := fun s => s;
  expanduser := fun p => p;
  path_exists := fun p =>
    bool_decide (p ∈ [ LOGSEQ_ASSETS_PATH;
                       Path.join LOGSEQ_ASSETS_PATH (py "notes.txt");
                       py "assets";
                       py "assets/photo.png" ]);
  listdir := fun p =>
    if bool_decide (p = LOGSEQ_ASSETS_PATH) then Some [py "notes.txt"]
    else if bool_decide (p = py "assets") then Some [py "photo.png"]
    else None;
  optimize_image := fun _ => None;
  write_ok := fun _ => true;
  copy2_ok := fun _ _ => true;
  all_pages := None
|}.

(** A disk on which the configured path is a file, which exists and
    cannot be listed, and the local [assets] holds [photo.png]. *)
Definition configured_file_runtime : runtime := {|
  lower := Str.ascii_lower;
  unquote := fun s => s;
  hash := fun s => Z.of_nat (length s);
  markdown := fun s => s;
  expanduser := fun p => p;
  path_exists := fun p =>
    bool_decide (p ∈ [ LOGSEQ_ASSETS_PATH; py "assets"; py "assets/photo.png" ]);
  listdir := fun p => if bool_decide (p = py "assets") then Some [py "photo.png"] else None;
  optimize_image := fun _ => None;
  write_ok := fun _ => true;
  copy2_ok := fun _ _ => true;
  all_pages := None
|}.

(** The captures of the matches [re.sub] finds in a text, in order: the
    arguments of the calls of the replacement function. *)
Definition captures_of (multiline : bool) (r : Re.regex) (s : pystr) : list Re.caps :=
  omap (fun p => match p with
                 | Re.Hit _ cs => Some cs
                 | Re.Text _ => None
                 end) (Re.pieces multiline r s).

(** The reading of the specification: image-link processing returns
    for every text. *)
Definition image_links_never_raise (rt : runtime) : Prop :=
  ∀ content, ∃ html, process_image_links rt content = Ok html.

(** A line without any of the markers [process_block] rewrites in a
    line: emphasis, strike-through, highlight, wiki link, URL, inline
    code and image. *)
Definition plain_line (line : pystr) : bool :=
  forallb (fun marker => negb (Str.contains (py marker) line))
    ["*"; "~~"; "=="; "[["; "http"; "`"; "!["; "<img"]%string.

(** What the first loop keeps true of [base_pages]. *)
Definition base_inv (pages : list (list N * page_info)) (done_ : list (list N * page_info))
    (base_pages : list (list N * base_page)) : Prop :=
  (∀ category b, dict_get category base_pages = Some b ->
     first_part (base_title b) = category
     ∧ (base_title b, base_info b) ∈ pages
     ∧ is_base b = bool_decide (base_title b = category))
  ∧ (∀ item, item ∈ done_ -> is_Some (dict_get (first_part item.1) base_pages))
  ∧ (∀ item, item ∈ done_ -> code "/" ∉ item.1 ->
       ∃ b, dict_get item.1 base_pages = Some b ∧ base_title b = item.1).

(** What the second loop keeps true of [child_pages]. *)
Definition child_inv (pages : list (list N * page_info))
    (base_pages : list (list N * base_page)) (done_ : list (list N * page_info))
    (child_pages : list (list N * list child_page)) : Prop :=
  (∀ category kids k, dict_get category child_pages = Some kids -> k ∈ kids ->
     (child_title k, child_info k) ∈ pages
     ∧ code "/" ∈ child_title k
     ∧ first_part (child_title k) = category
     ∧ depth k = (length (title_parts (child_title k)) - 1)%nat
     ∧ ∀ b, dict_get category base_pages = Some b -> child_title k ≠ base_title b)
  ∧ (∀ item, item ∈ done_ -> code "/" ∈ item.1 ->
       ∃ kids, dict_get (first_part item.1) child_pages = Some kids
         ∧ ∀ b, dict_get (first_part item.1) base_pages = Some b -> item.1 ≠ base_title b ->
             ChildPage item.1 item.2 (length (title_parts item.1) - 1) ∈ kids).

(** A set of four pages in two categories, one of them without a page
    of its own. *)
Definition sample_titles : list (list N * page_info) :=
  [ (py "trip/day1", PageInfo (py "u-2") (py "trip/day1") false);
    (py "trip", PageInfo (py "u-1") (py "trip") true);
    (py "trip/day2/evening", PageInfo (py "u-3") (py "trip/day2/evening") false);
    (py "crew/captain", PageInfo (py "u-4") (py "crew/captain") false) ].

(** An API that answers every call: the page with the identifier [u-1]
    has a property block with one block of text below it, every other
    page a single block of text. *)
Definition sample_host : host := {|
  str_title := fun s => s;
  get_page := fun _ => true;
  get_page_blocks_tree := fun uuid =>
    if bool_decide (uuid = py "u-1") then
      Some (BlockList
              [ Node None (Some (py "public:: children"))
                  (Some [ Node None
                            (Some (py "- The crew sails at dawn. They return to [[Home]] late."))
                            None true ])
                  true ])
    else Some (OneBlock (Node None (Some (py "A day at sea!  Nothing else.")) None true));
  setup_ok := true;
  can_write := fun _ => true
|}.

(** * Facts about the matcher *)

Section MatcherFacts.

Variable ml : bool.

(** A successful repetition hands a suffix-length rest to its
    continuation. *)
Lemma rep_greedy_sound cls lo hi prev s k res :
  Re.rep_greedy cls lo hi prev s k = Some res ->
  ∃ p' s', (length s' <= length s)%nat ∧ k p' s' = Some res.
Proof.
  revert lo hi prev. induction s as [|c t IH]; intros lo hi prev H; simpl in H.
  - destruct hi as [[|n]|], lo; try discriminate; eauto.
  - assert (Hstop : match lo with O => k prev (c :: t) | S _ => None end = Some res ->
                    ∃ p' s', (length s' <= length (c :: t))%nat ∧ k p' s' = Some res).
    { destruct lo; [eauto | discriminate]. }
    destruct hi as [[|n]|]; [auto | |].
    + destruct (cls c); [|auto].
      destruct (Re.rep_greedy cls (Nat.pred lo) _ (Some c) t k) eqn:E; [|auto].
      inversion H; subst. apply IH in E as (p' & s' & Hl & Hk).
      exists p', s'. simpl. split; [lia | done].
    + destruct (cls c); [|auto].
      destruct (Re.rep_greedy cls (Nat.pred lo) _ (Some c) t k) eqn:E; [|auto].
      inversion H; subst. apply IH in E as (p' & s' & Hl & Hk).
      exists p', s'. simpl. split; [lia | done].
Qed.

Lemma rep_lazy_sound cls lo hi prev s k res :
  Re.rep_lazy cls lo hi prev s k = Some res ->
  ∃ p' s', (length s' <= length s)%nat ∧ k p' s' = Some res.
Proof.
  revert lo hi prev. induction s as [|c t IH]; intros lo hi prev H; simpl in H.
  - destruct lo.
    + destruct (k prev []) eqn:E; [inversion H; subst; eauto|].
      destruct hi as [[|n]|]; discriminate.
    + destruct hi as [[|n]|]; discriminate.
  - assert (Hmore : match hi with
                    | Some O => None
                    | _ => if cls c then Re.rep_lazy cls (Nat.pred lo) (Nat.pred <$> hi) (Some c) t k
                           else None
                    end = Some res ->
                    ∃ p' s', (length s' <= length (c :: t))%nat ∧ k p' s' = Some res).
    { intros H'.
      assert (Hgo : ∀ lo' hi', Re.rep_lazy cls lo' hi' (Some c) t k = Some res ->
                ∃ p' s', (length s' <= length (c :: t))%nat ∧ k p' s' = Some res).
      { intros lo' hi' E. apply IH in E as (p' & s' & Hl & Hk).
        exists p', s'. simpl. split; [lia|done]. }
      destruct hi as [[|n]|]; [discriminate| |];
        (destruct (cls c); [eapply Hgo, H'|discriminate]). }
    destruct lo.
    + destruct (k prev (c :: t)) eqn:E; [inversion H; subst; eauto|].
      apply Hmore. destruct hi as [[|n]|]; done.
    + apply Hmore. destruct hi as [[|n]|]; done.
Qed.

Lemma m_sound r : ∀ prev s cs k res,
  Re.m ml r prev s cs k = Some res ->
  ∃ p' s' cs', (length s' <= length s)%nat ∧ k p' s' cs' = Some res.
Proof.
  induction r as [|cls|r1 IH1 r2 IH2|r1 IH1 r2 IH2|cls lo hi g|i r IH| |];
    intros prev s cs k res H; simpl in H.
  - eauto 6.
  - destruct s as [|c t]; [discriminate|]. destruct (cls c); [|discriminate].
    exists (Some c), t, cs. simpl. split; [lia|done].
  - apply IH1 in H as (p1 & s1 & cs1 & Hl1 & H).
    apply IH2 in H as (p2 & s2 & cs2 & Hl2 & H).
    exists p2, s2, cs2. split; [lia|done].
  - destruct (Re.m ml r1 prev s cs k) eqn:E.
    + inversion H; subst. eauto.
    + eauto.
  - destruct g.
    + apply rep_greedy_sound in H as (p' & s' & Hl & H). eauto 6.
    + apply rep_lazy_sound in H as (p' & s' & Hl & H). eauto 6.
  - apply IH in H as (p' & s' & cs' & Hl & H). eauto 6.
  - destruct (Re.at_bol ml prev); [eauto 6|discriminate].
  - destruct (Re.at_eol ml s); [eauto 6|discriminate].
Qed.

(** A match ends inside the subject, and past its start when it must
    advance. *)
Lemma match_at_length adv r prev s cs p' s' :
  Re.match_at ml adv r prev s = Some (cs, p', s') ->
  (length s' <= length s)%nat ∧ (adv = true -> (length s' < length s)%nat).
Proof.
  unfold Re.match_at. intros H.
  apply m_sound in H as (p1 & s1 & cs1 & Hl & H).
  destruct adv; simpl in H.
  - destruct (length s1 =? length s)%nat eqn:E; [discriminate|].
    inversion H; subst. apply Nat.eqb_neq in E. split; [lia|intros; lia].
  - inversion H; subst. split; [lia|discriminate].
Qed.

Lemma whole_of_nonempty (s s' : pystr) c w :
  Re.whole_of s s' = c :: w -> (length s' < length s)%nat.
Proof.
  unfold Re.whole_of. intros H.
  destruct (decide (length s' < length s)%nat); [done|].
  replace (length s - length s')%nat with O in H by lia. by rewrite take_0 in H.
Qed.

(** The scan never runs out of fuel. *)
Lemma scan_fuel r n : ∀ s prev f1 f2,
  (length s <= n)%nat -> (length s < f1)%nat -> (length s < f2)%nat ->
  Re.scan ml f1 r prev s = Re.scan ml f2 r prev s.
Proof.
  induction n as [|n IH]; intros s prev f1 f2 Hn H1 H2.
  - destruct s; [|simpl in Hn; lia].
    destruct f1 as [|f1]; [lia|]. destruct f2 as [|f2]; [lia|]. simpl.
    destruct (Re.match_at ml false r prev []) as [[[cs p'] s']|] eqn:E; [|done].
    apply match_at_length in E as [E _]. destruct s'; [|simpl in E; lia].
    simpl. by destruct (Re.match_at ml true r prev []) as [[[cs2 p2] s2]|] eqn:E2;
      [apply match_at_length in E2 as [_ E2]; specialize (E2 eq_refl); simpl in E2; lia|].
  - destruct f1 as [|f1]; [lia|]. destruct f2 as [|f2]; [lia|]. simpl.
    assert (Hstep : match s with [] => [] | c :: t => Re.Text c :: Re.scan ml f1 r (Some c) t end
                  = match s with [] => [] | c :: t => Re.Text c :: Re.scan ml f2 r (Some c) t end).
    { destruct s as [|c t]; [done|]. simpl in *. f_equal. apply IH; lia. }
    destruct (Re.match_at ml false r prev s) as [[[cs p'] s']|] eqn:E; [|done].
    destruct (Re.whole_of s s') as [|c w] eqn:W.
    + f_equal. destruct (Re.match_at ml true r prev s) as [[[cs2 p2] s2]|] eqn:E2; [|done].
      apply match_at_length in E2 as [_ E2]; specialize (E2 eq_refl).
      f_equal. apply IH; lia.
    + apply whole_of_nonempty in W. f_equal. apply IH; lia.
Qed.

End MatcherFacts.


Section ScanFacts.

Variable ml : bool.

Lemma whole_of_app (w s' : pystr) : Re.whole_of (w ++ s') s' = w.
Proof.
  unfold Re.whole_of. rewrite length_app.
  replace (length w + length s' - length s')%nat with (length w) by lia.
  by rewrite take_app_length.
Qed.

Lemma pieces_from_nil r prev :
  Re.match_at ml false r prev [] = None -> Re.pieces_from ml r prev [] = [].
Proof. unfold Re.pieces_from. simpl. by intros ->. Qed.

(** No match at the current position: the character is copied. *)
Lemma pieces_from_skip r prev c t :
  Re.match_at ml false r prev (c :: t) = None ->
  Re.pieces_from ml r prev (c :: t) = Re.Text c :: Re.pieces_from ml r (Some c) t.
Proof.
  unfold Re.pieces_from. intros H. cbn [Re.scan length]. by rewrite H.
Qed.

(** A non-empty match: the scan goes on behind it. *)
Lemma pieces_from_hit r prev w s' cs p' :
  w ≠ [] ->
  Re.match_at ml false r prev (w ++ s') = Some (cs, p', s') ->
  Re.pieces_from ml r prev (w ++ s') = Re.Hit w cs :: Re.pieces_from ml r p' s'.
Proof.
  unfold Re.pieces_from. intros Hw H.
  remember (Re.scan ml (S (length s')) r p' s') as tail eqn:Htail.
  cbn [Re.scan]. rewrite H, whole_of_app.
  destruct w as [|c w]; [done|]. f_equal. subst tail.
  apply scan_fuel with (n := length s'); rewrite ?length_app; simpl; lia.
Qed.

Lemma sub_from_nil r repl prev :
  Re.match_at ml false r prev [] = None -> Re.sub_from ml r repl prev [] = [].
Proof. unfold Re.sub_from. intros H. by rewrite pieces_from_nil. Qed.

Lemma sub_from_skip r repl prev c t :
  Re.match_at ml false r prev (c :: t) = None ->
  Re.sub_from ml r repl prev (c :: t) = c :: Re.sub_from ml r repl (Some c) t.
Proof. unfold Re.sub_from. intros H. by rewrite pieces_from_skip. Qed.

Lemma sub_from_hit r repl prev w s' cs p' :
  w ≠ [] ->
  Re.match_at ml false r prev (w ++ s') = Some (cs, p', s') ->
  Re.sub_from ml r repl prev (w ++ s') = repl cs ++ Re.sub_from ml r repl p' s'.
Proof. unfold Re.sub_from. intros Hw H. by rewrite (pieces_from_hit _ _ _ _ _ _ Hw H). Qed.

(** Where the pattern matches nowhere, the substitution changes nothing. *)
Lemma sub_from_no_match r repl : ∀ s prev,
  Re.no_match_from ml r prev s = true -> Re.sub_from ml r repl prev s = s.
Proof.
  induction s as [|c t IH]; intros prev H; simpl in H.
  - destruct (Re.match_at ml false r prev []) eqn:E; [done|]. by apply sub_from_nil.
  - destruct (Re.match_at ml false r prev (c :: t)) eqn:E; [done|].
    rewrite sub_from_skip by done. f_equal. by apply IH.
Qed.

Lemma sub_no_match r repl s :
  Re.no_match_from ml r None s = true -> Re.sub ml r repl s = s.
Proof. apply sub_from_no_match. Qed.

(** Substitution for a one-character pattern works character by
    character. *)
Lemma sub_from_chr cls new : ∀ s prev,
  Re.sub_from ml (Re.Chr cls) (fun _ => new) prev s
  = s ≫= (fun c => if cls c then new else [c]).
Proof.
  induction s as [|c t IH]; intros prev.
  - by apply sub_from_nil.
  - cbn [mbind list_bind]. destruct (cls c) eqn:E.
    + rewrite (sub_from_hit _ _ _ [c] t [] (Some c)); [by rewrite IH|done|].
      unfold Re.match_at. simpl. by rewrite E.
    + rewrite sub_from_skip; [by rewrite IH|]. unfold Re.match_at. simpl. by rewrite E.
Qed.

End ScanFacts.


Section RepFacts.

Variable ml : bool.

Lemma prev_after_cons prev c s : Re.prev_after prev (c :: s) = Re.prev_after (Some c) s.
Proof.
  unfold Re.prev_after. destruct s as [|d s]; [done|].
  rewrite last_cons_cons. destruct (last (d :: s)) eqn:E; [done|].
  by apply last_None in E.
Qed.

(** When what follows a repetition cannot start with a character of the
    repeated class, the repetition takes the whole run or fails: there is
    nothing to backtrack to. *)
Lemma rep_greedy_run cls k run : ∀ lo prev rest,
  forallb cls run = true ->
  (∀ p c t, cls c = true -> k p (c :: t) = None) ->
  ends_run cls rest ->
  Re.rep_greedy cls lo None prev (run ++ rest) k
  = if (lo <=? length run)%nat then k (Re.prev_after prev run) rest else None.
Proof.
  induction run as [|c run IH]; intros lo prev rest Hrun Hk Hrest.
  - simpl. destruct rest as [|d t]; simpl in *.
    + by destruct lo.
    + rewrite Hrest. by destruct lo.
  - simpl in Hrun. apply andb_prop in Hrun as [Hc Hrun].
    cbn [app Re.rep_greedy fmap option_fmap option_map]. rewrite Hc.
    rewrite IH by done. rewrite prev_after_cons.
    destruct lo as [|lo]; simpl.
    + destruct (k _ rest); [done|]. by apply Hk.
    + destruct (lo <=? length run)%nat; [|done]. by destruct (k _ rest).
Qed.

Lemma rep_lazy_run cls k run : ∀ lo prev rest,
  forallb cls run = true ->
  (∀ p c t, cls c = true -> k p (c :: t) = None) ->
  ends_run cls rest ->
  Re.rep_lazy cls lo None prev (run ++ rest) k
  = if (lo <=? length run)%nat then k (Re.prev_after prev run) rest else None.
Proof.
  induction run as [|c run IH]; intros lo prev rest Hrun Hk Hrest.
  - simpl. destruct rest as [|d t]; simpl in *.
    + destruct lo; [|done]. cbn. by destruct (k prev []).
    + rewrite Hrest. destruct lo; [|done]. cbn. by destruct (k prev (d :: t)).
  - simpl in Hrun. apply andb_prop in Hrun as [Hc Hrun].
    cbn [app Re.rep_lazy fmap option_fmap option_map]. rewrite Hc.
    rewrite IH by done. rewrite prev_after_cons.
    destruct lo as [|lo]; simpl; [|done].
    by rewrite (Hk prev c (run ++ rest) Hc).
Qed.

(** Every string splits into its longest run of a class and the rest. *)
Lemma take_drop_while cls s : Str.take_while cls s ++ Str.drop_while cls s = s.
Proof. induction s as [|c t IH]; simpl; [done|]. destruct (cls c); simpl; [by rewrite IH|done]. Qed.

Lemma take_while_all cls s : forallb cls (Str.take_while cls s) = true.
Proof. induction s as [|c t IH]; simpl; [done|]. destruct (cls c) eqn:E; simpl; [by rewrite E|done]. Qed.

Lemma drop_while_ends cls s : ends_run cls (Str.drop_while cls s).
Proof. induction s as [|c t IH]; simpl; [done|]. destruct (cls c) eqn:E; simpl; done. Qed.

End RepFacts.

(** * Filenames *)

Section Filenames.

Variable rt : runtime.
Hypothesis lower_ok : lower_on_ascii rt.

Lemma replace_char_from a b : ∀ s, Str.replace_from [a] [b] O s = (fun c => if c =? a then b else c) <$> s.
Proof.
  induction s as [|c t IH]; [done|]. simpl. rewrite N.eqb_sym.
  destruct (c =? a) eqn:E; simpl; by rewrite IH.
Qed.

(** The classes in numbers. *)
Lemma name_char_eq c :
  name_char c
  = (((97 <=? c) && (c <=? 122)) || ((65 <=? c) && (c <=? 90)))
    || (((48 <=? c) && (c <=? 57)) || ((c =? 45) || (c =? 95))).
Proof. reflexivity. Qed.

Lemma filename_char_eq c :
  filename_char c
  = ((97 <=? c) && (c <=? 122))
    || (((48 <=? c) && (c <=? 57)) || ((c =? 45) || (c =? 95))).
Proof. reflexivity. Qed.

Lemma safe_char_eq c :
  safe_char c = if c =? 47 then 45 else if name_char c then c else 95.
Proof. reflexivity. Qed.

Lemma name_char_ascii c : name_char c = true -> Str.is_ascii c = true.
Proof. rewrite name_char_eq. unfold Str.is_ascii. cmp_cases. Qed.

Lemma name_char_lower c :
  name_char c = true -> filename_char (Str.ascii_lower_char c) = true.
Proof.
  rewrite name_char_eq, filename_char_eq. unfold Str.ascii_lower_char.
  destruct (N.leb_spec 65 c), (N.leb_spec c 90); cbn [andb]; cmp_cases.
Qed.

Lemma safe_char_name c : name_char (safe_char c) = true.
Proof.
  unfold safe_char. destruct (c =? code "/"); [done|].
  destruct (name_char c) eqn:E; done.
Qed.

Lemma filename_char_fixed c :
  filename_char c = true -> Str.ascii_lower_char (safe_char c) = c.
Proof.
  rewrite filename_char_eq, safe_char_eq, name_char_eq. unfold Str.ascii_lower_char.
  intros H. destruct (N.eqb_spec c 47) as [->|_]; [done|].
  assert (Hn : (((97 <=? c) && (c <=? 122)) || ((65 <=? c) && (c <=? 90)))
               || (((48 <=? c) && (c <=? 57)) || ((c =? 45) || (c =? 95))) = true).
  { revert H. cmp_cases. }
  rewrite Hn. revert H. cmp_cases.
Qed.

(** The function, character by character. *)
Lemma sanitize_filename_chars x :
  sanitize_filename rt x = Str.ascii_lower (safe_char <$> x).
Proof.
  unfold sanitize_filename, Re.sub, Str.replace.
  rewrite sub_from_chr. change (py "/") with [code "/"]. change (py "-") with [code "-"].
  rewrite replace_char_from.
  assert (E : ∀ s : pystr,
    ((fun c => if c =? code "/" then code "-" else c) <$> s)
      ≫= (fun c => if Re.neg name_char c then py "_" else [c]) = safe_char <$> s).
  { induction s as [|c t IH]; [done|]. cbn [fmap list_fmap mbind list_bind]. rewrite IH.
    unfold safe_char at 2, Re.neg. destruct (c =? code "/"); [done|].
    by destruct (name_char c). }
  rewrite E. apply lower_ok.
  apply forallb_forall. intros c Hc. apply list_elem_of_In, list_elem_of_fmap in Hc as (d & -> & _).
  apply name_char_ascii, safe_char_name.
Qed.

Lemma sanitize_filename_class x : forallb filename_char (sanitize_filename rt x) = true.
Proof.
  rewrite sanitize_filename_chars. apply forallb_forall. intros c Hc.
  unfold Str.ascii_lower in Hc.
  apply list_elem_of_In, list_elem_of_fmap in Hc as (d & -> & Hd).
  apply list_elem_of_fmap in Hd as (e & -> & _).
  apply name_char_lower, safe_char_name.
Qed.

Lemma filename_pattern_matches s :
  forallb filename_char s = true -> Re.match_ false filename_pattern s = Some [].
Proof.
  intros H. unfold Re.match_, Re.match_at, filename_pattern, Re.star. cbn [Re.m Re.at_bol].
  rewrite <- (app_nil_r s) at 1.
  rewrite rep_greedy_run; [done|done| |done].
  intros p c t Hc. cbn [Re.m Re.at_eol].
  replace (c =? 10) with false; [done|].
  symmetry. apply N.eqb_neq. intros ->. done.
Qed.

(** C3: [sanitize_filename] is idempotent, its output matches
    [^[a-z0-9\-_]*$], and it is what the three steps of the specification
    produce: [/] becomes [-], every other character outside
    [[A-Za-z0-9\-_]] becomes [_], and the result is lowercased. *)
Theorem sanitize_filename_idempotent x :
  sanitize_filename rt (sanitize_filename rt x) = sanitize_filename rt x
  ∧ is_Some (Re.match_ false filename_pattern (sanitize_filename rt x))
  ∧ sanitize_filename rt x = Str.ascii_lower (safe_char <$> x).
Proof.
  split; [|split].
  - pose proof (sanitize_filename_class x) as H.
    rewrite (sanitize_filename_chars (sanitize_filename rt x)).
    induction (sanitize_filename rt x) as [|c t IH]; [done|].
    simpl in H. apply andb_prop in H as [Hc Ht]. cbn [fmap list_fmap Str.ascii_lower].
    rewrite filename_char_fixed by done. f_equal. by apply IH.
  - rewrite filename_pattern_matches; [done|]. apply sanitize_filename_class.
  - apply sanitize_filename_chars.
Qed.

End Filenames.

Lemma sample_lower_on_ascii : lower_on_ascii sample_runtime.
Proof. intros s _. reflexivity. Defined.

Lemma sanitize_filename_idempotent_witness :
  lower_on_ascii sample_runtime
  ∧ sanitize_filename sample_runtime (py "Trip/Day 1") = py "trip-day_1"
  ∧ sanitize_filename sample_runtime (sanitize_filename sample_runtime (py "Trip/Day 1"))
    = sanitize_filename sample_runtime (py "Trip/Day 1").
Proof.
  split; [exact sample_lower_on_ascii|]. split; [reflexivity|].
  exact (proj1 (sanitize_filename_idempotent sample_runtime sample_lower_on_ascii (py "Trip/Day 1"))).
Defined.


(** * Links *)

Section PrevFacts.

Variable ml : bool.




Lemma rep_lazy_max cls k lo prev s :
  (∀ p c t, cls c = true -> k p (c :: t) = None) ->
  Re.rep_lazy cls lo None prev s k
  = if (lo <=? length (Str.take_while cls s))%nat
    then k (Re.prev_after prev (Str.take_while cls s)) (Str.drop_while cls s)
    else None.
Proof.
  intros Hk. rewrite <- (take_drop_while cls s) at 1.
  apply rep_lazy_run; [apply take_while_all|done|apply drop_while_ends].
Qed.



End PrevFacts.

Section Links.

Variable rt : runtime.











End Links.



(** * Properties *)

Section Properties.

Variable rt : runtime.






End Properties.


(** * The syntax normalizer *)

Section Normalizer.

Variable rt : runtime.

Lemma split_cons sep s : ∃ l ls, Str.split sep s = l :: ls.
Proof.
  induction s as [|c t (l & ls & IH)]; simpl; [eauto|].
  destruct (c =? sep); [eauto|]. rewrite IH. eauto.
Qed.

(** Splitting at the newlines and joining again gives the text back. *)
Lemma join_split s : Str.join nl (Str.split 10 s) = s.
Proof.
  induction s as [|c t IH]; [done|]. cbn [Str.split].
  destruct (split_cons 10 t) as (l & ls & E). rewrite E in *.
  destruct (N.eqb_spec c 10) as [->|_].
  - change (Str.join nl ([] :: l :: ls)) with ([] ++ nl ++ Str.join nl (l :: ls)).
    by rewrite IH.
  - destruct ls as [|x ls].
    + cbn [Str.join] in *. by rewrite IH.
    + change (Str.join nl ((c :: l) :: x :: ls))
        with (c :: (l ++ nl ++ Str.join nl (x :: ls))).
      change (Str.join nl (l :: x :: ls)) with (l ++ nl ++ Str.join nl (x :: ls)) in IH.
      by rewrite IH.
Qed.

(** A markup line is no property line, and is kept as it is. *)
Lemma markup_line_step out line :
  markup_line line = true -> fp_step rt (out, []) line = (out ++ [line], []).
Proof.
  unfold markup_line, fp_step, property_match. intros H.
  destruct (Str.strip line) as [|c t] eqn:E; [done|].
  cbn [Str.startswith] in H. change (py "<") with [60] in H. cbn [Str.startswith] in H.
  rewrite andb_true_r in H. apply N.eqb_eq in H. subst c.
  replace (Re.match_ false property_pattern (60 :: t)) with (@None Re.caps) by done.
  cbn [fp_flush fst snd Str.truthy]. change (py "<") with [60]. cbn [Str.startswith].
  done.
Qed.

Lemma markup_lines_kept : ∀ lines out,
  forallb markup_line lines = true ->
  foldl (fp_step rt) (out, []) lines = (out ++ lines, []).
Proof.
  induction lines as [|line lines IH]; intros out H.
  - simpl. by rewrite app_nil_r.
  - simpl in H. apply andb_prop in H as [Hl Hls]. cbn [foldl].
    rewrite markup_line_step by done. rewrite IH by done. by rewrite <- app_assoc.
Qed.

Lemma format_properties_markup s :
  forallb markup_line (Str.split 10 s) = true -> format_properties rt s = s.
Proof.
  intros H. unfold format_properties, format_lines.
  rewrite markup_lines_kept by done. cbn. apply join_split.
Qed.

(** C8, as amended: text in normal form is a fixed point of the
    normalizer. *)
Theorem preprocess_markdown_normalized s :
  normalized s = true -> preprocess_markdown rt s = s.
Proof.
  unfold normalized, unmatched. intros H.
  repeat (apply andb_prop in H as [H ?]).
  cbn [forallb] in *.
  repeat match goal with
         | H : _ && _ = true |- _ => apply andb_prop in H as [? ?]
         end.
  unfold preprocess_markdown. rewrite H. cbn [negb].
  rewrite (sub_no_match false tag_pattern _ s) by done.
  rewrite (sub_no_match false block_ref_pattern _ s) by done.
  rewrite (sub_no_match true (task_pattern "DONE ") _ s) by done.
  rewrite (sub_no_match true (task_pattern "DOING ") _ s) by done.
  rewrite (sub_no_match true (task_pattern "TODO ") _ s) by done.
  rewrite (sub_no_match true (task_pattern "NOW ") _ s) by done.
  rewrite (sub_no_match true (task_pattern "LATER ") _ s) by done.
  rewrite format_properties_markup by done.
  unfold clean_logseq_metadata.
  rewrite (sub_no_match false id_pattern _ s) by done.
  rewrite (sub_no_match false uuid_pattern _ s) by done.
  by rewrite (sub_no_match false public_pattern _ s).
Qed.

End Normalizer.

Lemma preprocess_markdown_normalized_witness :
  normalized (py "<p>- [ ] water the plants</p>") = true
  ∧ preprocess_markdown sample_runtime (py "<p>- [ ] water the plants</p>")
    = py "<p>- [ ] water the plants</p>".
Proof.
  split; [reflexivity|].
  apply (preprocess_markdown_normalized sample_runtime). reflexivity.
Defined.

(** C8, as stated, fails: running the normalizer on its own output for
    the property example of the specification drops the empty line
    behind the grouped block, and a block reference that shows only after
    an inner one is removed goes in the second run. *)
Lemma preprocess_markdown_not_idempotent :
  ¬ (∀ rt s, preprocess_markdown rt (preprocess_markdown rt s) = preprocess_markdown rt s).
Proof.
  intros H.
  specialize (H sample_runtime (py "((a((ab))b))")).
  vm_compute in H. discriminate H.
Qed.

Lemma preprocess_markdown_second_run :
  preprocess_markdown sample_runtime (py "((a((ab))b))") = py "<p>((ab))</p>"
  ∧ preprocess_markdown sample_runtime (py "<p>((ab))</p>") = py "<p></p>"
  ∧ preprocess_markdown sample_runtime (py "a:: 1" ++ nl ++ py "Some text")
    = property_section sample_runtime [(py "a", py "1")] ++ nl ++ py "<p>Some text</p>"
  ∧ preprocess_markdown sample_runtime
      (property_section sample_runtime [(py "a", py "1")] ++ nl ++ py "<p>Some text</p>")
    = property_section sample_runtime [(py "a", py "1")] ++ py "<p>Some text</p>".
Proof. repeat split; vm_compute; reflexivity. Qed.


(** * The block renderers *)

Section Renderers.

Variable rt : runtime.
Variable public_pages : list (list N * page_info).

(** Reading a literal: it must be a prefix of the subject. *)
Lemma m_lit ml l : ∀ prev s cs k,
  Re.m ml (Re.lit l) prev s cs k
  = if Str.startswith l s then k (Re.prev_after prev l) (drop (length l) s) cs else None.
Proof.
  induction l as [|a l IH]; intros prev s cs k; [done|].
  assert (Hone : ∀ k', Re.m ml (Re.Chr (Re.ch a)) prev s cs k'
                 = match s with
                   | c :: t => if a =? c then k' (Some c) t cs else None
                   | [] => None
                   end).
  { intros k'. cbn [Re.m]. destruct s as [|c t]; [done|]. unfold Re.ch. by rewrite N.eqb_sym. }
  destruct l as [|b l].
  - change (Re.lit [a]) with (Re.Chr (Re.ch a)). etrans; [apply Hone|]. destruct s as [|c t]; [done|]. cbn [Str.startswith].
    rewrite andb_true_r. destruct (N.eqb_spec a c) as [->|]; [|done]. done.
  - change (Re.lit (a :: b :: l)) with (Re.Cat (Re.Chr (Re.ch a)) (Re.lit (b :: l))).
    cbn [Re.m]. destruct s as [|c t]; [done|]. unfold Re.ch. rewrite (N.eqb_sym c a).
    change (Str.startswith (a :: b :: l) (c :: t))
      with ((a =? c) && Str.startswith (b :: l) t).
    destruct (N.eqb_spec a c) as [->|]; [|done].
    rewrite IH, (prev_after_cons prev c (b :: l)). done.
Qed.

(** Without [re.MULTILINE] a pattern that starts with [^] matches at
    the start of the text only. *)
Lemma sub_from_bol_inside r repl : ∀ s c,
  Re.sub_from false (Re.Bol ⋅ r)%re repl (Some c) s = s.
Proof.
  induction s as [|d s IH]; intros c.
  - by apply sub_from_nil.
  - rewrite sub_from_skip by done. f_equal. apply IH.
Qed.

Lemma task_sub_unmarked marker repl s :
  Str.startswith (py marker) s = false ->
  Re.sub false (task_pattern marker) repl s = s.
Proof.
  intros H. unfold Re.sub, task_pattern.
  assert (Hm : Re.match_at false false (Re.Bol ⋅ Re.lit (py marker))%re None s = None).
  { unfold Re.match_at. cbn [Re.m Re.at_bol]. by rewrite m_lit, H. }
  destruct s as [|c t].
  - by apply sub_from_nil.
  - rewrite sub_from_skip by done. f_equal. apply sub_from_bol_inside.
Qed.

(** C6: [process_block] rewrites a task marker at the start of the
    content only.  A text that does not start with a marker goes through
    its task-marker step unchanged, whatever its later lines start with:
    [TODO b] on the second line of a block is rendered as it stands, where
    [preprocess_markdown] writes the checkbox. *)
Theorem block_task_markers_first_line_only :
  (∀ content,
     forallb (fun marker => negb (Str.startswith (py marker) content))
       ["DONE "; "DOING "; "TODO "; "NOW "; "LATER "]%string = true ->
     block_task_markers content = content)
  ∧ process_block rt public_pages (Node None (Some (py "a" ++ nl ++ py "TODO b")) None true)
    = Ok (py "<div class='block'><p>a</p>" ++ nl ++ py "<p>TODO b</p></div>")
  ∧ process_block rt public_pages (Node None (Some (py "TODO b")) None true)
    = Ok (py "<div class='block'><p>" ++ glyph_todo ++ py "b</p></div>")
  ∧ preprocess_markdown rt (py "a" ++ nl ++ py "TODO b")
    = py "<p>a</p>" ++ nl ++ py "<p>- [ ] b</p>".
Proof.
  split; [|split; [|split]].
  - intros content H. cbn [forallb] in H.
    repeat (apply andb_prop in H as [?%negb_true_iff H]).
    unfold block_task_markers.
    rewrite (task_sub_unmarked "DONE " _ content) by done.
    rewrite (task_sub_unmarked "DOING " _ content) by done.
    rewrite (task_sub_unmarked "TODO " _ content) by done.
    rewrite (task_sub_unmarked "NOW " _ content) by done.
    by rewrite (task_sub_unmarked "LATER " _ content).
  - vm_compute. reflexivity.
  - vm_compute. reflexivity.
  - vm_compute. reflexivity.
Qed.

(** C10: [process_block] gives the empty string for a block whose text
    is empty or white space, children or not.  [block_tree_to_html]
    gives it only when the block has no children either; with children it
    renders them below the empty text. *)
Theorem empty_text_block :
  (∀ uuid content children other,
     Str.strip (default [] content) = [] ->
     process_block rt public_pages (Node uuid content children other) = Ok [])
  ∧ (∀ uuid content other title indent,
       Str.strip (default [] content) = [] ->
       block_tree_to_html rt (Node uuid content None other) title public_pages indent = Ok []
       ∧ block_tree_to_html rt (Node uuid content (Some []) other) title public_pages indent
         = Ok [])
  ∧ (∀ uuid content child rest other title indent,
       Str.strip (default [] content) = [] ->
       block_tree_to_html rt (Node uuid content (Some (child :: rest)) other) title
         public_pages indent
       = parts ← mapM_if (fun child => negb (block_falsy child))
                   (fun child => block_tree_to_html rt child title public_pages (S indent))
                   (child :: rest);
         Ok (tree_item indent (tree_children [] parts)))
  ∧ process_block rt public_pages
      (Node None (Some (py "  ")) (Some [Node None (Some (py "kid")) None true]) true)
    = Ok []
  ∧ block_tree_to_html rt
      (Node None (Some (py "  ")) (Some [Node None (Some (py "kid")) None true]) true)
      (py "T") public_pages 0
    = Ok (nl ++ py "<ul>" ++ nl
          ++ (py "<li>" ++ markdown rt (py "<p>kid</p>") ++ py "</li>")
          ++ nl ++ py "</ul>").
Proof.
  split; [|split; [|split; [|split]]].
  - intros uuid content children other H. cbn [process_block].
    destruct (block_falsy _); [done|]. by rewrite H.
  - intros uuid content other title indent H. split; cbn [block_tree_to_html];
      (destruct (block_falsy _); [done|]); by rewrite H.
  - intros uuid content child rest other title indent H. cbn [block_tree_to_html].
    replace (block_falsy (Node uuid content (Some (child :: rest)) other)) with false
      by (by destruct uuid, content, other).
    rewrite H. cbn [Str.truthy negb has_children andb].
    replace (tree_content rt public_pages []) with (Ok (@nil N)) by done.
    done.
  - vm_compute. reflexivity.
  - vm_compute. reflexivity.
Qed.

End Renderers.

Lemma block_task_markers_first_line_only_witness :
  forallb (fun marker => negb (Str.startswith (py marker) (py "a" ++ nl ++ py "TODO b")))
    ["DONE "; "DOING "; "TODO "; "NOW "; "LATER "]%string = true
  ∧ block_task_markers (py "a" ++ nl ++ py "TODO b") = py "a" ++ nl ++ py "TODO b".
Proof.
  split; [reflexivity|].
  apply (proj1 (block_task_markers_first_line_only sample_runtime [])). reflexivity.
Defined.

Lemma empty_text_block_witness :
  Str.strip (default [] (Some (py " "))) = []
  ∧ process_block sample_runtime [] (Node None (Some (py " "))
      (Some [Node None (Some (py "kid")) None true]) true) = Ok [].
Proof.
  split; [reflexivity|].
  apply (proj1 (empty_text_block sample_runtime [])). reflexivity.
Defined.


(** * Assets *)

Section Assets.

Variable rt : runtime.

Lemma exact_match_none location : ∀ names,
  (∀ variant, variant ∈ names -> path_exists rt (Path.join location variant) = false) ->
  exact_match rt location names = None.
Proof.
  induction names as [|v vs IH]; intros H; [done|]. cbn [exact_match].
  rewrite (H v) by apply list_elem_of_here. apply IH. intros w Hw. apply H. by apply list_elem_of_further.
Qed.

(** An exact match is the first spelling that exists in the directory. *)
Lemma exact_match_some location : ∀ names variant,
  variant ∈ names -> path_exists rt (Path.join location variant) = true ->
  ∃ first, first ∈ names ∧ path_exists rt (Path.join location first) = true
           ∧ exact_match rt location names = Some (Path.join location first).
Proof.
  induction names as [|v vs IH]; intros variant Hin Hex.
  - by apply elem_of_nil in Hin.
  - cbn [exact_match]. destruct (path_exists rt (Path.join location v)) eqn:E.
    + exists v. split; [apply list_elem_of_here|done].
    + apply elem_of_cons in Hin as [->|Hin]; [congruence|].
      destruct (IH variant Hin Hex) as (f & Hf & Hfe & Hm).
      exists f. split; [by apply list_elem_of_further|done].
Qed.

Lemma partial_match_none location bases : ∀ files,
  (∀ file base, file ∈ files -> base ∈ bases ->
     Str.contains (lower rt base) (lower rt file) = false) ->
  partial_match rt location bases files = None.
Proof.
  induction files as [|f fs IH]; intros H; [done|]. cbn [partial_match].
  replace (partial_hit rt bases f) with false.
  - apply IH. intros file base Hf Hb. apply H; [by apply list_elem_of_further|done].
  - symmetry. unfold partial_hit. apply not_true_is_false. intros Hex.
    apply existsb_exists in Hex as (b & Hb & Hc).
    rewrite (H f b) in Hc; [done|apply list_elem_of_here|by apply list_elem_of_In].
Qed.

(** A directory that holds nothing for the name is passed over: one
    that does not exist, or one that can be listed and holds neither a
    spelling of the name nor a listed file with a spelling of the base
    name. *)
Lemma search_locations_skip filename location rest :
  (path_exists rt (expanduser rt location) = true ->
   (∀ variant, variant ∈ variations filename ->
      path_exists rt (Path.join (expanduser rt location) variant) = false)
   ∧ ∃ files, listdir rt (expanduser rt location) = Some files
       ∧ ∀ file base, file ∈ files -> base ∈ base_variations filename ->
           Str.contains (lower rt base) (lower rt file) = false) ->
  search_locations rt filename (location :: rest) = search_locations rt filename rest.
Proof.
  intros H. cbn [search_locations].
  destruct (path_exists rt (expanduser rt location)); [|done].
  destruct (H eq_refl) as (Hex & files & Hls & Hpart).
  rewrite exact_match_none by done. rewrite Hls.
  by rewrite partial_match_none.
Qed.

Lemma search_locations_skip_all filename : ∀ pre rest,
  (∀ location, location ∈ pre ->
     path_exists rt (expanduser rt location) = true ->
     (∀ variant, variant ∈ variations filename ->
        path_exists rt (Path.join (expanduser rt location) variant) = false)
     ∧ ∃ files, listdir rt (expanduser rt location) = Some files
         ∧ ∀ file base, file ∈ files -> base ∈ base_variations filename ->
             Str.contains (lower rt base) (lower rt file) = false) ->
  search_locations rt filename (pre ++ rest) = search_locations rt filename rest.
Proof.
  induction pre as [|l pre IH]; intros rest H; [done|]. cbn [app].
  rewrite search_locations_skip by (apply H, list_elem_of_here).
  apply IH. intros loc Hloc. apply H. by apply list_elem_of_further.
Qed.

(** C4, as amended: the directories are tried in order, and inside one
    directory the listing is consulted only when none of the variations
    exists there.  Let every directory before [location] that exists be
    one that can be listed and that holds neither a variation of the
    name nor a listed file with a variation of the base name, and let
    [location] exist.  When a variation exists in [location], the result
    is the first variation that exists there, whatever the listing of
    [location] and the later directories hold.  When none exists in
    [location], its listing decides: if [location] cannot be listed,
    [find_asset] raises [OSError], whatever the later directories hold;
    otherwise the first listed file with a variation of the base name is
    the result, and without such a file the search goes on in the later
    directories. *)
Theorem find_asset_layers filename pre location rest :
  possible_locations rt = pre ++ location :: rest ->
  (∀ earlier, earlier ∈ pre ->
     path_exists rt (expanduser rt earlier) = true ->
     (∀ variant, variant ∈ variations filename ->
        path_exists rt (Path.join (expanduser rt earlier) variant) = false)
     ∧ ∃ files, listdir rt (expanduser rt earlier) = Some files
         ∧ ∀ file base, file ∈ files -> base ∈ base_variations filename ->
             Str.contains (lower rt base) (lower rt file) = false) ->
  path_exists rt (expanduser rt location) = true ->
  (∀ variant,
     variant ∈ variations filename ->
     path_exists rt (Path.join (expanduser rt location) variant) = true ->
     ∃ first,
       first ∈ variations filename
       ∧ path_exists rt (Path.join (expanduser rt location) first) = true
       ∧ exact_match rt (expanduser rt location) (variations filename)
         = Some (Path.join (expanduser rt location) first)
       ∧ find_asset rt filename = Ok (Some (Path.join (expanduser rt location) first)))
  ∧ ((∀ variant, variant ∈ variations filename ->
        path_exists rt (Path.join (expanduser rt location) variant) = false) ->
     (listdir rt (expanduser rt location) = None -> find_asset rt filename = Raise OSError)
     ∧ (∀ files, listdir rt (expanduser rt location) = Some files ->
          find_asset rt filename
          = match partial_match rt (expanduser rt location) (base_variations filename) files with
            | Some full_path => Ok (Some full_path)
            | None => search_locations rt filename rest
            end)).
Proof.
  intros Hlocs Hpre Hdir.
  assert (Hskip : find_asset rt filename = search_locations rt filename (location :: rest)).
  { unfold find_asset. rewrite Hlocs. apply search_locations_skip_all. exact Hpre. }
  split.
  - intros variant Hin Hex.
    destruct (exact_match_some (expanduser rt location) (variations filename) variant Hin Hex)
      as (first & Hf & Hfe & Hm).
    exists first. repeat split; [done..|].
    rewrite Hskip. cbn [search_locations]. by rewrite Hdir, Hm.
  - intros Hnone. rewrite Hskip. cbn [search_locations].
    rewrite Hdir, exact_match_none by done.
    split; [by intros ->|by intros files ->].
Qed.

End Assets.

Lemma find_asset_layers_witness :
  possible_locations notes_first_runtime
  = [LOGSEQ_ASSETS_PATH] ++ py "assets" :: skipn 2 (possible_locations notes_first_runtime)
  ∧ path_exists notes_first_runtime (expanduser notes_first_runtime LOGSEQ_ASSETS_PATH) = true
  ∧ listdir notes_first_runtime (expanduser notes_first_runtime LOGSEQ_ASSETS_PATH)
    = Some [py "notes.txt"]
  ∧ find_asset notes_first_runtime (py "photo.png") = Ok (Some (py "assets/photo.png"))
  ∧ path_exists configured_file_runtime (py "assets/photo.png") = true
  ∧ find_asset configured_file_runtime (py "photo.png") = Raise OSError.
Proof.
  assert (Hs : variations (py "photo.png") = [py "photo.png"]) by (vm_compute; reflexivity).
  assert (Hb : base_variations (py "photo.png") = [py "photo"]) by (vm_compute; reflexivity).
  split; [reflexivity|]. split; [reflexivity|]. split; [reflexivity|]. split; [|split; [reflexivity|]].
  - assert (Hearlier : ∀ earlier, earlier ∈ [LOGSEQ_ASSETS_PATH] ->
       path_exists notes_first_runtime (expanduser notes_first_runtime earlier) = true ->
       (∀ variant, variant ∈ variations (py "photo.png") ->
          path_exists notes_first_runtime
            (Path.join (expanduser notes_first_runtime earlier) variant) = false)
       ∧ ∃ files, listdir notes_first_runtime (expanduser notes_first_runtime earlier)
                  = Some files
           ∧ ∀ file base, file ∈ files -> base ∈ base_variations (py "photo.png") ->
               Str.contains (lower notes_first_runtime base) (lower notes_first_runtime file)
               = false).
    { intros earlier He _. apply list_elem_of_singleton in He as ->. split.
      - intros variant Hv. rewrite Hs in Hv. apply list_elem_of_singleton in Hv as ->.
        reflexivity.
      - exists [py "notes.txt"]. split; [reflexivity|].
        intros file base Hf Hbase. rewrite Hb in Hbase.
        apply list_elem_of_singleton in Hf as ->. apply list_elem_of_singleton in Hbase as ->.
        reflexivity. }
    destruct (proj1 (find_asset_layers notes_first_runtime (py "photo.png") [LOGSEQ_ASSETS_PATH]
                (py "assets") (skipn 2 (possible_locations notes_first_runtime))
                eq_refl Hearlier eq_refl) (py "photo.png"))
      as (first & Hf & _ & _ & Hr).
    + vm_compute. apply list_elem_of_here.
    + reflexivity.
    + rewrite Hr. f_equal. f_equal.
      rewrite Hs in Hf. apply list_elem_of_singleton in Hf as ->. reflexivity.
  - apply (proj2 (find_asset_layers configured_file_runtime (py "photo.png") []
              LOGSEQ_ASSETS_PATH (tail (possible_locations configured_file_runtime))
              eq_refl (fun earlier He _ => False_rect _ (proj1 (elem_of_nil earlier) He))
              eq_refl)).
    + intros variant Hv. rewrite Hs in Hv. apply list_elem_of_singleton in Hv as ->. reflexivity.
    + reflexivity.
Defined.

(** C4, as stated, fails: with [holiday-photo-big.png] in the configured
    directory and [photo.png] in the local [assets], a request for
    [photo.png] is answered from the listing of the first directory. *)
Lemma find_asset_partial_before_exact : ¬ exact_match_wins two_dir_runtime.
Proof.
  intros H.
  destruct (H (py "photo.png") (py "assets") (py "photo.png")) as (p & Hp & Hex).
  - vm_compute. apply list_elem_of_further, list_elem_of_here.
  - vm_compute. apply list_elem_of_here.
  - reflexivity.
  - reflexivity.
  - assert (Hfound : find_asset two_dir_runtime (py "photo.png")
                     = Ok (Some (Path.join LOGSEQ_ASSETS_PATH (py "holiday-photo-big.png"))))
      by (vm_compute; reflexivity).
    rewrite Hfound in Hp. inversion Hp as [Hp']. clear Hp. subst p.
    destruct Hex as (location & variant & Hl & Hv & Heq).
    assert (Hs : variations (py "photo.png") = [py "photo.png"]) by (vm_compute; reflexivity).
    rewrite Hs in Hv. apply list_elem_of_singleton in Hv as ->.
    unfold possible_locations in Hl. cbn [expanduser two_dir_runtime] in Hl, Heq.
    repeat (apply elem_of_cons in Hl as [->|Hl]; [vm_compute in Heq; discriminate Heq|]).
    by apply elem_of_nil in Hl.
Qed.


(** * The public page set *)

Section Strip.

Lemma lstrip_idem s : Str.lstrip (Str.lstrip s) = Str.lstrip s.
Proof.
  induction s as [|c t IH]; [done|]. simpl. destruct (Str.isspace c) eqn:E; [done|].
  simpl. by rewrite E.
Qed.

Lemma lstrip_snoc c : Str.isspace c = false ->
  ∀ u, ∃ v, Str.lstrip (u ++ [c]) = v ++ [c].
Proof.
  intros Hc. induction u as [|d u [v IH]]; simpl.
  - rewrite Hc. by exists [].
  - destruct (Str.isspace d); [eauto|]. by exists (d :: u).
Qed.

Lemma rstrip_idem s : Str.rstrip (Str.rstrip s) = Str.rstrip s.
Proof. unfold Str.rstrip. by rewrite rev_involutive, lstrip_idem. Qed.

Lemma lstrip_rstrip_lstrip s :
  Str.lstrip (Str.rstrip (Str.lstrip s)) = Str.rstrip (Str.lstrip s).
Proof.
  destruct (Str.lstrip s) as [|c t] eqn:E; [done|].
  assert (Hc : Str.isspace c = false).
  { clear -E. induction s as [|d s IH]; [done|]. simpl in E.
    destruct (Str.isspace d) eqn:Ed; [by apply IH|]. by inversion E; subst. }
  unfold Str.rstrip. cbn [rev]. destruct (lstrip_snoc c Hc (rev t)) as [v ->].
  rewrite rev_app_distr. simpl. by rewrite Hc.
Qed.

(** Trimming a trimmed string changes nothing. *)
Lemma strip_idem s : Str.strip (Str.strip s) = Str.strip s.
Proof. unfold Str.strip. by rewrite lstrip_rstrip_lstrip, rstrip_idem. Qed.

End Strip.

Section PublicPages.

Variable rt : runtime.

Lemma page_key_strip p : Str.strip (page_key p) = page_key p.
Proof. unfold page_key. apply strip_idem. Qed.

Lemma dict_set_keys {V} k (v : V) : ∀ d,
  dict_keys (dict_set k v d) = if bool_decide (k ∈ dict_keys d) then dict_keys d
                               else dict_keys d ++ [k].
Proof.
  induction d as [|[k' v'] d IH]; [done|]. cbn [dict_set]. unfold Str.eqb.
  destruct (decide (k = k')) as [->|Hne].
  - rewrite bool_decide_eq_true_2 by done. cbn.
    by rewrite bool_decide_eq_true_2 by apply list_elem_of_here.
  - rewrite bool_decide_eq_false_2 by done. cbn [dict_keys fmap list_fmap fst] in *.
    unfold dict_keys in IH. rewrite IH.
    destruct (decide (k ∈ d.*1)) as [Hin|Hout].
    + rewrite !bool_decide_eq_true_2; [done| by apply list_elem_of_further | done].
    + rewrite !bool_decide_eq_false_2; [done| |done].
      intros [?|?]%elem_of_cons; done.
Qed.

(** Keys stay unique and are never lost by an assignment. *)
Lemma dict_set_NoDup {V} k (v : V) d :
  NoDup (dict_keys d) -> NoDup (dict_keys (dict_set k v d)).
Proof.
  intros H. rewrite dict_set_keys. case_bool_decide as Hin; [done|].
  apply NoDup_app. split; [done|]. split; [|apply NoDup_singleton].
  intros x Hx ->%list_elem_of_singleton. done.
Qed.

Lemma dict_set_mono {V} k (v : V) d x :
  x ∈ dict_keys d -> x ∈ dict_keys (dict_set k v d).
Proof.
  intros H. rewrite dict_set_keys. case_bool_decide; [done|]. apply elem_of_app. by left.
Qed.

Lemma dict_set_member {V} k (v : V) d : k ∈ dict_keys (dict_set k v d).
Proof.
  rewrite dict_set_keys. case_bool_decide; [done|]. apply elem_of_app. right.
  apply list_elem_of_here.
Qed.

Lemma add_page_inv st p : pp_inv st -> pp_inv (add_page st p).
Proof.
  intros [Hnd Hsub]. unfold add_page. destruct (page_uuid p) as [u|]; [|done].
  destruct (_ && _ && _); [|done]. split; cbn [fst snd].
  - by apply dict_set_NoDup.
  - intros t [->%elem_of_singleton|Ht]%elem_of_union.
    + apply dict_set_member.
    + by apply dict_set_mono, Hsub.
Qed.

Lemma add_page_mono st p x :
  x ∈ dict_keys st.1 -> x ∈ dict_keys (add_page st p).1.
Proof.
  intros H. unfold add_page. destruct (page_uuid p) as [u|]; [|done].
  destruct (_ && _ && _); [|done]. by apply dict_set_mono.
Qed.

(** A page with an identifier and a title is a key once [add_page] ran
    on it. *)
Lemma add_page_member st p u :
  pp_inv st -> page_uuid p = Some u -> Str.truthy u = true ->
  Str.truthy (page_key p) = true ->
  page_key p ∈ dict_keys (add_page st p).1.
Proof.
  intros [_ Hsub] Hu Ht Hk. unfold add_page. rewrite Hu, Ht, Hk. cbn [andb].
  case_bool_decide as Hin; cbn [fst].
  - apply dict_set_member.
  - apply Hsub. destruct (decide (page_key p ∈ st.2)); done.
Qed.

Lemma add_pages_inv : ∀ qs st, pp_inv st -> pp_inv (foldl add_page st qs).
Proof. induction qs as [|q qs IH]; intros st H; [done|]. by apply IH, add_page_inv. Qed.

Lemma add_pages_mono x : ∀ qs st,
  x ∈ dict_keys st.1 -> x ∈ dict_keys (foldl add_page st qs).1.
Proof. induction qs as [|q qs IH]; intros st H; [done|]. by apply IH, add_page_mono. Qed.

Lemma add_pages_member q u : ∀ qs st,
  pp_inv st -> q ∈ qs -> page_uuid q = Some u -> Str.truthy u = true ->
  Str.truthy (page_key q) = true ->
  page_key q ∈ dict_keys (foldl add_page st qs).1.
Proof.
  induction qs as [|q' qs IH]; intros st Hinv Hin Hu Ht Hk.
  - by apply elem_of_nil in Hin.
  - cbn [foldl]. apply elem_of_cons in Hin as [->|Hin].
    + apply add_pages_mono. by eapply add_page_member.
    + apply IH; [by apply add_page_inv|done..].
Qed.

Lemma visit_page_inv st p : pp_inv st -> pp_inv (visit_page rt st p).
Proof.
  intros H. unfold visit_page. destruct (is_page_public p); [|done].
  destruct (is_public_children p); [|by apply add_page_inv].
  by apply add_pages_inv, add_page_inv.
Qed.

Lemma visit_page_mono st p x :
  x ∈ dict_keys st.1 -> x ∈ dict_keys (visit_page rt st p).1.
Proof.
  intros H. unfold visit_page. destruct (is_page_public p); [|done].
  destruct (is_public_children p); [|by apply add_page_mono].
  by apply add_pages_mono, add_page_mono.
Qed.

Lemma visit_pages_inv : ∀ ps st, pp_inv st -> pp_inv (foldl (visit_page rt) st ps).
Proof. induction ps as [|p ps IH]; intros st H; [done|]. by apply IH, visit_page_inv. Qed.

Lemma visit_pages_mono x : ∀ ps st,
  x ∈ dict_keys st.1 -> x ∈ dict_keys (foldl (visit_page rt) st ps).1.
Proof. induction ps as [|p ps IH]; intros st H; [done|]. by apply IH, visit_page_mono. Qed.

Lemma startswith_truthy pre s :
  Str.startswith (pre ++ py "/") s = true -> Str.truthy s = true.
Proof. destruct s; [|done]. by destruct pre. Qed.

(** Visiting a page marked [children] makes every page below it that
    has an identifier a key. *)
Lemma visit_children p q u pages st :
  all_pages rt = Some pages -> q ∈ pages ->
  get_page_property p (py "public") = JStr (py "children") ->
  Str.startswith (page_key p ++ py "/") (page_key q) = true ->
  page_uuid q = Some u -> Str.truthy u = true ->
  pp_inv st ->
  page_key q ∈ dict_keys (visit_page rt st p).1.
Proof.
  intros Hall Hq Hp Hpre Hu Ht Hinv. unfold visit_page, is_page_public, is_public_children.
  rewrite Hp. replace (Str.eqb (py "children") (py "children")) with true by done.
  rewrite orb_true_r.
  eapply add_pages_member; [by apply add_page_inv| |done..|by eapply startswith_truthy].
  unfold get_nested_pages. rewrite Hall. destruct pages as [|p0 pages]; [by apply elem_of_nil in Hq|].
  apply list_elem_of_In, filter_In. split; [by apply list_elem_of_In|].
  by rewrite page_key_strip.
Qed.

Lemma visit_pages_children pages p q u :
  all_pages rt = Some pages -> q ∈ pages ->
  get_page_property p (py "public") = JStr (py "children") ->
  Str.startswith (page_key p ++ py "/") (page_key q) = true ->
  page_uuid q = Some u -> Str.truthy u = true ->
  ∀ ps st, p ∈ ps -> pp_inv st ->
    page_key q ∈ dict_keys (foldl (visit_page rt) st ps).1.
Proof.
  intros Hall Hq Hprop Hpre Hu Ht.
  induction ps as [|p' ps IH]; intros st Hp Hinv; [by apply elem_of_nil in Hp|].
  cbn [foldl]. apply elem_of_cons in Hp as [->|Hp].
  - apply visit_pages_mono. by eapply visit_children.
  - apply IH; [done|by apply visit_page_inv].
Qed.

(** C2, as amended: no title is a key twice, and every page with an
    identifier whose trimmed title starts with the trimmed title of a
    page marked [children] followed by [/] is a member, marked public or
    not. *)
Theorem public_pages_descendants :
  NoDup (dict_keys (get_public_pages rt))
  ∧ ∀ pages p q u,
      all_pages rt = Some pages -> p ∈ pages -> q ∈ pages ->
      get_page_property p (py "public") = JStr (py "children") ->
      Str.startswith (page_key p ++ py "/") (page_key q) = true ->
      page_uuid q = Some u -> Str.truthy u = true ->
      page_key q ∈ dict_keys (get_public_pages rt).
Proof.
  assert (Hinit : pp_inv (([] : list (list N * page_info)), (∅ : gset (list N)))).
  { split; [apply NoDup_nil_2|]. intros t Ht. by apply elem_of_empty in Ht. }
  split.
  - unfold get_public_pages. destruct (all_pages rt) as [[|p0 pages]|]; try apply NoDup_nil_2.
    by apply visit_pages_inv.
  - intros pages p q u Hall Hp Hq Hprop Hpre Hu Ht. unfold get_public_pages. rewrite Hall.
    destruct pages as [|p0 pages]; [by apply elem_of_nil in Hp|].
    by eapply visit_pages_children.
Qed.

End PublicPages.

Lemma public_pages_descendants_witness :
  page_key (Page (Some (py "trip/day1")) None (Some (py "u-2")) None)
    ∈ dict_keys (get_public_pages (with_pages trip_pages)).
Proof.
  apply (proj2 (public_pages_descendants (with_pages trip_pages)) trip_pages
           (Page (Some (py "trip")) None (Some (py "u-1"))
              (Some [(py "public", JStr (py "children"))]))
           (Page (Some (py "trip/day1")) None (Some (py "u-2")) None) (py "u-2")).
  - reflexivity.
  - apply list_elem_of_here.
  - apply list_elem_of_further, list_elem_of_here.
  - reflexivity.
  - reflexivity.
  - reflexivity.
  - reflexivity.
Defined.

(** C2, as stated, fails: a page without an identifier below a page
    marked [children] is left out. *)
Lemma public_pages_skip_pages_without_uuid : ¬ descendants_included (with_pages trip_pages).
Proof.
  intros H.
  specialize (H trip_pages
                (Page (Some (py "trip")) None (Some (py "u-1"))
                   (Some [(py "public", JStr (py "children"))]))
                (Page (Some (py "trip/day2")) None None None)).
  assert (Hkeys : dict_keys (get_public_pages (with_pages trip_pages))
                  = [py "trip"; py "trip/day1"]) by (vm_compute; reflexivity).
  rewrite Hkeys in H.
  assert (Hin : page_key (Page (Some (py "trip/day2")) None None None)
                  ∈ [py "trip"; py "trip/day1"]).
  { apply H; [reflexivity| apply list_elem_of_here
              | do 2 apply list_elem_of_further; apply list_elem_of_here
              | reflexivity | reflexivity]. }
  apply elem_of_cons in Hin as [Hin|Hin]; [vm_compute in Hin; discriminate Hin|].
  apply list_elem_of_singleton in Hin. vm_compute in Hin. discriminate Hin.
Qed.



(** * Embeds *)

Section Embeds.

Variable rt : runtime.
Variable public_pages : list (list N * page_info).

(** C9: a call of [resolve_embeds_in_block] ends at once on every
    structure of blocks, shared, self-referencing or cyclic: one level
    of fuel is enough, whatever the children of the block are.  On a
    block whose identifier is in the visited set it returns the block
    with nothing changed.  On any other block it adds the identifier, if
    the block has one, to the visited set, and is then left by
    [NameError] at the call of [resolve_embeds], before it comes to the
    children: no block is ever processed twice, the visited set only
    grows, and a second call on the same block with the set the first
    one left returns at once when the block has an identifier. *)
Theorem resolve_embeds_bounded (h : gmap nat block_obj) a blk processed fuel :
  h !! a = Some blk ->
  ∃ how P',
    resolve_embeds_in_block rt (S fuel) a processed public_pages h = Some (how, (h, P'))
    ∧ default ∅ processed ⊆ P'
    ∧ (has_id blk = true -> default [] (b_uuid blk) ∈ default ∅ processed ->
       how = Returned ∧ P' = default ∅ processed)
    ∧ (¬ (has_id blk = true ∧ default [] (b_uuid blk) ∈ default ∅ processed) ->
       how = NameError
       ∧ P' = (if has_id blk then {[default [] (b_uuid blk)]} ∪ default ∅ processed
               else default ∅ processed))
    ∧ (has_id blk = true ->
       resolve_embeds_in_block rt (S fuel) a (Some P') public_pages h
       = Some (Returned, (h, P'))).
Proof.
  intros Hb. cbn [resolve_embeds_in_block]. rewrite Hb. cbn [mbind option_bind].
  change (Str.truthy (default [] (b_uuid blk))) with (has_id blk).
  destruct (has_id blk) eqn:Hid; cbn [andb].
  - case_bool_decide as Hin.
    + exists Returned, (default ∅ processed). split; [done|]. split; [done|].
      split; [done|]. split; [by intros []|]. intros _. cbn [default].
      by rewrite bool_decide_eq_true_2.
    + unfold resolve_embeds.
      exists NameError, ({[default [] (b_uuid blk)]} ∪ default ∅ processed).
      split; [done|]. split; [set_solver|]. split; [done|]. split; [done|].
      intros _. cbn [default]. rewrite bool_decide_eq_true_2; [done|set_solver].
  - unfold resolve_embeds. exists NameError, (default ∅ processed).
    split; [done|]. split; [done|]. split; [done|]. split; [done|]. done.
Qed.

End Embeds.

Lemma resolve_embeds_bounded_witness :
  ({[ 0%nat := self_child_with_uuid ]} : gmap nat block_obj) !! 0%nat
  = Some self_child_with_uuid
  ∧ resolve_embeds_in_block sample_runtime 1 0 None []
      ({[ 0%nat := self_child_with_uuid ]} : gmap nat block_obj)
    = Some (NameError, ({[ 0%nat := self_child_with_uuid ]}, {[ py "6f1a" ]} ∪ ∅))
  ∧ resolve_embeds_in_block sample_runtime 1 0 (Some ({[ py "6f1a" ]} ∪ ∅)) []
      ({[ 0%nat := self_child_with_uuid ]} : gmap nat block_obj)
    = Some (Returned, ({[ 0%nat := self_child_with_uuid ]}, {[ py "6f1a" ]} ∪ ∅))
  ∧ resolve_embeds_in_block sample_runtime 1 0 None []
      ({[ 0%nat := self_child ]} : gmap nat block_obj)
    = Some (NameError, ({[ 0%nat := self_child ]}, ∅)).
Proof.
  split; [apply lookup_singleton_eq|].
  destruct (resolve_embeds_bounded sample_runtime []
              ({[ 0%nat := self_child_with_uuid ]} : gmap nat block_obj) 0%nat
              self_child_with_uuid None 0%nat (lookup_singleton_eq _ _))
    as (how & P' & Hrun & _ & _ & Hnew & Hagain).
  destruct Hnew as [-> ->]; [intros [_ Hin]; by apply not_elem_of_empty in Hin|].
  split; [exact Hrun|]. split; [exact (Hagain eq_refl)|].
  destruct (resolve_embeds_bounded sample_runtime []
              ({[ 0%nat := self_child ]} : gmap nat block_obj) 0%nat
              self_child None 0%nat (lookup_singleton_eq _ _))
    as (how & P' & Hrun' & _ & _ & Hnew & _).
  destruct Hnew as [-> ->]; [intros [Hid _]; discriminate Hid|].
  exact Hrun'.
Defined.


(** * The public page set: what its entries are *)

Section PublicEntries.

Variable rt : runtime.

Lemma dict_set_entries {V} k (v : V) : ∀ d x,
  x ∈ dict_set k v d -> x = (k, v) ∨ x ∈ d.
Proof.
  induction d as [|[k' v'] d IH]; intros x Hx; cbn [dict_set] in Hx.
  - apply list_elem_of_singleton in Hx. by left.
  - destruct (Str.eqb k k') eqn:E.
    + apply bool_decide_eq_true in E as <-.
      apply elem_of_cons in Hx as [->|Hx]; [by left|]. right. by apply list_elem_of_further.
    + apply elem_of_cons in Hx as [->|Hx]; [right; apply list_elem_of_here|].
      destruct (IH x Hx) as [->|H]; [by left|]. right. by apply list_elem_of_further.
Qed.

Lemma get_nested_pages_spec pages name q :
  all_pages rt = Some pages ->
  q ∈ get_nested_pages rt name ->
  q ∈ pages ∧ Str.startswith (Str.strip name ++ py "/") (page_key q) = true.
Proof.
  intros Hall. unfold get_nested_pages. rewrite Hall.
  destruct pages as [|p0 pages]; [by intros ?%elem_of_nil|].
  intros Hq%list_elem_of_In%filter_In. destruct Hq as [Hq Hs]. split; [by apply list_elem_of_In|done].
Qed.

Lemma add_page_entries (Q : pystr * page_info -> Prop) st p :
  (∀ x, x ∈ st.1 -> Q x) ->
  (∀ u, page_uuid p = Some u -> Str.truthy u = true -> Str.truthy (page_key p) = true ->
     Q (page_key p, PageInfo u (page_key p) (is_public_children p))) ->
  ∀ x, x ∈ (add_page st p).1 -> Q x.
Proof.
  intros Hst Hp x. unfold add_page. destruct (page_uuid p) as [u|]; [|by apply Hst].
  destruct (Str.truthy u) eqn:Eu; [|by apply Hst].
  destruct (Str.truthy (page_key p)) eqn:Ek; [|by apply Hst].
  cbn [andb]. case_bool_decide; [|by apply Hst]. cbn [fst].
  intros [->|Hx]%dict_set_entries; [by apply Hp|by apply Hst].
Qed.

Lemma add_pages_entries (Q : pystr * page_info -> Prop) : ∀ qs st,
  (∀ x, x ∈ st.1 -> Q x) ->
  (∀ q u, q ∈ qs -> page_uuid q = Some u -> Str.truthy u = true ->
     Str.truthy (page_key q) = true ->
     Q (page_key q, PageInfo u (page_key q) (is_public_children q))) ->
  ∀ x, x ∈ (foldl add_page st qs).1 -> Q x.
Proof.
  induction qs as [|q qs IH]; intros st Hst Hq; [done|]. cbn [foldl]. apply IH.
  - apply add_page_entries; [done|]. intros u. apply Hq, list_elem_of_here.
  - intros q' u Hin. apply Hq. by apply list_elem_of_further.
Qed.

(** What every entry of the loop's mapping is, for a run over pages of
    the graph. *)
Lemma visit_pages_entries pages (Q : pystr * page_info -> Prop) :
  all_pages rt = Some pages ->
  (∀ q u, q ∈ pages -> page_uuid q = Some u -> Str.truthy u = true ->
     Str.truthy (page_key q) = true ->
     (is_page_public q = true
      ∨ ∃ p, p ∈ pages ∧ is_public_children p = true
             ∧ Str.startswith (page_key p ++ py "/") (page_key q) = true) ->
     Q (page_key q, PageInfo u (page_key q) (is_public_children q))) ->
  ∀ ps st, (∀ p, p ∈ ps -> p ∈ pages) -> (∀ x, x ∈ st.1 -> Q x) ->
    ∀ x, x ∈ (foldl (visit_page rt) st ps).1 -> Q x.
Proof.
  intros Hall HQ. induction ps as [|p ps IH]; intros st Hps Hst; [done|].
  cbn [foldl]. apply IH; [intros p' Hp'; by apply Hps, list_elem_of_further|].
  assert (Hp : p ∈ pages) by apply Hps, list_elem_of_here.
  unfold visit_page. destruct (is_page_public p) eqn:Epub; [|done].
  assert (Hadd : ∀ x, x ∈ (add_page st p).1 -> Q x).
  { apply add_page_entries; [done|]. intros u Hu Ht Hk. apply HQ; try done. by left. }
  destruct (is_public_children p) eqn:Ech; [|done].
  apply add_pages_entries; [done|].
  intros q u [Hq Hpre]%(get_nested_pages_spec pages) Hu Ht Hk; [|done].
  rewrite page_key_strip in Hpre.
  apply HQ; try done. right. by exists p.
Qed.

(** X1: every entry of the public page set is the record of a page of the
    graph that has an identifier and a title, filed under its trimmed
    title; the page is marked public itself, or it lies below a page
    marked [children]. *)
Theorem public_pages_entries pages title info :
  all_pages rt = Some pages ->
  (title, info) ∈ get_public_pages rt ->
  info_title info = title ∧ Str.truthy title = true ∧ Str.strip title = title
  ∧ Str.truthy (info_uuid info) = true
  ∧ ∃ q, q ∈ pages ∧ page_key q = title ∧ page_uuid q = Some (info_uuid info)
       ∧ has_public_children info = is_public_children q
       ∧ (is_page_public q = true
          ∨ ∃ p, p ∈ pages ∧ is_public_children p = true
                 ∧ Str.startswith (page_key p ++ py "/") title = true).
Proof.
  intros Hall Hin. unfold get_public_pages in Hin. rewrite Hall in Hin.
  destruct pages as [|p0 pages]; [by apply elem_of_nil in Hin|].
  revert Hin.
  apply (visit_pages_entries (p0 :: pages)
           (fun x => info_title x.2 = x.1 ∧ Str.truthy x.1 = true ∧ Str.strip x.1 = x.1
              ∧ Str.truthy (info_uuid x.2) = true
              ∧ ∃ q, q ∈ p0 :: pages ∧ page_key q = x.1 ∧ page_uuid q = Some (info_uuid x.2)
                  ∧ has_public_children x.2 = is_public_children q
                  ∧ (is_page_public q = true
                     ∨ ∃ p, p ∈ p0 :: pages ∧ is_public_children p = true
                            ∧ Str.startswith (page_key p ++ py "/") x.1 = true)) Hall).
  - intros q u Hq Hu Ht Hk Hwhy. cbn [fst snd info_title info_uuid has_public_children].
    split; [done|]. split; [done|]. split; [apply page_key_strip|]. split; [done|].
    by exists q.
  - done.
  - intros x Hx. by apply elem_of_nil in Hx.
Qed.

(** X2: a page marked public ([True], ["true"] or ["children"]) that has an
    identifier and a title is a key of the public page set. *)
Theorem public_pages_complete pages q u :
  all_pages rt = Some pages -> q ∈ pages ->
  is_page_public q = true ->
  page_uuid q = Some u -> Str.truthy u = true -> Str.truthy (page_key q) = true ->
  page_key q ∈ dict_keys (get_public_pages rt).
Proof.
  intros Hall Hq Hpub Hu Ht Hk. unfold get_public_pages. rewrite Hall.
  destruct pages as [|p0 pages]; [by apply elem_of_nil in Hq|].
  assert (Hgen : ∀ ps st, q ∈ ps -> pp_inv st ->
            page_key q ∈ dict_keys (foldl (visit_page rt) st ps).1).
  { induction ps as [|p ps IH]; intros st Hin Hinv; [by apply elem_of_nil in Hin|].
    cbn [foldl]. apply elem_of_cons in Hin as [<-|Hin].
    - apply visit_pages_mono. unfold visit_page. rewrite Hpub.
      destruct (is_public_children q).
      + apply add_pages_mono. by eapply add_page_member.
      + by eapply add_page_member.
    - apply IH; [done|by apply visit_page_inv]. }
  apply Hgen; [done|]. split; [apply NoDup_nil_2|]. intros t Ht'. by apply elem_of_empty in Ht'.
Qed.

End PublicEntries.

Lemma public_pages_entries_witness :
  all_pages (with_pages trip_pages) = Some trip_pages
  ∧ (py "trip/day1", PageInfo (py "u-2") (py "trip/day1") false)
      ∈ get_public_pages (with_pages trip_pages)
  ∧ info_title (PageInfo (py "u-2") (py "trip/day1") false) = py "trip/day1".
Proof.
  assert (Hin : (py "trip/day1", PageInfo (py "u-2") (py "trip/day1") false)
                  ∈ get_public_pages (with_pages trip_pages)).
  { vm_compute. apply list_elem_of_further, list_elem_of_here. }
  split; [reflexivity|]. split; [exact Hin|].
  exact (proj1 (public_pages_entries (with_pages trip_pages) trip_pages _ _ eq_refl Hin)).
Defined.

Lemma public_pages_complete_witness :
  page_key (Page (Some (py "trip")) None (Some (py "u-1"))
              (Some [(py "public", JStr (py "children"))]))
    ∈ dict_keys (get_public_pages (with_pages trip_pages)).
Proof.
  apply (public_pages_complete (with_pages trip_pages) trip_pages _ (py "u-1"));
    [reflexivity|apply list_elem_of_here|reflexivity..].
Defined.


(** * Filenames: titles that share a file *)

Section FilenameClashes.

Variable rt : runtime.
Hypothesis lower_ok : lower_on_ascii rt.

Lemma safe_char_slash c :
  safe_char (if c =? code "/" then code "-" else c) = safe_char c.
Proof. change (code "/") with 47. by destruct (N.eqb_spec c 47) as [->|]. Qed.

Lemma safe_char_fold c :
  Str.ascii_lower_char (safe_char (Str.ascii_lower_char c)) = Str.ascii_lower_char (safe_char c).
Proof.
  unfold Str.ascii_lower_char at 2.
  destruct ((65 <=? c) && (c <=? 90)) eqn:E; [|done].
  apply andb_prop in E as [Hlo%N.leb_le Hhi%N.leb_le].
  assert (Hup : safe_char c = c).
  { rewrite safe_char_eq, name_char_eq. cmp_cases. }
  assert (Hlow : safe_char (c + 32) = c + 32).
  { rewrite safe_char_eq, name_char_eq. cmp_cases. }
  rewrite Hup, Hlow. unfold Str.ascii_lower_char. cmp_cases.
Qed.

(** X3: [sanitize_filename] keeps the length of a title, and it does
    not tell [/] from [-] nor an upper-case letter from the lower-case
    one: titles that differ in these only get the same filename. *)
Theorem sanitize_filename_clashes title :
  length (sanitize_filename rt title) = length title
  ∧ sanitize_filename rt (Str.replace (py "/") (py "-") title) = sanitize_filename rt title
  ∧ sanitize_filename rt (Str.ascii_lower title) = sanitize_filename rt title.
Proof.
  rewrite !sanitize_filename_chars by done. unfold Str.ascii_lower, Str.replace.
  split; [by rewrite !length_fmap|]. split.
  - change (py "/") with [code "/"]. change (py "-") with [code "-"].
    rewrite replace_char_from, <- !list_fmap_compose. apply list_fmap_ext.
    intros _ c _. cbn. by rewrite safe_char_slash.
  - rewrite <- !list_fmap_compose. apply list_fmap_ext. intros _ c _. cbn. apply safe_char_fold.
Qed.

End FilenameClashes.

Lemma sanitize_filename_clashes_witness :
  lower_on_ascii sample_runtime
  ∧ sanitize_filename sample_runtime (py "Trip/Day-1") = py "trip-day-1"
  ∧ sanitize_filename sample_runtime (py "trip-day/1") = py "trip-day-1"
  ∧ sanitize_filename sample_runtime (Str.ascii_lower (py "Trip/Day-1"))
    = sanitize_filename sample_runtime (py "Trip/Day-1").
Proof.
  split; [exact sample_lower_on_ascii|]. split; [reflexivity|]. split; [reflexivity|].
  exact (proj2 (proj2 (sanitize_filename_clashes sample_runtime sample_lower_on_ascii
                         (py "Trip/Day-1")))).
Defined.


(** * Assets: where a result comes from *)

Section AssetResults.

Variable rt : runtime.

Lemma exact_match_spec location : ∀ names p,
  exact_match rt location names = Some p ->
  ∃ variant, variant ∈ names ∧ p = Path.join location variant ∧ path_exists rt p = true.
Proof.
  induction names as [|v vs IH]; intros p H; [done|]. cbn [exact_match] in H.
  destruct (path_exists rt (Path.join location v)) eqn:E.
  - inversion H; subst p. exists v. split; [apply list_elem_of_here|done].
  - destruct (IH p H) as (w & Hw & Hp & He). exists w. split; [by apply list_elem_of_further|done].
Qed.

Lemma partial_match_spec location bases : ∀ files p,
  partial_match rt location bases files = Some p ->
  ∃ file base, file ∈ files ∧ base ∈ bases
    ∧ Str.contains (lower rt base) (lower rt file) = true
    ∧ p = Path.join location file.
Proof.
  induction files as [|f fs IH]; intros p H; [done|]. cbn [partial_match] in H.
  destruct (partial_hit rt bases f) eqn:E.
  - inversion H; subst p. unfold partial_hit in E.
    apply existsb_exists in E as (base & Hb & Hc).
    exists f, base. split; [apply list_elem_of_here|]. split; [by apply list_elem_of_In|done].
  - destruct (IH p H) as (file & base & Hf & Hb & Hc & Hp).
    exists file, base. split; [by apply list_elem_of_further|done].
Qed.

(** X4: a path that [find_asset] returns lies in a candidate directory
    that exists: it is the directory joined with a spelling of the name,
    and that path exists, or the directory joined with a listed file
    whose lowercased name contains a lowercased spelling of the base
    name. *)
Theorem find_asset_found filename p :
  find_asset rt filename = Ok (Some p) ->
  ∃ location, location ∈ possible_locations rt
    ∧ path_exists rt (expanduser rt location) = true
    ∧ ((∃ variant, variant ∈ variations filename
          ∧ p = Path.join (expanduser rt location) variant ∧ path_exists rt p = true)
       ∨ (∃ files file base, listdir rt (expanduser rt location) = Some files
            ∧ file ∈ files ∧ base ∈ base_variations filename
            ∧ Str.contains (lower rt base) (lower rt file) = true
            ∧ p = Path.join (expanduser rt location) file)).
Proof.
  unfold find_asset. induction (possible_locations rt) as [|l ls IH]; [done|].
  cbn [search_locations]. intros H.
  assert (Hrest : search_locations rt filename ls = Ok (Some p) ->
            ∃ location, location ∈ l :: ls
              ∧ path_exists rt (expanduser rt location) = true
              ∧ ((∃ variant, variant ∈ variations filename
                    ∧ p = Path.join (expanduser rt location) variant ∧ path_exists rt p = true)
                 ∨ (∃ files file base, listdir rt (expanduser rt location) = Some files
                      ∧ file ∈ files ∧ base ∈ base_variations filename
                      ∧ Str.contains (lower rt base) (lower rt file) = true
                      ∧ p = Path.join (expanduser rt location) file))).
  { intros Hr. destruct (IH Hr) as (loc & Hloc & Hrest). exists loc.
    split; [by apply list_elem_of_further|done]. }
  destruct (path_exists rt (expanduser rt l)) eqn:Edir; [|by apply Hrest].
  destruct (exact_match rt (expanduser rt l) (variations filename)) as [q|] eqn:Eex.
  - inversion H; subst q. exists l. split; [apply list_elem_of_here|]. split; [done|].
    left. by apply exact_match_spec.
  - destruct (listdir rt (expanduser rt l)) as [files|] eqn:Els; [|done].
    destruct (partial_match rt (expanduser rt l) (base_variations filename) files)
      as [q|] eqn:Epm; [|by apply Hrest].
    inversion H; subst q. exists l. split; [apply list_elem_of_here|]. split; [done|].
    right. destruct (partial_match_spec _ _ _ _ Epm) as (file & base & ?).
    by exists files, file, base.
Qed.

(** X5: [find_asset] raises only at a candidate directory that exists,
    holds no spelling of the name and cannot be listed. *)
Theorem find_asset_raises filename e :
  find_asset rt filename = Raise e ->
  ∃ location, location ∈ possible_locations rt
    ∧ path_exists rt (expanduser rt location) = true
    ∧ exact_match rt (expanduser rt location) (variations filename) = None
    ∧ listdir rt (expanduser rt location) = None.
Proof.
  unfold find_asset. induction (possible_locations rt) as [|l ls IH]; [done|].
  cbn [search_locations]. intros H.
  assert (Hrest : search_locations rt filename ls = Raise e ->
            ∃ location, location ∈ l :: ls
              ∧ path_exists rt (expanduser rt location) = true
              ∧ exact_match rt (expanduser rt location) (variations filename) = None
              ∧ listdir rt (expanduser rt location) = None).
  { intros Hr. destruct (IH Hr) as (loc & Hloc & Hrest). exists loc.
    split; [by apply list_elem_of_further|done]. }
  destruct (path_exists rt (expanduser rt l)) eqn:Edir; [|by apply Hrest].
  destruct (exact_match rt (expanduser rt l) (variations filename)) as [q|] eqn:Eex; [done|].
  destruct (listdir rt (expanduser rt l)) as [files|] eqn:Els.
  - destruct (partial_match rt (expanduser rt l) (base_variations filename) files); [done|].
    by apply Hrest.
  - exists l. split; [apply list_elem_of_here|done].
Qed.

Lemma variations_head name : ∃ rest, variations name = name :: rest.
Proof. unfold variations. cbn [fromkeys]. by eexists. Qed.

Lemma join_absolute location name :
  Str.startswith (py "/") name = true -> Path.join location name = name.
Proof. intros H. unfold Path.join. change [Path.sep] with (py "/"). by rewrite H. Qed.

(** X6: a name that starts with [/] is looked up as it stands: joined
    with any directory it is itself, so that, if it exists and one of the
    candidate directories exists, it is the result. *)
Theorem find_asset_absolute filename location :
  Str.startswith (py "/") filename = true ->
  path_exists rt filename = true ->
  location ∈ possible_locations rt ->
  path_exists rt (expanduser rt location) = true ->
  find_asset rt filename = Ok (Some filename).
Proof.
  intros Habs Hex Hloc Hdir. unfold find_asset.
  induction (possible_locations rt) as [|l ls IH]; [by apply elem_of_nil in Hloc|].
  cbn [search_locations].
  destruct (path_exists rt (expanduser rt l)) eqn:Edir.
  - destruct (variations_head filename) as (rest & ->). cbn [exact_match].
    by rewrite join_absolute, Hex.
  - apply IH. apply elem_of_cons in Hloc as [->|Hloc]; [congruence|done].
Qed.

End AssetResults.

Lemma find_asset_found_witness :
  find_asset assets_only_runtime (py "photo.png") = Ok (Some (py "assets/photo.png"))
  ∧ ∃ location, location ∈ possible_locations assets_only_runtime
      ∧ path_exists assets_only_runtime (expanduser assets_only_runtime location) = true.
Proof.
  assert (H : find_asset assets_only_runtime (py "photo.png") = Ok (Some (py "assets/photo.png")))
    by (vm_compute; reflexivity).
  split; [exact H|].
  destruct (find_asset_found assets_only_runtime _ _ H) as (location & Hl & Hd & _).
  by exists location.
Defined.

Lemma find_asset_raises_witness :
  find_asset assets_file_runtime (py "photo.png") = Raise OSError
  ∧ ∃ location, location ∈ possible_locations assets_file_runtime
      ∧ listdir assets_file_runtime (expanduser assets_file_runtime location) = None.
Proof.
  assert (H : find_asset assets_file_runtime (py "photo.png") = Raise OSError)
    by (vm_compute; reflexivity).
  split; [exact H|].
  destruct (find_asset_raises assets_file_runtime _ _ H) as (location & Hl & _ & _ & Hls).
  by exists location.
Defined.

Lemma find_asset_absolute_witness :
  find_asset two_dir_runtime (Path.join LOGSEQ_ASSETS_PATH (py "holiday-photo-big.png"))
  = Ok (Some (Path.join LOGSEQ_ASSETS_PATH (py "holiday-photo-big.png"))).
Proof.
  apply (find_asset_absolute two_dir_runtime _ (py "assets")).
  - reflexivity.
  - reflexivity.
  - vm_compute. apply list_elem_of_further, list_elem_of_here.
  - reflexivity.
Defined.


(** * Assets: the name of a copy *)

Section AssetCopies.

Variable rt : runtime.

Lemma file_char_eq c :
  file_char c
  = (((97 <=? c) && (c <=? 122)) || ((65 <=? c) && (c <=? 90)))
    || (((48 <=? c) && (c <=? 57)) || ((c =? 46) || ((c =? 95) || (c =? 45)))).
Proof. reflexivity. Qed.

Lemma safe_filename_class filename :
  forallb file_char (Re.sub false (Re.Chr (Re.neg file_char)) (fun _ => py "_") filename)
  = true.
Proof.
  unfold Re.sub. rewrite sub_from_chr.
  induction filename as [|c t IH]; [done|]. cbn [mbind list_bind].
  rewrite forallb_app, IH, andb_true_r. unfold Re.neg.
  destruct (file_char c) eqn:E; cbn [negb]; [|done]. cbn [forallb]. by rewrite E.
Qed.

Lemma forallb_take {A} (f : A -> bool) n l :
  forallb f l = true -> forallb f (take n l) = true.
Proof.
  revert n. induction l as [|x l IH]; intros [|n] H; try done.
  cbn in *. apply andb_prop in H as [-> H]. by apply IH.
Qed.

Lemma splitext_stem_class p :
  forallb file_char p = true -> forallb file_char (Path.splitext p).1 = true.
Proof.
  intros H. unfold Path.splitext. case_bool_decide; [|done].
  destruct (forallb _ (take _ (Path.basename p))); [done|]. by apply forallb_take.
Qed.

(** X7: [copy_asset] returns [None] exactly for a source that does not
    exist.  A path it returns is [assets/] followed by a name of letters,
    digits, [.], [_] and [-] only, whatever the name of the source: the
    name holds no [/], and the copy is written to the asset directory
    joined with it.  It raises only when the plain copy to such a
    destination fails. *)
Theorem copy_asset_name src :
  match copy_asset rt src with
  | Ok None => path_exists rt src = false
  | Ok (Some p) =>
      path_exists rt src = true
      ∧ ∃ name, p = py "assets/" ++ name ∧ forallb file_char name = true
                ∧ Path.join ASSETS_DIR name = ASSETS_DIR ++ py "/" ++ name
  | Raise _ =>
      path_exists rt src = true
      ∧ ∃ name, forallb file_char name = true
                ∧ copy2_ok rt src (Path.join ASSETS_DIR name) = false
  end.
Proof.
  unfold copy_asset.
  set (safe := Re.sub false (Re.Chr (Re.neg file_char)) (fun _ => py "_") (Path.basename src)).
  assert (Hsafe : forallb file_char safe = true) by apply safe_filename_class.
  assert (Hjpg : forallb file_char ((Path.splitext safe).1 ++ py ".jpg") = true).
  { rewrite forallb_app, splitext_stem_class by done. done. }
  assert (Hjoin : ∀ name, forallb file_char name = true ->
            Path.join ASSETS_DIR name = ASSETS_DIR ++ py "/" ++ name).
  { intros name Hn. unfold Path.join.
    replace (Str.startswith [Path.sep] name) with false; [done|].
    destruct name as [|c t]; [done|]. cbn [Str.startswith]. rewrite andb_true_r.
    cbn [forallb] in Hn. apply andb_prop in Hn as [Hc _]. rewrite file_char_eq in Hc.
    change Path.sep with 47. symmetry. apply N.eqb_neq. intros <-. done. }
  destruct (path_exists rt src); cbn [negb]; [|done].
  assert (Hplain : ∀ name, forallb file_char name = true ->
    match (if copy2_ok rt src (Path.join ASSETS_DIR name)
           then Ok (Some (py "assets/" ++ name)) else Raise OSError) with
    | Ok None => true = false
    | Ok (Some p) =>
        true = true
        ∧ ∃ name, p = py "assets/" ++ name ∧ forallb file_char name = true
                  ∧ Path.join ASSETS_DIR name = ASSETS_DIR ++ py "/" ++ name
    | Raise _ =>
        true = true
        ∧ ∃ name, forallb file_char name = true
                  ∧ copy2_ok rt src (Path.join ASSETS_DIR name) = false
    end).
  { intros name Hn. destruct (copy2_ok rt src (Path.join ASSETS_DIR name)) eqn:E.
    - split; [done|]. exists name. split; [done|]. split; [done|]. by apply Hjoin.
    - split; [done|]. by exists name. }
  case_bool_decide; [|by apply Hplain].
  destruct (optimize_image rt src) as [data|]; [|by apply Hplain].
  destruct (Str.truthy data); [|by apply Hplain].
  destruct (write_ok rt _); [|by apply Hplain].
  split; [done|]. exists ((Path.splitext safe).1 ++ py ".jpg").
  split; [done|]. split; [done|]. by apply Hjoin.
Qed.

End AssetCopies.


(** * Text without markers *)

Section PlainText.

Variable rt : runtime.

(** A pattern that starts with a literal matches nowhere in a text that
    does not contain the literal. *)
Lemma literal_unmatched ml l r : ∀ s prev,
  Str.contains l s = false -> Re.no_match_from ml (Re.lit l ⋅ r)%re prev s = true.
Proof.
  induction s as [|c t IH]; intros prev H; cbn [Str.contains] in H;
    apply orb_false_elim in H as [Hs Ht]; cbn [Re.no_match_from];
    unfold Re.match_at; cbn [Re.m]; rewrite m_lit, Hs; [done|].
  by apply IH.
Qed.

Lemma group_literal_unmatched ml i l r : ∀ s prev,
  Str.contains l s = false -> Re.no_match_from ml (Re.Grp i (Re.lit l ⋅ r))%re prev s = true.
Proof.
  induction s as [|c t IH]; intros prev H; cbn [Str.contains] in H;
    apply orb_false_elim in H as [Hs Ht]; cbn [Re.no_match_from];
    unfold Re.match_at; cbn [Re.m]; rewrite m_lit, Hs; [done|].
  by apply IH.
Qed.

Lemma pieces_from_no_match ml r : ∀ s prev,
  Re.no_match_from ml r prev s = true -> Re.pieces_from ml r prev s = Re.Text <$> s.
Proof.
  induction s as [|c t IH]; intros prev H; cbn [Re.no_match_from] in H.
  - destruct (Re.match_at ml false r prev []) eqn:E; [done|]. by apply pieces_from_nil.
  - destruct (Re.match_at ml false r prev (c :: t)) eqn:E; [done|].
    rewrite pieces_from_skip by done. cbn [fmap list_fmap]. f_equal. by apply IH.
Qed.

(** Where the pattern matches nowhere, the replacement function is never
    called. *)
Lemma sub_m_no_match ml r repl s :
  Re.no_match_from ml r None s = true -> sub_m ml r repl s = Ok s.
Proof.
  intros H. unfold sub_m, Re.pieces. rewrite pieces_from_no_match by done.
  assert (E : mapM (fun p => match p with
                             | Re.Text c => Ok [c]
                             | Re.Hit _ cs => repl cs
                             end) (Re.Text <$> s) = Ok ((fun c => [c]) <$> s)).
  { clear H. induction s as [|c t IH]; [done|]. cbn [fmap list_fmap mapM] in *.
    rewrite IH. done. }
  rewrite E. cbn [mbind res_bind]. f_equal.
  clear. induction s as [|c t IH]; [done|]. cbn [fmap list_fmap concat]. by rewrite IH.
Qed.

(** X8: a text that contains neither [![] nor [<img] goes through
    [process_image_links] unchanged: the function returns it without
    looking for any file. *)
Theorem process_image_links_plain s :
  Str.contains (py "![") s = false -> Str.contains (py "<img") s = false ->
  process_image_links rt s = Ok s.
Proof.
  intros Hmd Hhtml. unfold process_image_links.
  rewrite sub_m_no_match by (by apply literal_unmatched). cbn [mbind res_bind].
  by rewrite sub_m_no_match by (by apply literal_unmatched).
Qed.

(** X9: the line renderer of [process_block] wraps a line without
    markers in a paragraph and changes nothing else in it. *)
Theorem render_line_plain public_pages line :
  plain_line line = true ->
  render_line rt public_pages line = Ok (py "<p>" ++ line ++ py "</p>").
Proof.
  unfold plain_line. cbn [forallb]. intros H.
  repeat (apply andb_prop in H as [?%negb_true_iff H]).
  assert (Hstar2 : Str.contains (py "**") line = false).
  { clear -H0. induction line as [|c t IH]; [done|]. cbn [Str.contains] in *.
    apply orb_false_elim in H0 as [Hs Ht]. rewrite (IH Ht), orb_false_r.
    change (py "**") with [42; 42]. change (py "*") with [42] in Hs.
    cbn [Str.startswith] in *. rewrite andb_true_r in Hs. by rewrite Hs. }
  unfold render_line, resolve_links_for_html.
  rewrite (sub_no_match false (span_pattern "**")) by (by apply literal_unmatched).
  rewrite (sub_no_match false (span_pattern "*")) by (by apply literal_unmatched).
  rewrite (sub_no_match false (span_pattern "~~")) by (by apply literal_unmatched).
  rewrite (sub_no_match false (span_pattern "==")) by (by apply literal_unmatched).
  rewrite (sub_no_match false link_pattern) by (by apply literal_unmatched).
  rewrite (sub_no_match false url_pattern) by (by apply group_literal_unmatched).
  rewrite (sub_no_match false code_pattern) by (by apply literal_unmatched).
  by rewrite process_image_links_plain.
Qed.

End PlainText.

Lemma process_image_links_plain_witness :
  process_image_links two_dir_runtime (py "a map of the coast") = Ok (py "a map of the coast").
Proof. apply (process_image_links_plain two_dir_runtime); reflexivity. Defined.

Lemma render_line_plain_witness :
  render_line two_dir_runtime [] (py "a map of the coast")
  = Ok (py "<p>a map of the coast</p>").
Proof. apply (render_line_plain two_dir_runtime []). reflexivity. Defined.


(** * Assets: references without a file *)

Section MissingAssets.

Variable rt : runtime.

(** [re.sub] with a replacement that does not raise on the matches of
    the text is the plain substitution. *)
Lemma sub_m_on_hits ml r repl f s :
  (∀ cs, cs ∈ captures_of ml r s -> repl cs = Ok (f cs)) ->
  sub_m ml r repl s = Ok (Re.sub ml r f s).
Proof.
  unfold sub_m, Re.sub, Re.sub_from, captures_of, Re.pieces.
  induction (Re.pieces_from ml r None s) as [|p ps IH]; intros H; [done|].
  cbn [mapM mbind res_bind list_bind omap] in *.
  destruct p as [c|w cs].
  - destruct (mapM _ ps); specialize (IH H); [|done]. cbn in *. by inversion IH.
  - rewrite (H cs) by apply list_elem_of_here.
    assert (IH' := IH (fun cs' Hin => H cs' (list_elem_of_further _ _ _ Hin))).
    destruct (mapM _ ps); [|done]. cbn in *. by inversion IH'.
Qed.

Lemma sub_m_returns ml r repl s :
  (∀ cs, ∃ new, repl cs = Ok new) -> ∃ out, sub_m ml r repl s = Ok out.
Proof.
  intros H. exists (Re.sub ml r (fun cs => match repl cs with Ok new => new | Raise _ => [] end) s).
  apply sub_m_on_hits. intros cs _. by destruct (H cs) as [new ->].
Qed.

(** The matcher reads a markdown image at the start of the text. *)
Lemma md_match_at prev alt ref post :
  forallb (not_char "]") alt = true ->
  ref ≠ [] -> forallb (not_char ")") ref = true ->
  Re.match_at false false md_pattern prev (py "![" ++ alt ++ py "](" ++ ref ++ py ")" ++ post)
  = Some ([(1%nat, ref)], Some 41, post).
Proof.
  intros Halt Hne Href. unfold Re.match_at, md_pattern. cbn [Re.m].
  rewrite m_lit. change (Str.startswith (py "![") (py "![" ++ alt ++ py "](" ++ ref ++ py ")" ++ post))
    with true. cbv iota.
  change (drop (length (py "![")) (py "![" ++ alt ++ py "](" ++ ref ++ py ")" ++ post))
    with (alt ++ py "](" ++ ref ++ py ")" ++ post).
  unfold Re.star. cbn [Re.m]. rewrite rep_greedy_run; [|done| |done].
  2:{ intros p c t Hc. rewrite m_lit. change (py "](") with [93; 40]. cbn [Str.startswith].
      unfold not_char, Re.neg, Re.ch, code in Hc. change (N_of_ascii "]") with 93 in Hc.
      rewrite N.eqb_sym. by destruct (c =? 93). }
  cbn [Nat.leb]. rewrite m_lit.
  change (Str.startswith (py "](") (py "](" ++ ref ++ py ")" ++ post)) with true. cbv iota.
  change (drop (length (py "](")) (py "](" ++ ref ++ py ")" ++ post))
    with (ref ++ py ")" ++ post).
  unfold Re.plus. cbn [Re.m]. rewrite rep_greedy_run; [|done| |done].
  2:{ intros p c t Hc. rewrite m_lit. change (py ")") with [41]. cbn [Str.startswith].
      unfold not_char, Re.neg, Re.ch, code in Hc. change (N_of_ascii ")") with 41 in Hc.
      rewrite N.eqb_sym. by destruct (c =? 41). }
  destruct ref as [|r0 ref']; [done|].
  replace (1 <=? length (r0 :: ref'))%nat with true by done.
  rewrite m_lit.
  change (Str.startswith (py ")") (py ")" ++ post)) with true. cbv iota.
  change (drop (length (py ")")) (py ")" ++ post)) with post.
  cbn [andb]. do 3 f_equal. f_equal.
  rewrite length_app. change (length (py ")" ++ post)) with (S (length post)).
  replace (length (r0 :: ref') + S (length post) - S (length post))%nat
    with (length (r0 :: ref')) by lia.
  by rewrite take_app_length.
Qed.

(** No markdown image starts inside a text without [![] that is followed
    by a markdown image. *)
Lemma md_pieces_skip rest : ∀ pre prev,
  Str.contains (py "![") pre = false ->
  Str.startswith (py "!") rest = true ->
  Re.pieces_from false md_pattern prev (pre ++ rest)
  = (Re.Text <$> pre) ++ Re.pieces_from false md_pattern (Re.prev_after prev pre) rest.
Proof.
  induction pre as [|c t IH]; intros prev Hpre Hrest; [done|].
  cbn [Str.contains] in Hpre. apply orb_false_elim in Hpre as [Hs Ht].
  cbn [app]. rewrite pieces_from_skip.
  - cbn [fmap list_fmap app]. f_equal. rewrite IH by done. by rewrite prev_after_cons.
  - unfold Re.match_at, md_pattern. cbn [Re.m]. rewrite m_lit.
    replace (Str.startswith (py "![") (c :: t ++ rest)) with false; [done|].
    symmetry. change (py "![") with [33; 91] in *. cbn [Str.startswith] in *.
    destruct (33 =? c); [|done]. cbn [andb] in *.
    destruct t as [|d t'].
    + destruct rest as [|r0 rest']; [done|]. cbn [app].
      change (py "!") with [33] in Hrest. cbn [Str.startswith] in Hrest.
      rewrite andb_true_r in Hrest. apply N.eqb_eq in Hrest as <-. done.
    + cbn [app]. rewrite andb_true_r in Hs. by rewrite Hs.
Qed.

(** The scan of a text with one markdown image. *)
Lemma md_pieces pre alt ref post :
  Str.contains (py "![") pre = false ->
  forallb (not_char "]") alt = true ->
  ref ≠ [] -> forallb (not_char ")") ref = true ->
  Str.contains (py "![") post = false ->
  Re.pieces false md_pattern (pre ++ py "![" ++ alt ++ py "](" ++ ref ++ py ")" ++ post)
  = (Re.Text <$> pre)
    ++ Re.Hit (py "![" ++ alt ++ py "](" ++ ref ++ py ")") [(1%nat, ref)]
    :: (Re.Text <$> post).
Proof.
  intros Hpre Halt Hne Href Hpost. unfold Re.pieces.
  rewrite md_pieces_skip by done. f_equal.
  replace (py "![" ++ alt ++ py "](" ++ ref ++ py ")" ++ post)
    with ((py "![" ++ alt ++ py "](" ++ ref ++ py ")") ++ post)
    by (by rewrite <- !app_assoc).
  rewrite (pieces_from_hit false md_pattern _ _ post [(1%nat, ref)] (Some 41)).
  - f_equal. apply pieces_from_no_match. by apply literal_unmatched.
  - done.
  - rewrite <- !app_assoc. by apply md_match_at.
Qed.

Lemma text_pieces_render (f : Re.caps -> pystr) (s : pystr) :
  (Re.Text <$> s) ≫= Re.render f = s.
Proof. induction s as [|c t IH]; [done|]. cbn. by f_equal. Qed.

Lemma text_pieces_captures (s : pystr) :
  omap (fun p => match p with
                 | Re.Hit _ cs => Some cs
                 | Re.Text _ => None
                 end) (Re.Text <$> s) = [].
Proof. induction s as [|c t IH]; [done|]. done. Qed.

(** [find_asset] returns when every existing candidate directory can be
    listed. *)
Lemma search_locations_returns filename : ∀ locations,
  (∀ location, location ∈ locations ->
     path_exists rt (expanduser rt location) = true ->
     ∃ files, listdir rt (expanduser rt location) = Some files) ->
  ∃ found, search_locations rt filename locations = Ok found.
Proof.
  induction locations as [|l ls IH]; intros H; [by eexists|].
  cbn [search_locations].
  assert (IH' := IH (fun loc Hin => H loc (list_elem_of_further _ _ _ Hin))).
  destruct (path_exists rt (expanduser rt l)) eqn:E; [|done].
  destruct (exact_match rt _ _); [by eexists|].
  destruct (H l (list_elem_of_here _ _) E) as [files ->].
  destruct (partial_match rt _ _ _); [by eexists|done].
Qed.

Lemma copy_asset_returns src_path :
  (∀ src dst, copy2_ok rt src dst = true) -> ∃ new_path, copy_asset rt src_path = Ok new_path.
Proof.
  intros H. unfold copy_asset.
  destruct (negb (path_exists rt src_path)); [by eexists|].
  destruct (bool_decide _).
  - destruct (optimize_image rt src_path) as [data|].
    + destruct (Str.truthy data).
      * destruct (write_ok rt _); [by eexists|]. rewrite H. by eexists.
      * rewrite H. by eexists.
    + rewrite H. by eexists.
  - rewrite H. by eexists.
Qed.

(** C7, as amended: when every candidate directory that exists can be
    listed and holds neither a variation of the name nor a listed file
    with a variation of the base name, [find_asset] returns [None]; a
    reference for which [find_asset] returns [None] is replaced by the
    text [[Image not found: NAME]] with the name that was asked for, the
    reference itself when it has nothing to decode or strip, and not by
    an [img] element: so for one markdown image in a text, and so for
    every match of the two passes.  Image-link processing returns for
    every text when every candidate directory that exists can be listed
    and every plain copy succeeds. *)
Theorem missing_asset_placeholder :
  (∀ filename,
     (∀ location, location ∈ possible_locations rt ->
        path_exists rt (expanduser rt location) = true ->
        (∀ variant, variant ∈ variations filename ->
           path_exists rt (Path.join (expanduser rt location) variant) = false)
        ∧ ∃ files, listdir rt (expanduser rt location) = Some files
            ∧ ∀ file base, file ∈ files -> base ∈ base_variations filename ->
                Str.contains (lower rt base) (lower rt file) = false) ->
     find_asset rt filename = Ok None)
  ∧ (∀ cs,
       find_asset rt (requested_name rt (Re.group 1 cs)) = Ok None ->
       image_repl rt cs
       = Ok (py "[Image not found: " ++ requested_name rt (Re.group 1 cs) ++ py "]"))
  ∧ (∀ pre alt ref post,
       Str.contains (py "![") pre = false ->
       forallb (not_char "]") alt = true ->
       ref ≠ [] -> forallb (not_char ")") ref = true ->
       Str.contains (py "![") post = false ->
       Str.contains (py "<img")
         (pre ++ py "[Image not found: " ++ requested_name rt ref ++ py "]" ++ post) = false ->
       find_asset rt (requested_name rt ref) = Ok None ->
       process_image_links rt (pre ++ py "![" ++ alt ++ py "](" ++ ref ++ py ")" ++ post)
       = Ok (pre ++ py "[Image not found: " ++ requested_name rt ref ++ py "]" ++ post))
  ∧ (∀ content,
       (∀ cs, cs ∈ captures_of false md_pattern content ->
          find_asset rt (requested_name rt (Re.group 1 cs)) = Ok None) ->
       (∀ cs, cs ∈ captures_of false html_pattern
                     (Re.sub false md_pattern
                        (fun cs => image_placeholder (requested_name rt (Re.group 1 cs)))
                        content) ->
          find_asset rt (requested_name rt (Re.group 1 cs)) = Ok None) ->
       process_image_links rt content
       = Ok (Re.sub false html_pattern
               (fun cs => image_placeholder (requested_name rt (Re.group 1 cs)))
               (Re.sub false md_pattern
                  (fun cs => image_placeholder (requested_name rt (Re.group 1 cs)))
                  content)))
  ∧ (∀ reference,
       unquote rt reference = reference ->
       unmatched false dotdot_pattern reference = true ->
       unmatched false asset_prefix_pattern reference = true ->
       requested_name rt reference = reference)
  ∧ ((∀ location, location ∈ possible_locations rt ->
        path_exists rt (expanduser rt location) = true ->
        ∃ files, listdir rt (expanduser rt location) = Some files) ->
     (∀ src dst, copy2_ok rt src dst = true) ->
     ∀ content, ∃ html, process_image_links rt content = Ok html).
Proof.
  assert (Hrepl : ∀ cs,
       find_asset rt (requested_name rt (Re.group 1 cs)) = Ok None ->
       image_repl rt cs
       = Ok (image_placeholder (requested_name rt (Re.group 1 cs)))).
  { intros cs H. unfold image_repl. by rewrite H. }
  assert (Hboth : ∀ content,
       (∀ cs, cs ∈ captures_of false md_pattern content ->
          find_asset rt (requested_name rt (Re.group 1 cs)) = Ok None) ->
       (∀ cs, cs ∈ captures_of false html_pattern
                     (Re.sub false md_pattern
                        (fun cs => image_placeholder (requested_name rt (Re.group 1 cs)))
                        content) ->
          find_asset rt (requested_name rt (Re.group 1 cs)) = Ok None) ->
       process_image_links rt content
       = Ok (Re.sub false html_pattern
               (fun cs => image_placeholder (requested_name rt (Re.group 1 cs)))
               (Re.sub false md_pattern
                  (fun cs => image_placeholder (requested_name rt (Re.group 1 cs)))
                  content))).
  { intros content Hmd Hhtml. unfold process_image_links.
    rewrite (sub_m_on_hits false md_pattern (image_repl rt)
               (fun cs => image_placeholder (requested_name rt (Re.group 1 cs))))
      by (intros cs Hcs; by apply Hrepl, Hmd).
    cbn [mbind res_bind]. apply sub_m_on_hits. intros cs Hcs. by apply Hrepl, Hhtml. }
  split; [|split; [done|split; [|split; [done|split]]]].
  - intros filename H. unfold find_asset.
    rewrite <- (app_nil_r (possible_locations rt)).
    by rewrite search_locations_skip_all.
  - intros pre alt ref post Hpre Halt Hne Href Hpost Himg Hfind.
    assert (Hsub : Re.sub false md_pattern
                     (fun cs => image_placeholder (requested_name rt (Re.group 1 cs)))
                     (pre ++ py "![" ++ alt ++ py "](" ++ ref ++ py ")" ++ post)
                   = pre ++ py "[Image not found: " ++ requested_name rt ref ++ py "]" ++ post).
    { unfold Re.sub, Re.sub_from. fold (Re.pieces false md_pattern
        (pre ++ py "![" ++ alt ++ py "](" ++ ref ++ py ")" ++ post)).
      rewrite md_pieces by done. rewrite bind_app, bind_cons, !text_pieces_render.
      cbn [Re.render Re.group Nat.eqb].
      unfold image_placeholder. by rewrite <- !app_assoc. }
    rewrite Hboth.
    + rewrite Hsub. rewrite sub_no_match; [done|]. by apply literal_unmatched.
    + unfold captures_of. rewrite md_pieces by done.
      rewrite omap_app, text_pieces_captures. cbn [app omap list_omap].
      fold (omap (M := list) (fun p => match p with
                                      | Re.Hit _ cs => Some cs
                                      | Re.Text _ => None
                                      end) (Re.Text <$> post)).
      rewrite text_pieces_captures.
      intros cs Hcs. apply list_elem_of_singleton in Hcs as ->. exact Hfind.
    + rewrite Hsub. unfold captures_of, Re.pieces.
      rewrite pieces_from_no_match by (by apply literal_unmatched).
      rewrite text_pieces_captures. intros cs Hcs. by apply elem_of_nil in Hcs.
  - intros reference Hq Hd Hp. unfold requested_name. rewrite Hq.
    unfold unmatched in *. rewrite (sub_no_match false dotdot_pattern _ reference) by done.
    by rewrite sub_no_match.
  - intros Hls Hcopy content.
    assert (Hr : ∀ cs, ∃ new, image_repl rt cs = Ok new).
    { intros cs. unfold image_repl.
      destruct (search_locations_returns (requested_name rt (Re.group 1 cs))
                  (possible_locations rt) Hls) as [found Hfound].
      unfold find_asset. rewrite Hfound. cbn [mbind res_bind].
      destruct found as [asset_path|]; [|by eexists].
      destruct (Str.truthy asset_path); [|by eexists].
      destruct (copy_asset_returns asset_path Hcopy) as [new_path ->]. cbn [mbind res_bind].
      destruct new_path as [new_path|]; [|by eexists].
      destruct (Str.truthy new_path); by eexists. }
    unfold process_image_links.
    destruct (sub_m_returns false md_pattern (image_repl rt) content Hr) as [out ->].
    cbn [mbind res_bind]. by apply sub_m_returns.
Qed.

End MissingAssets.

Lemma missing_asset_placeholder_witness :
  path_exists assets_only_runtime (py "assets") = true
  ∧ listdir assets_only_runtime (py "assets") = Some [py "photo.png"]
  ∧ find_asset assets_only_runtime (py "map.png") = Ok None
  ∧ process_image_links assets_only_runtime (py "see ![the map](../assets/map.png) here")
    = Ok (py "see [Image not found: map.png] here")
  ∧ process_image_links assets_only_runtime
      (py "![a](photo.png) and ![b](map.png)")
    = Ok (py "<img src=" ++ dq ++ py "assets/photo.png" ++ dq ++ py " alt=" ++ dq ++ dq
          ++ py "/> and [Image not found: map.png]").
Proof.
  assert (Hfind : find_asset assets_only_runtime (py "map.png") = Ok None).
  { apply (proj1 (missing_asset_placeholder assets_only_runtime)).
    assert (Hs : variations (py "map.png") = [py "map.png"]) by (vm_compute; reflexivity).
    assert (Hb : base_variations (py "map.png") = [py "map"]) by (vm_compute; reflexivity).
    intros location Hl Hex. unfold possible_locations in Hl.
    cbn [expanduser assets_only_runtime] in Hl, Hex |- *.
    repeat (apply elem_of_cons in Hl as [->|Hl]; [try (vm_compute in Hex; discriminate Hex)|]).
    - split.
      + intros variant Hv. rewrite Hs in Hv. apply list_elem_of_singleton in Hv as ->.
        reflexivity.
      + exists [py "photo.png"]. split; [reflexivity|].
        intros file base Hf Hbase. rewrite Hb in Hbase.
        apply list_elem_of_singleton in Hf as ->. apply list_elem_of_singleton in Hbase as ->.
        reflexivity.
    - by apply elem_of_nil in Hl. }
  split; [reflexivity|]. split; [reflexivity|]. split; [exact Hfind|]. split.
  - apply (proj1 (proj2 (proj2 (missing_asset_placeholder assets_only_runtime)))
             (py "see ") (py "the map") (py "../assets/map.png") (py " here"));
      [reflexivity|reflexivity|discriminate|reflexivity|reflexivity|reflexivity|exact Hfind].
  - vm_compute. reflexivity.
Defined.

(** C7, as stated, fails: on a disk where [assets] is a file and nothing
    else exists, no file matches [map.png] in any candidate directory,
    and the listing of [assets] raises [OSError] out of image-link
    processing. *)
Lemma process_image_links_raises : ¬ image_links_never_raise assets_file_runtime.
Proof.
  intros H. destruct (H (py "![m](map.png)")) as [html Hhtml].
  assert (E : process_image_links assets_file_runtime (py "![m](map.png)") = Raise OSError)
    by (vm_compute; reflexivity).
  rewrite E in Hhtml. discriminate Hhtml.
Qed.


(** * The name of an image *)

Section ImageNames.

Variable rt : runtime.

Lemma startswith_self pre : ∀ s, Str.startswith pre (pre ++ s) = true.
Proof. induction pre as [|a pre IH]; intros s; [done|]. cbn. by rewrite N.eqb_refl, IH. Qed.

Lemma asset_prefix_hit prefix name :
  prefix = py "assets/" ∨ prefix = py "img/" ->
  Re.sub false asset_prefix_pattern (fun _ => []) (prefix ++ name) = name.
Proof.
  intros Hp. unfold Re.sub.
  assert (Hm : ∃ cs, Re.match_at false false asset_prefix_pattern None (prefix ++ name)
                     = Some (cs, Re.prev_after None prefix, name)).
  { unfold Re.match_at, asset_prefix_pattern. cbn [Re.m Re.at_bol]. rewrite !m_lit.
    destruct Hp as [-> | ->].
    - rewrite startswith_self, drop_app_length. cbn [andb]. by eexists.
    - replace (Str.startswith (py "assets/") (py "img/" ++ name)) with false by done.
      rewrite startswith_self, drop_app_length. cbn [andb]. by eexists. }
  destruct Hm as (cs & Hm).
  rewrite (sub_from_hit false _ _ None prefix name cs _ ltac:(by destruct Hp as [-> | ->]) Hm).
  cbn [app]. destruct Hp as [-> | ->]; apply sub_from_bol_inside.
Qed.

Lemma asset_prefix_miss s :
  Str.startswith (py "assets/") s = false -> Str.startswith (py "img/") s = false ->
  Re.sub false asset_prefix_pattern (fun _ => []) s = s.
Proof.
  intros Ha Hi. unfold Re.sub.
  assert (Hm : Re.match_at false false asset_prefix_pattern None s = None).
  { unfold Re.match_at, asset_prefix_pattern. cbn [Re.m Re.at_bol]. by rewrite !m_lit, Ha, Hi. }
  destruct s as [|c t]; [by apply sub_from_nil|].
  rewrite sub_from_skip by done. f_equal. apply sub_from_bol_inside.
Qed.

(** X10: the name [process_image_links] looks up for a reference without
    [..] is the decoded reference without one leading [assets/] or
    [img/]; a second such prefix, or one that is not at the start, is
    kept. *)
Theorem requested_name_prefix reference :
  Str.contains (py "..") (unquote rt reference) = false ->
  (∀ prefix name,
     prefix = py "assets/" ∨ prefix = py "img/" ->
     unquote rt reference = prefix ++ name -> requested_name rt reference = name)
  ∧ (Str.startswith (py "assets/") (unquote rt reference) = false ->
     Str.startswith (py "img/") (unquote rt reference) = false ->
     requested_name rt reference = unquote rt reference).
Proof.
  intros Hdots. unfold requested_name.
  rewrite (sub_no_match false dotdot_pattern) by (by apply literal_unmatched).
  split.
  - intros prefix name Hp ->. by apply asset_prefix_hit.
  - apply asset_prefix_miss.
Qed.

End ImageNames.

Lemma requested_name_prefix_witness :
  Str.contains (py "..") (unquote sample_runtime (py "assets/assets/map.png")) = false
  ∧ requested_name sample_runtime (py "assets/assets/map.png") = py "assets/map.png".
Proof.
  split; [reflexivity|].
  apply (proj1 (requested_name_prefix sample_runtime (py "assets/assets/map.png") eq_refl)
           (py "assets/") (py "assets/map.png")); [by left|reflexivity].
Defined.


(** * Substitutions that only delete *)

Section Deletions.

Variable ml : bool.

Lemma rep_greedy_suffix cls k res : ∀ s lo hi prev,
  Re.rep_greedy cls lo hi prev s k = Some res ->
  ∃ p' s', s' `suffix_of` s ∧ k p' s' = Some res.
Proof.
  induction s as [|c t IH]; intros lo hi prev H; cbn [Re.rep_greedy] in H.
  - exists prev, []. split; [done|]. by destruct hi as [[|n]|], lo.
  - assert (Hstop : match lo with O => k prev (c :: t) | S _ => None end = Some res ->
                    ∃ p' s', s' `suffix_of` c :: t ∧ k p' s' = Some res).
    { destruct lo; [|done]. intros Hk. by exists prev, (c :: t). }
    assert (Hgo : ∀ lo' hi', Re.rep_greedy cls lo' hi' (Some c) t k = Some res ->
              ∃ p' s', s' `suffix_of` c :: t ∧ k p' s' = Some res).
    { intros lo' hi' E. apply IH in E as (p' & s' & Hs & Hk).
      exists p', s'. split; [by apply suffix_cons_r|done]. }
    destruct hi as [[|n]|]; [by apply Hstop| |].
    + destruct (cls c); [|by apply Hstop].
      destruct (Re.rep_greedy cls (Nat.pred lo) _ (Some c) t k) eqn:E; [|by apply Hstop].
      injection H as <-. by eapply Hgo.
    + destruct (cls c); [|by apply Hstop].
      destruct (Re.rep_greedy cls (Nat.pred lo) _ (Some c) t k) eqn:E; [|by apply Hstop].
      injection H as <-. by eapply Hgo.
Qed.

Lemma rep_lazy_suffix cls k res : ∀ s lo hi prev,
  Re.rep_lazy cls lo hi prev s k = Some res ->
  ∃ p' s', s' `suffix_of` s ∧ k p' s' = Some res.
Proof.
  induction s as [|c t IH]; intros lo hi prev H; cbn [Re.rep_lazy] in H.
  - destruct lo.
    + destruct (k prev []) eqn:E; [injection H as <-; by exists prev, []|].
      by destruct hi as [[|n]|].
    + by destruct hi as [[|n]|].
  - assert (Hmore : match hi with
                    | Some O => None
                    | _ => if cls c
                           then Re.rep_lazy cls (Nat.pred lo) (Nat.pred <$> hi) (Some c) t k
                           else None
                    end = Some res ->
                    ∃ p' s', s' `suffix_of` c :: t ∧ k p' s' = Some res).
    { intros H'.
      assert (Hgo : ∀ lo' hi', Re.rep_lazy cls lo' hi' (Some c) t k = Some res ->
                ∃ p' s', s' `suffix_of` c :: t ∧ k p' s' = Some res).
      { intros lo' hi' E. apply IH in E as (p' & s' & Hs & Hk).
        exists p', s'. split; [by apply suffix_cons_r|done]. }
      destruct hi as [[|n]|]; [done| |];
        (destruct (cls c); [eapply Hgo, H'|done]). }
    destruct lo.
    + destruct (k prev (c :: t)) eqn:E; [injection H as <-; by exists prev, (c :: t)|].
      apply Hmore. by destruct hi as [[|n]|].
    + apply Hmore. by destruct hi as [[|n]|].
Qed.

(** What the matcher hands to its continuation is a suffix of the
    subject. *)
Lemma m_suffix r : ∀ prev s cs k res,
  Re.m ml r prev s cs k = Some res ->
  ∃ p' s' cs', s' `suffix_of` s ∧ k p' s' cs' = Some res.
Proof.
  induction r as [|cls|r1 IH1 r2 IH2|r1 IH1 r2 IH2|cls lo hi g|i r IH| |];
    intros prev s cs k res H; cbn [Re.m] in H.
  - by exists prev, s, cs.
  - destruct s as [|c t]; [done|]. destruct (cls c); [|done].
    exists (Some c), t, cs. split; [by apply suffix_cons_r|done].
  - apply IH1 in H as (p1 & s1 & cs1 & Hs1 & H).
    apply IH2 in H as (p2 & s2 & cs2 & Hs2 & H).
    exists p2, s2, cs2. split; [by etrans|done].
  - destruct (Re.m ml r1 prev s cs k) eqn:E.
    + injection H as <-. by eapply IH1.
    + by eapply IH2.
  - destruct g.
    + apply rep_greedy_suffix in H as (p' & s' & Hs & H). by exists p', s', cs.
    + apply rep_lazy_suffix in H as (p' & s' & Hs & H). by exists p', s', cs.
  - apply IH in H as (p' & s' & cs' & Hs & H). by eexists p', s', _.
  - destruct (Re.at_bol ml prev); [|done]. by exists prev, s, cs.
  - destruct (Re.at_eol ml s); [|done]. by exists prev, s, cs.
Qed.

Lemma match_at_suffix adv r prev s cs p' s' :
  Re.match_at ml adv r prev s = Some (cs, p', s') -> s' `suffix_of` s.
Proof.
  unfold Re.match_at. intros H. apply m_suffix in H as (p1 & s1 & cs1 & Hs & H).
  destruct (adv && _); [done|]. by injection H as <- <- <-.
Qed.

(** With the empty replacement, what a substitution leaves is what it
    did not match: a subsequence of the text. *)
Lemma scan_deletes r : ∀ fuel s prev,
  (Re.scan ml fuel r prev s ≫= Re.render (fun _ => [])) `sublist_of` s.
Proof.
  induction fuel as [|fuel IH]; intros s prev; cbn [Re.scan].
  - induction s as [|c t IHs]; [done|]. cbn [fmap list_fmap mbind list_bind Re.render app].
    by apply sublist_skip.
  - assert (Hstep : (match s with
                     | [] => []
                     | c :: t => Re.Text c :: Re.scan ml fuel r (Some c) t
                     end ≫= Re.render (fun _ => [])) `sublist_of` s).
    { destruct s as [|c t]; [done|]. cbn [mbind list_bind Re.render app].
      apply sublist_skip, IH. }
    assert (Hjump : ∀ p' s', s' `suffix_of` s ->
              (Re.scan ml fuel r p' s' ≫= Re.render (fun _ => [])) `sublist_of` s).
    { intros p' s' [w ->]. apply sublist_inserts_l, IH. }
    destruct (Re.match_at ml false r prev s) as [[[cs p'] s']|] eqn:E; [|done].
    apply match_at_suffix in E.
    destruct (Re.whole_of s s') as [|c w]; cbn [mbind list_bind Re.render app].
    + destruct (Re.match_at ml true r prev s) as [[[cs2 p2] s2]|] eqn:E2; [|done].
      apply match_at_suffix in E2. cbn [mbind list_bind Re.render app]. by apply Hjump.
    + by apply Hjump.
Qed.

Lemma sub_deletes r s : Re.sub ml r (fun _ => []) s `sublist_of` s.
Proof. apply scan_deletes. Qed.

End Deletions.

Section Metadata.

(** X11: [clean_logseq_metadata] only deletes: what it returns is the
    text without some of its characters, in their order: it is never
    longer than the text and holds no character the text does not hold. *)
Theorem clean_logseq_metadata_deletes content :
  clean_logseq_metadata content `sublist_of` content
  ∧ (length (clean_logseq_metadata content) <= length content)%nat
  ∧ ∀ c, c ∈ clean_logseq_metadata content -> c ∈ content.
Proof.
  assert (H : clean_logseq_metadata content `sublist_of` content).
  { unfold clean_logseq_metadata.
    etrans; [apply sub_deletes|]. etrans; [apply sub_deletes|]. apply sub_deletes. }
  split; [done|]. split; [by apply sublist_length|].
  intros c Hc. by eapply elem_of_sublist.
Qed.

End Metadata.


(** * Sorting and the pages below a page *)

Section Sorting.

Lemma str_leb_refl a : str_leb a a = true.
Proof. induction a as [|x a IH]; [done|]. cbn. by rewrite N.eqb_refl, IH, orb_true_r. Qed.

Lemma str_leb_total a : ∀ b, str_leb a b = true ∨ str_leb b a = true.
Proof.
  induction a as [|x a IH]; intros [|y b]; cbn; auto.
  destruct (N.ltb_spec x y); [by left|]. destruct (N.ltb_spec y x); [by right|].
  assert (x = y) as -> by lia. rewrite N.eqb_refl. cbn. apply IH.
Qed.

Lemma str_leb_trans a : ∀ b c, str_leb a b = true -> str_leb b c = true -> str_leb a c = true.
Proof.
  induction a as [|x a IH]; intros [|y b] [|z c]; cbn; try done.
  intros [Hxy|[Hxy Hab]%andb_prop]%orb_prop [Hyz|[Hyz Hbc]%andb_prop]%orb_prop.
  - apply N.ltb_lt in Hxy, Hyz. apply orb_true_intro. left. apply N.ltb_lt. lia.
  - apply N.eqb_eq in Hyz as <-. by rewrite Hxy.
  - apply N.eqb_eq in Hxy as ->. by rewrite Hyz.
  - apply N.eqb_eq in Hxy as ->. apply N.eqb_eq in Hyz as ->.
    rewrite N.eqb_refl, (IH b c) by done. by rewrite orb_true_r.
Qed.

Lemma str_leb_antisym a : ∀ b, str_leb a b = true -> str_leb b a = true -> a = b.
Proof.
  induction a as [|x a IH]; intros [|y b]; cbn; try done.
  intros [Hxy|[Hxy Hab]%andb_prop]%orb_prop [Hyx|[Hyx Hba]%andb_prop]%orb_prop.
  - apply N.ltb_lt in Hxy, Hyx. lia.
  - apply N.ltb_lt in Hxy. apply N.eqb_eq in Hyx. lia.
  - apply N.ltb_lt in Hyx. apply N.eqb_eq in Hxy. lia.
  - apply N.eqb_eq in Hxy as ->. f_equal. by apply IH.
Qed.

Context {A : Type} (key : A -> pystr).

Lemma insort_perm x : ∀ l, insort key x l ≡ₚ x :: l.
Proof.
  induction l as [|y t IH]; [done|]. cbn [insort].
  destruct (str_leb (key x) (key y)); [done|]. rewrite IH. apply Permutation_swap.
Qed.

Lemma sorted_by_perm l : sorted_by key l ≡ₚ l.
Proof.
  induction l as [|x l IH]; [done|]. cbn [sorted_by foldr].
  rewrite insort_perm. by f_equiv.
Qed.

Lemma insort_sorted x : ∀ l,
  StronglySorted (fun a b => str_leb (key a) (key b) = true) l ->
  StronglySorted (fun a b => str_leb (key a) (key b) = true) (insort key x l).
Proof.
  induction l as [|y t IH]; intros H; cbn [insort].
  - constructor; [constructor|done].
  - apply StronglySorted_inv in H as [Ht Hy].
    destruct (str_leb (key x) (key y)) eqn:E.
    + constructor; [by constructor|]. constructor; [done|].
      eapply Forall_impl; [exact Hy|]. intros z Hz. cbn in Hz. by eapply str_leb_trans.
    + constructor; [by apply IH|].
      apply Forall_forall. intros z Hz. rewrite insort_perm in Hz.
      apply elem_of_cons in Hz as [->|Hz].
      * destruct (str_leb_total (key x) (key y)); [congruence|done].
      * rewrite Forall_forall in Hy. by apply Hy.
Qed.

Lemma sorted_by_sorted l :
  StronglySorted (fun a b => str_leb (key a) (key b) = true) (sorted_by key l).
Proof.
  induction l as [|x l IH]; [constructor|]. cbn [sorted_by foldr]. by apply insort_sorted.
Qed.

End Sorting.

Section Children.

Variable rt : runtime.
Variable env : host.

Lemma startswith_app pre : ∀ s, Str.startswith pre s = true -> ∃ rest, s = pre ++ rest.
Proof.
  induction pre as [|a pre IH]; intros s H; [by exists s|].
  destruct s as [|b s]; [done|]. cbn in H. apply andb_prop in H as [->%N.eqb_eq H].
  destruct (IH s H) as (rest & ->). by exists rest.
Qed.

(** X12: the children of a title are the keys of the public page set
    that start with the title and [/], each as often as it is a key, in
    ascending order of code points; the title itself is never among
    them. *)
Theorem get_page_children_spec title (public_pages : list (list N * page_info)) :
  (∀ child, child ∈ get_page_children title public_pages
            ↔ child ∈ dict_keys public_pages
              ∧ Str.startswith (title ++ py "/") child = true)
  ∧ get_page_children title public_pages
    ≡ₚ List.filter (Str.startswith (title ++ py "/")) (dict_keys public_pages)
  ∧ StronglySorted (fun a b => str_leb a b = true) (get_page_children title public_pages)
  ∧ title ∉ get_page_children title public_pages.
Proof.
  assert (Hperm : get_page_children title public_pages
                  ≡ₚ List.filter (Str.startswith (title ++ py "/")) (dict_keys public_pages))
    by apply sorted_by_perm.
  assert (Hmem : ∀ child, child ∈ get_page_children title public_pages
                  ↔ child ∈ dict_keys public_pages
                    ∧ Str.startswith (title ++ py "/") child = true).
  { intros child. rewrite Hperm. rewrite list_elem_of_In, filter_In, <- list_elem_of_In. done. }
  split; [done|]. split; [done|]. split; [apply (sorted_by_sorted (fun s => s))|].
  intros [_ H]%Hmem. apply startswith_app in H as (rest & H).
  apply (f_equal length) in H. rewrite !length_app in H. cbn in H. lia.
Qed.


End Children.


(** * Titles and their parts *)

Section Titles.

Lemma split_nonempty sep s : Str.split sep s ≠ [].
Proof. destruct s as [|c t]; [done|]. cbn. destruct (c =? sep); [done|]. by destruct (Str.split sep t). Qed.

Lemma split_cons_eq sep c t :
  Str.split sep (c :: t)
  = if c =? sep then [] :: Str.split sep t
    else match Str.split sep t with
         | l :: ls => (c :: l) :: ls
         | [] => [[c]]
         end.
Proof. done. Qed.

(** Joining the parts with the separator gives the text back. *)
Lemma join_split_sep sep s : Str.join [sep] (Str.split sep s) = s.
Proof.
  induction s as [|c t IH]; [done|]. rewrite split_cons_eq.
  pose proof (split_nonempty sep t) as Hn.
  destruct (Str.split sep t) as [|l ls] eqn:E; [done|].
  destruct (N.eqb_spec c sep) as [->|Hne].
  - change (Str.join [sep] ([] :: l :: ls)) with ([] ++ [sep] ++ Str.join [sep] (l :: ls)).
    by rewrite IH.
  - destruct ls as [|l' ls'].
    + cbn in IH. cbn. by rewrite IH.
    + change (Str.join [sep] ((c :: l) :: l' :: ls'))
        with (c :: (l ++ [sep] ++ Str.join [sep] (l' :: ls'))).
      change (Str.join [sep] (l :: l' :: ls'))
        with (l ++ [sep] ++ Str.join [sep] (l' :: ls')) in IH.
      by rewrite IH.
Qed.

Lemma split_parts_clean sep : ∀ s part, part ∈ Str.split sep s -> sep ∉ part.
Proof.
  induction s as [|c t IH]; intros part Hin.
  - apply list_elem_of_singleton in Hin as ->. by intros ?%elem_of_nil.
  - rewrite split_cons_eq in Hin. destruct (N.eqb_spec c sep) as [->|Hne].
    + apply elem_of_cons in Hin as [->|Hin]; [by intros ?%elem_of_nil|by apply IH].
    + pose proof (split_nonempty sep t) as Hn.
      destruct (Str.split sep t) as [|l ls] eqn:E; [done|].
      apply elem_of_cons in Hin as [->|Hin].
      * intros [->|Hl]%elem_of_cons; [done|]. by apply (IH l); [apply list_elem_of_here|].
      * apply IH. by apply list_elem_of_further.
Qed.

Lemma split_without sep s : sep ∉ s -> Str.split sep s = [s].
Proof.
  induction s as [|c t IH]; intros H; [done|]. rewrite split_cons_eq.
  destruct (N.eqb_spec c sep) as [->|Hne]; [by destruct H; apply list_elem_of_here|].
  rewrite IH; [done|]. intros Ht. apply H. by apply list_elem_of_further.
Qed.

Lemma split_with sep s : sep ∈ s -> (1 < length (Str.split sep s))%nat.
Proof.
  induction s as [|c t IH]; intros H; [by apply elem_of_nil in H|]. rewrite split_cons_eq.
  destruct (N.eqb_spec c sep) as [->|Hne].
  - pose proof (split_nonempty sep t). destruct (Str.split sep t); [done|]. cbn. lia.
  - apply elem_of_cons in H as [->|H]; [done|]. specialize (IH H).
    destruct (Str.split sep t) as [|l ls]; cbn in *; lia.
Qed.

Lemma join_removelast (sep : list N) : ∀ parts : list (list N),
  (1 < length parts)%nat ->
  Str.join sep (removelast parts) ++ sep ++ default [] (last parts) = Str.join sep parts.
Proof.
  induction parts as [|p ps IH]; intros H; [cbn in H; lia|].
  destruct ps as [|q qs]; [cbn in H; lia|].
  destruct qs as [|r rs]; [done|].
  change (removelast (p :: q :: r :: rs)) with (p :: removelast (q :: r :: rs)).
  change (last (p :: q :: r :: rs)) with (last (q :: r :: rs)).
  assert (Hne : removelast (q :: r :: rs) ≠ []) by (cbn; by destruct rs).
  change (Str.join sep (p :: q :: r :: rs)) with (p ++ sep ++ Str.join sep (q :: r :: rs)).
  rewrite <- IH by (cbn; lia).
  destruct (removelast (q :: r :: rs)) as [|x xs] eqn:E; [done|].
  cbn [Str.join]. by rewrite <- !app_assoc.
Qed.

(** X14: the parent path and the last part that the index shows for a
    title with a [/] give the title back when they are joined with [/],
    and the last part holds no [/]; a title without [/] is its own last
    part and its own first part, and has no parent path. *)
Theorem title_parts_round_trip title :
  (code "/" ∈ title ->
     parent_path title ++ py "/" ++ last_part title = title
     ∧ (code "/" ∉ last_part title) ∧ (code "/" ∉ first_part title))
  ∧ (code "/" ∉ title ->
     last_part title = title ∧ first_part title = title ∧ parent_path title = []).
Proof.
  unfold parent_path, last_part, first_part, title_parts. split.
  - intros H. split; [|split].
    + change (py "/") with [code "/"]. rewrite join_removelast by (by apply split_with).
      apply join_split_sep.
    + pose proof (split_nonempty (code "/") title) as Hn.
      destruct (last (Str.split (code "/") title)) as [l|] eqn:E.
      * apply (split_parts_clean _ title). by apply last_Some_elem_of.
      * by apply last_None in E.
    + pose proof (split_nonempty (code "/") title) as Hn.
      destruct (Str.split (code "/") title) as [|l ls] eqn:E; [done|].
      apply (split_parts_clean _ title). rewrite E. apply list_elem_of_here.
  - intros H. by rewrite split_without.
Qed.

End Titles.

Lemma title_parts_round_trip_witness :
  code "/" ∈ py "trip/2024/day1"
  ∧ parent_path (py "trip/2024/day1") = py "trip/2024"
  ∧ last_part (py "trip/2024/day1") = py "day1"
  ∧ parent_path (py "trip/2024/day1") ++ py "/" ++ last_part (py "trip/2024/day1")
    = py "trip/2024/day1".
Proof.
  assert (H : code "/" ∈ py "trip/2024/day1").
  { vm_compute. do 4 apply list_elem_of_further. apply list_elem_of_here. }
  split; [exact H|]. split; [reflexivity|]. split; [reflexivity|].
  exact (proj1 (proj1 (title_parts_round_trip (py "trip/2024/day1")) H)).
Defined.


(** * The page hierarchy *)

Section Hierarchy.

Lemma dict_get_set {V} k (v : V) k' : ∀ d,
  dict_get k' (dict_set k v d) = if Str.eqb k' k then Some v else dict_get k' d.
Proof.
  induction d as [|[k0 v0] d IH]; cbn [dict_set dict_get]; [done|].
  unfold Str.eqb in *. destruct (decide (k = k0)) as [->|Hne].
  - rewrite (bool_decide_eq_true_2 (k0 = k0)) by done. cbn [dict_get]. unfold Str.eqb.
    by destruct (decide (k' = k0)) as [->|?]; [rewrite !bool_decide_eq_true_2|
                                              rewrite !bool_decide_eq_false_2].
  - rewrite (bool_decide_eq_false_2 (k = k0)) by done. cbn [dict_get]. unfold Str.eqb. rewrite IH.
    destruct (decide (k' = k0)) as [->|?].
    + rewrite (bool_decide_eq_true_2 (k0 = k0)) by done.
      by rewrite (bool_decide_eq_false_2 (k0 = k)) by done.
    + by rewrite (bool_decide_eq_false_2 (k' = k0)) by done.
Qed.

Lemma elem_of_snoc {A} (l : list A) x y : y ∈ l ++ [x] -> y ∈ l ∨ y = x.
Proof. intros [H|H%list_elem_of_singleton]%elem_of_app; auto. Qed.

Lemma dict_mem_get {V} k (d : list (list N * V)) :
  dict_mem k d = true ↔ is_Some (dict_get k d).
Proof. unfold dict_mem. destruct (dict_get k d); split; try done. Qed.

(** A loop keeps what each of its iterations keeps; the invariant may
    speak of the items that were handled. *)
Lemma foldl_prefix {A B} (f : B -> A -> B) (I : list A -> B -> Prop) l :
  (∀ pre x post b, l = pre ++ x :: post -> I pre b -> I (pre ++ [x]) (f b x)) ->
  ∀ b, I [] b -> I l (foldl f b l).
Proof.
  intros Hstep.
  assert (Hgen : ∀ post pre b, l = pre ++ post -> I pre b -> I l (foldl f b post)).
  { induction post as [|x post IH]; intros pre b Hl Hb.
    - rewrite app_nil_r in Hl. by subst.
    - cbn [foldl]. apply (IH (pre ++ [x])); [by rewrite <- app_assoc|]. by eapply Hstep. }
  intros b Hb. by apply (Hgen l []).
Qed.

Lemma foldM_prefix {A B} (f : B -> A -> outcome B) (I : list A -> B -> Prop) l :
  (∀ pre x post b, l = pre ++ x :: post -> I pre b ->
     ∃ b', f b x = Return b' ∧ I (pre ++ [x]) b') ->
  ∀ b, I [] b -> ∃ b', foldM f l b = Return b' ∧ I l b'.
Proof.
  intros Hstep.
  assert (Hgen : ∀ post pre b, l = pre ++ post -> I pre b ->
            ∃ b', foldM f post b = Return b' ∧ I l b').
  { induction post as [|x post IH]; intros pre b Hl Hb.
    - rewrite app_nil_r in Hl. subst. by exists b.
    - cbn [foldM]. destruct (Hstep pre x post b Hl Hb) as (b' & -> & Hb').
      cbn [mbind outcome_bind]. apply (IH (pre ++ [x])); [by rewrite <- app_assoc|done]. }
  intros b Hb. by apply (Hgen l []).
Qed.

Lemma first_part_part title : code "/" ∉ first_part title.
Proof.
  unfold first_part, title_parts.
  pose proof (split_nonempty (code "/") title) as Hn.
  destruct (Str.split (code "/") title) as [|l ls] eqn:E; [done|].
  apply (split_parts_clean _ title). rewrite E. apply list_elem_of_here.
Qed.

Lemma title_parts_first title : code "/" ∉ title -> first_part title = title.
Proof. intros H. unfold first_part, title_parts. by rewrite split_without. Qed.

Lemma parts_one title :
  (length (title_parts title) =? 1)%nat = true ↔ code "/" ∉ title.
Proof.
  unfold title_parts. split.
  - intros H%Nat.eqb_eq Hin. apply split_with in Hin. lia.
  - intros H. by rewrite split_without.
Qed.

Lemma parts_many title :
  (1 <? length (title_parts title))%nat = true ↔ code "/" ∈ title.
Proof.
  unfold title_parts. split.
  - intros H%Nat.ltb_lt. destruct (decide (code "/" ∈ title)) as [|Hn]; [done|].
    rewrite split_without in H by done. cbn in H. lia.
  - intros H. by apply Nat.ltb_lt, split_with.
Qed.

Lemma base_step_inv pages pre x post b :
  pages = pre ++ x :: post -> base_inv pages pre b -> base_inv pages (pre ++ [x]) (base_step b x).
Proof.
  intros Hl (Hentries & Hdone & Htop). destruct x as [title info].
  assert (Hx : (title, info) ∈ pages).
  { rewrite Hl. apply elem_of_app. right. apply list_elem_of_here. }
  unfold base_step. fold (first_part title).
  destruct (length (title_parts title) =? 1)%nat eqn:Eone.
  - apply parts_one in Eone.
    assert (Hfirst : first_part title = title) by (by apply title_parts_first).
    rewrite Hfirst. split; [|split].
    + intros category b0. rewrite dict_get_set. unfold Str.eqb. case_bool_decide as Ek.
      * intros [= <-]. subst category. cbn. by rewrite bool_decide_eq_true_2.
      * apply Hentries.
    + intros item [Hin| ->]%elem_of_snoc; rewrite dict_get_set.
      * destruct (Str.eqb _ _); [done|]. by apply Hdone.
      * cbn [fst]. rewrite Hfirst. unfold Str.eqb. by rewrite bool_decide_eq_true_2.
    + intros item [Hin| ->]%elem_of_snoc Hno; rewrite dict_get_set;
        unfold Str.eqb; case_bool_decide as Ek.
      * eexists. split; [done|]. done.
      * by apply Htop.
      * eexists. split; [done|]. done.
      * done.
  - assert (Hmany : code "/" ∈ title).
    { destruct (decide (code "/" ∈ title)) as [|Hn]; [done|].
      apply parts_one in Hn. congruence. }
    destruct (dict_mem (first_part title) b) eqn:Emem; cbn [negb].
    + split; [done|]. split.
      * intros item [Hin| ->]%elem_of_snoc; [by apply Hdone|].
        by apply dict_mem_get.
      * intros item [Hin| ->]%elem_of_snoc Hno; [by apply Htop|done].
    + assert (Hnone : dict_get (first_part title) b = None).
      { unfold dict_mem in Emem. by destruct (dict_get (first_part title) b). }
      split; [|split].
      * intros category b0. rewrite dict_get_set. unfold Str.eqb. case_bool_decide as Ek.
        -- intros [= <-]. subst category. cbn. split; [done|]. split; [done|].
           rewrite bool_decide_eq_false_2; [done|]. intros Heq.
           apply (first_part_part title). by rewrite <- Heq.
        -- apply Hentries.
      * intros item [Hin| ->]%elem_of_snoc; rewrite dict_get_set.
        -- destruct (Str.eqb _ _); [done|]. by apply Hdone.
        -- cbn [fst]. unfold Str.eqb. by rewrite bool_decide_eq_true_2.
      * intros item [Hin| ->]%elem_of_snoc Hno; [|done].
        rewrite dict_get_set. unfold Str.eqb. case_bool_decide as Ek; [|by apply Htop].
        destruct (Htop item Hin Hno) as (b0 & Hb0 & _). congruence.
Qed.

Lemma base_loop_inv pages : base_inv pages pages (foldl base_step [] pages).
Proof.
  apply (foldl_prefix base_step (base_inv pages) pages).
  - intros pre x post b. apply base_step_inv.
  - split; [done|]. split; by intros item ?%elem_of_nil.
Qed.

Lemma child_step_inv pages base_pages pre x post child_pages :
  base_inv pages pages base_pages ->
  pages = pre ++ x :: post -> child_inv pages base_pages pre child_pages ->
  ∃ child_pages', child_step base_pages child_pages x = Return child_pages'
    ∧ child_inv pages base_pages (pre ++ [x]) child_pages'.
Proof.
  intros (Hentries & Hall & _) Hl (Hkids & Hdone). destruct x as [title info].
  assert (Hx : (title, info) ∈ pages).
  { rewrite Hl. apply elem_of_app. right. apply list_elem_of_here. }
  unfold child_step. fold (first_part title).
  destruct (1 <? length (title_parts title))%nat eqn:Emany.
  - apply parts_many in Emany.
    destruct (Hall _ Hx) as [b Hb]. cbn [fst] in Hb. rewrite Hb.
    set (cp := if negb (dict_mem (first_part title) child_pages)
               then dict_set (first_part title) [] child_pages else child_pages).
    assert (Hcp : ∀ category kids, dict_get category cp = Some kids ->
              dict_get category child_pages = Some kids
              ∨ (category = first_part title ∧ kids = []
                 ∧ dict_get category child_pages = None)).
    { intros category kids. unfold cp.
      destruct (dict_mem (first_part title) child_pages) eqn:Em; cbn [negb]; [by left|].
      rewrite dict_get_set. unfold Str.eqb. case_bool_decide as Ek; [|by left].
      intros [= <-]. right. subst category. split; [done|]. split; [done|].
      unfold dict_mem in Em. by destruct (dict_get (first_part title) child_pages). }
    assert (Hcp_mono : ∀ category kids, dict_get category child_pages = Some kids ->
              dict_get category cp = Some kids).
    { intros category kids Hk. unfold cp.
      destruct (dict_mem (first_part title) child_pages) eqn:Em; cbn [negb]; [done|].
      rewrite dict_get_set. unfold Str.eqb. case_bool_decide as Ek; [|done]. subst category.
      unfold dict_mem in Em. by rewrite Hk in Em. }
    assert (Hcp_here : is_Some (dict_get (first_part title) cp)).
    { unfold cp. destruct (dict_mem (first_part title) child_pages) eqn:Em; cbn [negb].
      - by apply dict_mem_get.
      - rewrite dict_get_set. unfold Str.eqb. by rewrite bool_decide_eq_true_2. }
    assert (Hcp_kids : ∀ category kids k, dict_get category cp = Some kids -> k ∈ kids ->
              (child_title k, child_info k) ∈ pages
              ∧ code "/" ∈ child_title k
              ∧ first_part (child_title k) = category
              ∧ depth k = (length (title_parts (child_title k)) - 1)%nat
              ∧ ∀ b, dict_get category base_pages = Some b -> child_title k ≠ base_title b).
    { intros category kids k [Hold|(_ & -> & _)]%Hcp Hk; [by eapply Hkids|].
      by apply elem_of_nil in Hk. }
    destruct (Str.eqb title (base_title b)) eqn:Eself; cbn [negb].
    + apply bool_decide_eq_true in Eself. eexists. split; [done|]. split; [done|].
      intros item [Hin| ->]%elem_of_snoc Hsl.
      * destruct (Hdone item Hin Hsl) as (kids & Hk & Hmem).
        exists kids. split; [by apply Hcp_mono|done].
      * cbn [fst snd]. destruct Hcp_here as [kids Hk]. exists kids. split; [done|].
        intros b0 Hb0 Hne. congruence.
    + apply bool_decide_eq_false in Eself. eexists. split; [done|].
      destruct Hcp_here as [kids0 Hk0]. rewrite Hk0. cbn [default]. unfold id. split.
      * intros category kids k. rewrite dict_get_set. unfold Str.eqb.
        case_bool_decide as Ek; [|by apply Hcp_kids].
        intros [= <-]. subst category.
        intros [Hin| ->]%elem_of_snoc; [by eapply Hcp_kids|].
        cbn. split; [done|]. split; [done|]. split; [done|]. split; [done|].
        intros b0 Hb0. congruence.
      * intros item [Hin| ->]%elem_of_snoc Hsl; rewrite dict_get_set;
          unfold Str.eqb; case_bool_decide as Ek.
        -- eexists. split; [done|]. intros b0 Hb0 Hne.
           apply elem_of_app. left.
           destruct (Hdone item Hin Hsl) as (kids & Hk & Hmem).
           apply Hcp_mono in Hk. rewrite Ek in Hk. rewrite Hk0 in Hk. injection Hk as <-.
           by apply (Hmem b0).
        -- destruct (Hdone item Hin Hsl) as (kids & Hk & Hmem).
           exists kids. split; [by apply Hcp_mono|done].
        -- eexists. split; [done|]. intros b0 Hb0 Hne. apply elem_of_app. right.
           cbn [fst snd]. apply list_elem_of_here.
        -- done.
  - eexists. split; [done|]. split; [done|].
    intros item [Hin| ->]%elem_of_snoc Hsl; [by apply Hdone|].
    cbn [fst] in Hsl. apply parts_many in Hsl. congruence.
Qed.

Lemma child_loop_inv pages :
  ∃ child_pages,
    foldM (child_step (foldl base_step [] pages)) pages [] = Return child_pages
    ∧ child_inv pages (foldl base_step [] pages) pages child_pages.
Proof.
  apply (foldM_prefix _ (child_inv pages (foldl base_step [] pages)) pages).
  - intros pre x post b. apply child_step_inv, base_loop_inv.
  - split; [done|]. by intros item ?%elem_of_nil.
Qed.

(** X15: [get_page_hierarchy] returns for every mapping: the lookup of the
    base page of a category in its second loop never misses.  Every
    title has a base page under its first part; a base page is a page of
    its category, flagged [is_base] exactly when its title is the
    category itself, and a page whose title has no [/] is the base page
    of its category whatever comes before or after it. *)
Theorem get_page_hierarchy_total (pages : list (list N * page_info)) :
  ∃ base_pages child_pages,
    get_page_hierarchy pages = Return (base_pages, child_pages)
    ∧ (∀ title info, (title, info) ∈ pages ->
         is_Some (dict_get (first_part title) base_pages))
    ∧ (∀ category b, dict_get category base_pages = Some b ->
         first_part (base_title b) = category
         ∧ (base_title b, base_info b) ∈ pages
         ∧ is_base b = bool_decide (base_title b = category))
    ∧ (∀ title info, (title, info) ∈ pages -> code "/" ∉ title ->
         ∃ b, dict_get title base_pages = Some b ∧ base_title b = title ∧ is_base b = true).
Proof.
  destruct (child_loop_inv pages) as (child_pages & Hrun & _).
  destruct (base_loop_inv pages) as (Hentries & Hall & Htop).
  exists (foldl base_step [] pages), child_pages. split.
  - unfold get_page_hierarchy. by rewrite Hrun.
  - split; [intros title info Hin; by apply (Hall (title, info))|]. split; [done|].
    intros title info Hin Hno. destruct (Htop (title, info) Hin Hno) as (b & Hb & Ht).
    exists b. split; [done|]. split; [done|].
    destruct (Hentries _ _ Hb) as (_ & _ & ->). cbn [fst] in Ht. by rewrite bool_decide_eq_true_2.
Qed.

(** X16: the children [get_page_hierarchy] files under a category are
    pages of that category whose title has a [/] and is not the title of
    the base page of the category, with the number of [/] in the title as
    their depth; and every such page of the mapping is filed there. *)
Theorem get_page_hierarchy_children (pages : list (list N * page_info)) base_pages child_pages :
  get_page_hierarchy pages = Return (base_pages, child_pages) ->
  (∀ category kids k, dict_get category child_pages = Some kids -> k ∈ kids ->
     (child_title k, child_info k) ∈ pages
     ∧ code "/" ∈ child_title k
     ∧ first_part (child_title k) = category
     ∧ depth k = (length (title_parts (child_title k)) - 1)%nat
     ∧ (1 <= depth k)%nat
     ∧ ∀ b, dict_get category base_pages = Some b -> child_title k ≠ base_title b)
  ∧ (∀ title info, (title, info) ∈ pages -> code "/" ∈ title ->
       ∃ kids b, dict_get (first_part title) child_pages = Some kids
         ∧ dict_get (first_part title) base_pages = Some b
         ∧ (title ≠ base_title b ->
            ChildPage title info (length (title_parts title) - 1) ∈ kids)).
Proof.
  destruct (child_loop_inv pages) as (cp & Hrun & Hkids & Hdone).
  destruct (base_loop_inv pages) as (_ & Hall & _).
  unfold get_page_hierarchy. rewrite Hrun. cbn [mbind outcome_bind]. intros [= <- <-]. split.
  - intros category kids k Hk Hin.
    destruct (Hkids category kids k Hk Hin) as (H1 & H2 & H3 & H4 & H5).
    repeat (split; [done|]). split; [|done].
    rewrite H4. apply parts_many in H2. apply Nat.ltb_lt in H2. lia.
  - intros title info Hin Hsl.
    destruct (Hdone (title, info) Hin Hsl) as (kids & Hk & Hmem).
    destruct (Hall (title, info) Hin) as [b Hb]. exists kids, b.
    split; [done|]. split; [done|]. intros Hne. by apply (Hmem b).
Qed.

End Hierarchy.

Lemma get_page_hierarchy_children_witness :
  ∃ base_pages child_pages,
    get_page_hierarchy sample_titles = Return (base_pages, child_pages)
    ∧ dict_get (py "trip") child_pages
      = Some [ ChildPage (py "trip/day1") (PageInfo (py "u-2") (py "trip/day1") false) 1;
               ChildPage (py "trip/day2/evening")
                 (PageInfo (py "u-3") (py "trip/day2/evening") false) 2 ]
    ∧ dict_get (py "crew") child_pages = Some []
    ∧ ∀ category kids k, dict_get category child_pages = Some kids -> k ∈ kids ->
        (1 <= depth k)%nat.
Proof.
  eexists _, _. split; [vm_compute; reflexivity|]. split; [reflexivity|]. split; [reflexivity|].
  intros category kids k Hk Hin.
  exact (proj1 (proj2 (proj2 (proj2 (proj2
    (proj1 (get_page_hierarchy_children sample_titles _ _ eq_refl) category kids k Hk Hin)))))).
Defined.


(** * Excerpts *)

Section Excerpts.

Variable rt : runtime.
Variable env : host.

Lemma find_first_content_clean : ∀ b c,
  find_first_content b = Return c ->
  c = [] ∨ (Str.strip c = c ∧ Str.contains (py "::") c = false).
Proof.
  fix IH 1. intros [|uuid content children other] c; [done|]. cbn [find_first_content].
  destruct (negb (Str.truthy (Str.strip (default [] content)))
            || Str.contains (py "::") (Str.strip (default [] content))
            || Str.startswith (py "public::") (Str.strip (default [] content))) eqn:E.
  - destruct children as [[|child rest]|]; [by intros [= <-]; left| |by intros [= <-]; left].
    generalize (child :: rest). intros l. induction l as [|b t IHl]; [by intros [= <-]; left|].
    cbn [first_content_in]. destruct (find_first_content b) as [c'|e] eqn:Eb; [|done].
    cbn [mbind outcome_bind]. destruct (Str.truthy c'); [|exact IHl].
    intros [= <-]. by apply (IH b).
  - intros [= <-]. right. apply orb_false_elim in E as [E _].
    apply orb_false_elim in E as [_ E]. split; [apply strip_idem|done].
Qed.

(** X17: the text [find_first_content] picks for an excerpt is empty, or
    it is trimmed and holds no [::]: a property block is never quoted. *)
Theorem find_first_content_plain bs c :
  find_first_content_of bs = Return c ->
  c = [] ∨ (c ≠ [] ∧ Str.strip c = c ∧ Str.contains (py "::") c = false).
Proof.
  assert (Hone : ∀ b c', find_first_content b = Return c' ->
            c' = [] ∨ (c' ≠ [] ∧ Str.strip c' = c' ∧ Str.contains (py "::") c' = false)).
  { intros b c' [->|H]%find_first_content_clean; [by left|].
    destruct c' as [|x c']; [by left|]. by right. }
  destruct bs as [l|b]; cbn [find_first_content_of]; [|apply Hone].
  induction l as [|b t IHl]; [by intros [= <-]; left|].
  cbn [first_content_in]. destruct (find_first_content b) as [c'|e] eqn:Eb; [|done].
  cbn [mbind outcome_bind]. destruct (Str.truthy c'); [|exact IHl].
  intros [= <-]. by apply (Hone b).
Qed.

Lemma first_sentence_of_short content : (length (first_sentence_of content) <= 150)%nat.
Proof.
  unfold first_sentence_of. destruct (split_sentences _ _ _) as [|first rest]; [cbn; lia|].
  destruct (Nat.ltb_spec 150 (length (Str.strip first))); [|done].
  rewrite length_app, length_take. change (length (py "...")) with 3%nat. lia.
Qed.

(** X18: an excerpt that [get_first_sentence] returns has at most 150
    characters, whatever the page holds. *)
Theorem get_first_sentence_short page_name s :
  get_first_sentence rt env page_name = Return s ->
  (length s <= 150)%nat.
Proof.
  unfold get_first_sentence. destruct (all_pages rt) as [pages|]; [|done].
  destruct (find_page page_name pages) as [page|]; [|by intros [= <-]; cbn; lia].
  destruct (page_falsy page); [by intros [= <-]; cbn; lia|].
  destruct (page_uuid page) as [uuid|]; [|done].
  destruct (get_page_blocks_tree env uuid) as [bs|]; [|by intros [= <-]; cbn; lia].
  destruct (blocks_falsy bs); [by intros [= <-]; cbn; lia|].
  destruct (find_first_content_of bs) as [content|e]; [|done].
  cbn [mbind outcome_bind]. intros [= <-]. apply first_sentence_of_short.
Qed.

End Excerpts.

Lemma find_first_content_plain_witness :
  find_first_content_of (BlockList
      [ Node None (Some (py "public:: children"))
          (Some [Node None (Some (py " The crew sails. ")) None true]) true ])
  = Return (py "The crew sails.")
  ∧ Str.contains (py "::") (py "The crew sails.") = false.
Proof.
  assert (H : find_first_content_of (BlockList
      [ Node None (Some (py "public:: children"))
          (Some [Node None (Some (py " The crew sails. ")) None true]) true ])
    = Return (py "The crew sails.")) by (vm_compute; reflexivity).
  split; [exact H|].
  destruct (find_first_content_plain _ _ H) as [Hnil|(_ & _ & Hc)]; [discriminate Hnil|exact Hc].
Defined.

Lemma get_first_sentence_short_witness :
  get_first_sentence (with_pages trip_pages) sample_host (py "trip")
  = Return (py "The crew sails at dawn.")
  ∧ (length (py "The crew sails at dawn.") <= 150)%nat.
Proof.
  assert (H : get_first_sentence (with_pages trip_pages) sample_host (py "trip")
              = Return (py "The crew sails at dawn.")) by (vm_compute; reflexivity).
  split; [exact H|].
  exact (get_first_sentence_short (with_pages trip_pages) sample_host _ _ H).
Defined.


(** * Documents and the run *)

Section Run.

Variable rt : runtime.
Variable env : host.

(** A key of the public page set is the trimmed title of a page of the
    graph, and it is not empty. *)
Lemma public_key_page pages title :
  all_pages rt = Some pages ->
  title ∈ dict_keys (get_public_pages rt) ->
  Str.truthy title = true ∧ ∃ q, q ∈ pages ∧ page_key q = title.
Proof.
  intros Hall Hin. apply list_elem_of_fmap in Hin as ([t info] & -> & Hin). cbn [fst].
  unfold get_public_pages in Hin. rewrite Hall in Hin.
  destruct pages as [|p0 pages]; [by apply elem_of_nil in Hin|].
  revert Hin.
  apply (visit_pages_entries rt (p0 :: pages)
           (fun x => Str.truthy x.1 = true ∧ ∃ q, q ∈ p0 :: pages ∧ page_key q = x.1) Hall).
  - intros q u Hq _ _ Hk _. split; [done|]. by exists q.
  - done.
  - intros x Hx. by apply elem_of_nil in Hx.
Qed.

Lemma find_page_some pages title q :
  q ∈ pages -> page_key q = title ->
  ∃ page, find_page title pages = Some page ∧ page ∈ pages ∧ page_key page = title.
Proof.
  intros Hq Hk. unfold find_page.
  destruct (find (fun p => Str.eqb (page_key p) title) pages) as [page|] eqn:E.
  - apply find_some in E as [Hin He]. exists page. split; [done|].
    split; [by apply list_elem_of_In|]. by apply bool_decide_eq_true in He.
  - apply list_elem_of_In in Hq. apply (find_none _ _ E q) in Hq.
    apply bool_decide_eq_false in Hq. done.
Qed.

Lemma page_falsy_key page : page_falsy page = true -> page_key page = [].
Proof. by destruct page as [[?|] [?|] [?|] [?|]]. Qed.

(** X19: for a title of the public page set the lookup of
    [export_page_to_html] finds a page of the graph with that trimmed
    title.  The export is then given up with [None] only when the API
    has nothing for the page or for its blocks; it raises [KeyError]
    only when the page it found has no name or no identifier; any other
    exception comes from the file system, while the images are
    processed. *)
Theorem export_public_page pages title (public_pages : list (list N * page_info)) :
  all_pages rt = Some pages ->
  title ∈ dict_keys (get_public_pages rt) ->
  ∃ page, find_page title pages = Some page ∧ page ∈ pages ∧ page_key page = title
    ∧ match export_page_to_html rt env title public_pages with
      | Return (Some html) => True
      | Return None =>
          ∃ name, name_field page = Some name
            ∧ (get_page env name = false
               ∨ ∃ uuid, page_uuid page = Some uuid
                   ∧ match get_page_blocks_tree env uuid with
                     | Some bs => blocks_falsy bs = true
                     | None => True
                     end)
      | Throw KeyError => name_field page = None ∨ page_uuid page = None
      | Throw (Os _) => True
      | Throw _ => False
      end.
Proof.
  intros Hall Hin. destruct (public_key_page pages title Hall Hin) as (Ht & q & Hq & Hk).
  destruct (find_page_some pages title q Hq Hk) as (page & Hfind & Hpage & Hkey).
  exists page. split; [done|]. split; [done|]. split; [done|].
  unfold export_page_to_html. rewrite Hall, Hfind.
  destruct (page_falsy page) eqn:Ef.
  { apply page_falsy_key in Ef. rewrite <- Hkey, Ef in Ht. discriminate Ht. }
  destruct (name_field page) as [name|]; [|by left].
  destruct (get_page env name) eqn:Eg; cbn [negb]; [|exists name; split; [done|by left]].
  destruct (page_uuid page) as [uuid|]; [|by right].
  destruct (get_page_blocks_tree env uuid) as [bs|] eqn:Eb;
    [|exists name; split; [done|]; right; exists uuid; by rewrite Eb].
  destruct (blocks_falsy bs) eqn:Ebs;
    [exists name; split; [done|]; right; exists uuid; by rewrite Eb|].
  destruct bs as [l|b].
  - destruct (mapM (process_block rt public_pages) l); done.
  - destruct (process_block rt public_pages b); done.
Qed.

Lemma foldM_returns {A B} (f : B -> A -> outcome B) (I : B -> Prop) : ∀ l b b',
  (∀ b x b', x ∈ l -> I b -> f b x = Return b' -> I b') ->
  I b -> foldM f l b = Return b' -> I b'.
Proof.
  induction l as [|x l IH]; intros b b' Hstep Hb; cbn [foldM]; [by intros [= <-]|].
  destruct (f b x) as [b1|e] eqn:E; [|done]. cbn [mbind outcome_bind].
  apply IH.
  - intros b2 y b3 Hy. apply Hstep. by apply list_elem_of_further.
  - eapply Hstep; [apply list_elem_of_here|done..].
Qed.

Lemma foldM_throws {A B} (f : B -> A -> outcome B) (P : error -> Prop) : ∀ l b e,
  (∀ b x e, f b x = Throw e -> P e) -> foldM f l b = Throw e -> P e.
Proof.
  induction l as [|x l IH]; intros b e Hstep; cbn [foldM]; [done|].
  destruct (f b x) as [b1|e1] eqn:E; cbn [mbind outcome_bind].
  - by apply IH.
  - intros [= <-]. by eapply Hstep.
Qed.

Lemma find_first_content_throws : ∀ b e, find_first_content b = Throw e -> e = AttributeError.
Proof.
  fix IH 1. intros [|uuid content children other] e; [by intros [= <-]|].
  cbn [find_first_content]. destruct (_ || _ || _); [|done].
  destruct children as [[|child rest]|]; [done| |done].
  generalize (child :: rest). intros l. induction l as [|b t IHl]; [done|].
  cbn [first_content_in]. destruct (find_first_content b) as [c'|e'] eqn:Eb.
  - cbn [mbind outcome_bind]. by destruct (Str.truthy c').
  - intros [= <-]. by apply (IH b).
Qed.

Lemma get_first_sentence_throws page_name e :
  get_first_sentence rt env page_name = Throw e ->
  e = TypeError ∨ e = KeyError ∨ e = AttributeError.
Proof.
  unfold get_first_sentence. destruct (all_pages rt) as [pages|]; [|by intros [= <-]; left].
  destruct (find_page page_name pages) as [page|]; [|done].
  destruct (page_falsy page); [done|].
  destruct (page_uuid page) as [uuid|]; [|by intros [= <-]; right; left].
  destruct (get_page_blocks_tree env uuid) as [bs|]; [|done].
  destruct (blocks_falsy bs); [done|].
  destruct (find_first_content_of bs) as [content|e'] eqn:E; [done|].
  intros [= <-]. right. right. destruct bs as [l|b]; cbn [find_first_content_of] in E.
  - revert E. induction l as [|b t IHl]; [done|]. cbn [first_content_in].
    destruct (find_first_content b) as [c'|e1] eqn:Eb.
    + cbn [mbind outcome_bind]. by destruct (Str.truthy c').
    + intros [= <-]. by apply (find_first_content_throws b).
  - by apply (find_first_content_throws b).
Qed.

Lemma generate_index_page_throws public_pages files e :
  generate_index_page rt env public_pages files = Throw e -> ∀ status, e ≠ SystemExit status.
Proof.
  unfold generate_index_page, index_html.
  destruct (foldM _ (sorted_by fst public_pages) _) as [html|e'] eqn:E; cbn [mbind outcome_bind].
  - unfold write_text. destruct (can_write env _); [done|]. by intros [= <-].
  - intros [= <-]. revert E.
    apply (foldM_throws _ (fun e => ∀ status, e ≠ SystemExit status)).
    intros b [title info] e1.
    destruct (get_first_sentence rt env title) as [s|e2] eqn:Es; [done|].
    cbn [mbind outcome_bind]. intros [= <-].
    by destruct (get_first_sentence_throws _ _ Es) as [->|[->| ->]].
Qed.

Lemma export_page_throws title public_pages e :
  export_page_to_html rt env title public_pages = Throw e -> ∀ status, e ≠ SystemExit status.
Proof.
  unfold export_page_to_html. destruct (all_pages rt) as [pages|]; [|by intros [= <-]].
  destruct (find_page title pages) as [page|]; [|done].
  destruct (page_falsy page); [done|].
  destruct (name_field page) as [name|]; [|by intros [= <-]].
  destruct (get_page env name); cbn [negb]; [|done].
  destruct (page_uuid page) as [uuid|]; [|by intros [= <-]].
  destruct (get_page_blocks_tree env uuid) as [bs|]; [|done].
  destruct (blocks_falsy bs); [done|].
  destruct bs as [l|b].
  - destruct (mapM (process_block rt public_pages) l); [done|]. by intros [= <-].
  - destruct (process_block rt public_pages b); [done|]. by intros [= <-].
Qed.

Lemma export_step_throws public_pages files item e :
  export_step rt env public_pages files item = Throw e -> ∀ status, e ≠ SystemExit status.
Proof.
  unfold export_step.
  destruct (export_page_to_html rt env item.1 public_pages) as [html|e'] eqn:E;
    cbn [mbind outcome_bind].
  - destruct html as [[|c html]|]; [done| |done].
    unfold write_text. destruct (can_write env _); [done|]. by intros [= <-].
  - intros [= <-]. by eapply export_page_throws.
Qed.

Lemma public_key_uuid pages title :
  all_pages rt = Some pages ->
  title ∈ dict_keys (get_public_pages rt) ->
  ∃ q u, q ∈ pages ∧ page_key q = title ∧ page_uuid q = Some u.
Proof.
  intros Hall Hin. apply list_elem_of_fmap in Hin as ([t info] & -> & Hin). cbn [fst].
  unfold get_public_pages in Hin. rewrite Hall in Hin.
  destruct pages as [|p0 pages]; [by apply elem_of_nil in Hin|].
  revert Hin.
  apply (visit_pages_entries rt (p0 :: pages)
           (fun x => ∃ q u, q ∈ p0 :: pages ∧ page_key q = x.1 ∧ page_uuid q = Some u) Hall).
  - intros q u Hq Hu _ _ _. by exists q, u.
  - done.
  - intros x Hx. by apply elem_of_nil in Hx.
Qed.

Lemma unique_key (pages : list page) p q :
  NoDup (page_key <$> pages) -> p ∈ pages -> q ∈ pages -> page_key p = page_key q -> p = q.
Proof.
  induction pages as [|x pages IH]; intros Hnd Hp Hq Hk; [by apply elem_of_nil in Hp|].
  cbn [fmap list_fmap] in Hnd. apply NoDup_cons in Hnd as [Hx Hnd].
  apply elem_of_cons in Hp as [->|Hp]; apply elem_of_cons in Hq as [->|Hq]; try done.
  - destruct Hx. rewrite Hk. by apply list_elem_of_fmap_2.
  - destruct Hx. rewrite <- Hk. by apply list_elem_of_fmap_2.
  - by apply IH.
Qed.

(** X20: in a graph whose trimmed titles are distinct, the excerpt of a
    title of the public page set is computed without a failed lookup:
    [get_first_sentence] raises for it only when the block tree holds a
    null block. *)
Theorem get_first_sentence_public pages title e :
  all_pages rt = Some pages -> NoDup (page_key <$> pages) ->
  title ∈ dict_keys (get_public_pages rt) ->
  get_first_sentence rt env title = Throw e -> e = AttributeError.
Proof.
  intros Hall Hnd Hin Hthrow.
  destruct (public_key_uuid pages title Hall Hin) as (q & u & Hq & Hk & Hu).
  destruct (find_page_some pages title q Hq Hk) as (page & Hfind & Hpage & Hkey).
  assert (page = q) as -> by (apply (unique_key pages); congruence).
  destruct (get_first_sentence_throws _ _ Hthrow) as [->|[->| ->]]; [| |done];
    revert Hthrow; unfold get_first_sentence; rewrite Hall, Hfind, Hu;
    destruct (page_falsy q); try done;
    destruct (get_page_blocks_tree env u) as [bs|]; try done;
    destruct (blocks_falsy bs); try done;
    destruct (find_first_content_of bs) as [c|e'] eqn:E; try done;
    cbn [mbind outcome_bind]; intros [= ->];
    (destruct bs as [l|b]; cbn [find_first_content_of] in E;
     [|by apply find_first_content_throws in E]);
    exfalso; revert E; (induction l as [|b t IHl]; [done|]); cbn [first_content_in];
    (destruct (find_first_content b) as [c'|e1] eqn:Eb;
     [cbn [mbind outcome_bind]; by destruct (Str.truthy c')|]);
    intros [= ->]; by apply find_first_content_throws in Eb.
Qed.

Hypothesis lower_ok : lower_on_ascii rt.

Lemma page_path title :
  Path.join OUTPUT_DIR (sanitize_filename rt title ++ py ".html")
  = py "html-output/" ++ sanitize_filename rt title ++ py ".html".
Proof.
  pose proof (sanitize_filename_class rt lower_ok title) as Hclass.
  unfold Path.join.
  replace (Str.startswith [Path.sep] (sanitize_filename rt title ++ py ".html")) with false;
    [done|].
  destruct (sanitize_filename rt title) as [|c t]; [done|].
  cbn [forallb] in Hclass. apply andb_prop in Hclass as [Hc _].
  cbn [app Str.startswith]. rewrite andb_true_r. rewrite filename_char_eq in Hc.
  change Path.sep with 47. symmetry. apply N.eqb_neq. intros <-. done.
Qed.

(** X21: when [main] returns, the public page set was not empty and the
    text files it has written are [html-output/index.html] and files
    [html-output/NAME.html], where NAME is the sanitized title of a
    public page: the index holds the index page or, when a title has the
    filename [index], the export of such a page, and every other file
    holds the export of a page with that filename.  [main] exits with a
    status only after the output directory was set up, with status 1 and
    an empty public page set. *)
Theorem main_files :
  match main rt env with
  | Return files =>
      setup_ok env = true ∧ get_public_pages rt ≠ []
      ∧ is_Some (dict_get (py "html-output/index.html") files)
      ∧ ∀ path text, dict_get path files = Some text ->
          (path = py "html-output/index.html"
           ∧ index_html rt env (get_public_pages rt) = Return text)
          ∨ ∃ title, title ∈ dict_keys (get_public_pages rt)
              ∧ path = py "html-output/" ++ sanitize_filename rt title ++ py ".html"
              ∧ export_page_to_html rt env title (get_public_pages rt) = Return (Some text)
  | Throw (SystemExit status) =>
      setup_ok env = true ∧ status = 1%Z ∧ get_public_pages rt = []
  | Throw _ => True
  end.
Proof.
  unfold main. destruct (setup_ok env); cbn [negb]; [|done].
  case_bool_decide as Hpp; [done|].
  set (pp := get_public_pages rt) in *.
  set (I := fun files : list (list N * list N) =>
    is_Some (dict_get (py "html-output/index.html") files)
    ∧ ∀ path text, dict_get path files = Some text ->
        (path = py "html-output/index.html" ∧ index_html rt env pp = Return text)
        ∨ ∃ title, title ∈ dict_keys pp
            ∧ path = py "html-output/" ++ sanitize_filename rt title ++ py ".html"
            ∧ export_page_to_html rt env title pp = Return (Some text)).
  destruct (generate_index_page rt env pp []) as [files0|e0] eqn:Eidx; cbn [mbind outcome_bind].
  - assert (H0 : I files0).
    { revert Eidx. unfold generate_index_page.
      destruct (index_html rt env pp) as [html|e1]; [|done]. cbn [mbind outcome_bind].
      unfold write_text. destruct (can_write env _); [|done]. intros [= <-].
      change (Path.join OUTPUT_DIR (py "index.html")) with (py "html-output/index.html").
      split; [by eexists|]. intros path text. cbn [dict_set dict_get].
      unfold Str.eqb. case_bool_decide as Ep; [|done]. intros [= <-]. by left. }
    destruct (foldM (export_step rt env pp) pp files0) as [files|e] eqn:Erun.
    + split; [done|]. split; [done|]. revert Erun.
      apply (foldM_returns _ I); [|done].
      intros b [title info] b' Hin [Hidx Hb]. unfold export_step. cbn [fst].
      destruct (export_page_to_html rt env title pp) as [[[|c html]|]|e'] eqn:Eexp;
        cbn [mbind outcome_bind]; try (by intros [= <-]).
      unfold write_text. destruct (can_write env _); [|done]. intros [= <-].
      rewrite page_path. split.
      * rewrite dict_get_set. by destruct (Str.eqb _ _).
      * intros path text. rewrite dict_get_set. unfold Str.eqb.
        case_bool_decide as Ep; [|by apply Hb].
        intros [= <-]. right. exists title. split; [|done].
        apply list_elem_of_fmap. by exists (title, info).
    + destruct e as [| | |status|e']; try done.
      by destruct (foldM_throws (export_step rt env pp) (fun e => e ≠ SystemExit status)
                     pp files0 _
                     (fun b x e Hx => export_step_throws pp b x e Hx status) Erun).
  - destruct e0 as [| | |status|e']; try done.
    by destruct (generate_index_page_throws pp [] _ Eidx status).
Qed.

End Run.

Lemma export_public_page_witness :
  all_pages (with_pages trip_pages) = Some trip_pages
  ∧ py "trip" ∈ dict_keys (get_public_pages (with_pages trip_pages))
  ∧ ∃ page, find_page (py "trip") trip_pages = Some page ∧ page_key page = py "trip".
Proof.
  assert (Hin : py "trip" ∈ dict_keys (get_public_pages (with_pages trip_pages))).
  { vm_compute. apply list_elem_of_here. }
  split; [reflexivity|]. split; [exact Hin|].
  destruct (export_public_page (with_pages trip_pages) sample_host trip_pages (py "trip") []
              eq_refl Hin) as (page & Hfind & _ & Hkey & _).
  by exists page.
Defined.

Lemma main_files_witness :
  lower_on_ascii (with_pages trip_pages)
  ∧ ∃ files, main (with_pages trip_pages) sample_host = Return files
      ∧ dict_keys files
        = [py "html-output/index.html"; py "html-output/trip.html";
           py "html-output/trip-day1.html"].
Proof.
  assert (Hlow : lower_on_ascii (with_pages trip_pages)) by (intros s _; reflexivity).
  split; [exact Hlow|].
  pose proof (main_files (with_pages trip_pages) sample_host Hlow) as H.
  destruct (main (with_pages trip_pages) sample_host) as [files|e] eqn:E.
  - exists files. split; [reflexivity|].
    assert (Hrun : main (with_pages trip_pages) sample_host
                   = Return files) by exact E.
    vm_compute in Hrun. injection Hrun as <-. vm_compute. reflexivity.
  - vm_compute in E. discriminate E.
Defined.

Lemma get_first_sentence_public_witness :
  all_pages (with_pages trip_pages) = Some trip_pages
  ∧ NoDup (page_key <$> trip_pages)
  ∧ py "trip" ∈ dict_keys (get_public_pages (with_pages trip_pages))
  ∧ ∀ e, get_first_sentence (with_pages trip_pages) sample_host (py "trip") = Throw e ->
      e = AttributeError.
Proof.
  assert (Hnd : NoDup (page_key <$> trip_pages)).
  { vm_compute. repeat constructor; intros H; repeat (apply elem_of_cons in H as [H|H];
      [discriminate H|]); by apply elem_of_nil in H. }
  assert (Hin : py "trip" ∈ dict_keys (get_public_pages (with_pages trip_pages))).
  { vm_compute. apply list_elem_of_here. }
  split; [reflexivity|]. split; [exact Hnd|]. split; [exact Hin|].
  intros e.
  exact (get_first_sentence_public (with_pages trip_pages) sample_host trip_pages (py "trip") e
           eq_refl Hnd Hin).
Defined.

(** * The files of the exported pages *)

Section RunFiles.

Variable rt : runtime.
Variable env : host.
Hypothesis lower_ok : lower_on_ascii rt.

Lemma foldM_returns_prefix {A B} (f : B -> A -> outcome B) (I : list A -> B -> Prop) l :
  (∀ pre x post b b', l = pre ++ x :: post -> I pre b -> f b x = Return b' ->
     I (pre ++ [x]) b') ->
  ∀ b b', I [] b -> foldM f l b = Return b' -> I l b'.
Proof.
  intros Hstep.
  assert (Hgen : ∀ post pre b b', l = pre ++ post -> I pre b ->
            foldM f post b = Return b' -> I l b').
  { induction post as [|x post IH]; intros pre b b' Hl Hb; cbn [foldM].
    - rewrite app_nil_r in Hl. subst. by intros [= <-].
    - destruct (f b x) as [b1|e] eqn:E; [|done]. cbn [mbind outcome_bind].
      apply (IH (pre ++ [x])); [by rewrite <- app_assoc|]. by eapply Hstep. }
  intros b b'. by apply (Hgen l []).
Qed.

(** A document that [export_page_to_html] returns is not empty. *)
Lemma export_page_truthy title public_pages html :
  export_page_to_html rt env title public_pages = Return (Some html) -> html ≠ [].
Proof.
  unfold export_page_to_html. destruct (all_pages rt) as [pages|]; [|done].
  destruct (find_page title pages) as [page|]; [|done].
  destruct (page_falsy page); [done|].
  destruct (name_field page) as [name|]; [|done].
  destruct (get_page env name); cbn [negb]; [|done].
  destruct (page_uuid page) as [uuid|]; [|done].
  destruct (get_page_blocks_tree env uuid) as [bs|]; [|done].
  destruct (blocks_falsy bs); [done|].
  destruct bs as [l|b].
  - destruct (mapM (process_block rt public_pages) l); [|done].
    cbn [lift mbind outcome_bind]. by intros [= <-].
  - destruct (process_block rt public_pages b); [|done].
    cbn [lift mbind outcome_bind]. by intros [= <-].
Qed.

(** X22: when [main] returns, every public page whose export gave a
    document has a file under its sanitized title in the output
    directory, the file the links to the page point to. *)
Theorem main_writes_exported files title html :
  main rt env = Return files ->
  title ∈ dict_keys (get_public_pages rt) ->
  export_page_to_html rt env title (get_public_pages rt) = Return (Some html) ->
  is_Some (dict_get (py "html-output/" ++ sanitize_filename rt title ++ py ".html") files)
  ∧ link_repl rt (get_public_pages rt) [(1%nat, title)]
    = py "<a href=" ++ dq ++ sanitize_filename rt title ++ py ".html" ++ dq ++ py ">"
      ++ title ++ py "</a>".
Proof.
  intros Hmain Hin Hexp. split.
  - revert Hmain. unfold main. destruct (setup_ok env); cbn [negb]; [|done].
    case_bool_decide as Hpp; [done|].
    set (pp := get_public_pages rt) in *.
    destruct (generate_index_page rt env pp []) as [files0|e0]; [|done].
    cbn [mbind outcome_bind]. intros Hrun.
    apply list_elem_of_fmap in Hin as ([t info] & -> & Hin). cbn [fst] in *.
    assert (Hall : ∀ item doc, item ∈ pp ->
              export_page_to_html rt env item.1 pp = Return (Some doc) ->
              is_Some (dict_get (py "html-output/" ++ sanitize_filename rt item.1
                                 ++ py ".html") files)).
    { revert Hrun.
      apply (foldM_returns_prefix (export_step rt env pp)
               (fun done_ files =>
                  ∀ item doc, item ∈ done_ ->
                    export_page_to_html rt env item.1 pp = Return (Some doc) ->
                    is_Some (dict_get (py "html-output/" ++ sanitize_filename rt item.1
                                       ++ py ".html") files)) pp).
      - intros pre x post b b' _ Hb. unfold export_step.
        destruct (export_page_to_html rt env x.1 pp) as [[[|c doc]|]|e'] eqn:Ex;
          cbn [mbind outcome_bind].
        + by apply export_page_truthy in Ex.
        + unfold write_text. destruct (can_write env _); [|done]. intros [= <-].
          rewrite page_path by done.
          intros item doc' [Hi| ->]%elem_of_snoc Hd; rewrite dict_get_set.
          * destruct (Str.eqb _ _); [done|]. by eapply Hb.
          * unfold Str.eqb. by rewrite bool_decide_eq_true_2.
        + intros [= <-]. intros item doc' [Hi| ->]%elem_of_snoc Hd; [by eapply Hb|congruence].
        + done.
      - intros item doc Hi. by apply elem_of_nil in Hi. }
    exact (Hall (t, info) html Hin Hexp).
  - unfold link_repl. cbn [Re.group Nat.eqb].
    replace (dict_mem title (get_public_pages rt)) with true; [done|].
    symmetry. unfold dict_mem.
    assert (Hget : ∀ (d : list (list N * page_info)), title ∈ dict_keys d ->
              is_Some (dict_get title d)).
    { induction d as [|[k v] d IH]; [by intros ?%elem_of_nil|]. cbn [dict_keys fmap list_fmap fst].
      cbn [dict_get]. unfold Str.eqb. case_bool_decide; [done|].
      intros [?|?]%elem_of_cons; [done|]. by apply IH. }
    by destruct (Hget _ Hin) as [v ->].
Qed.

End RunFiles.

Lemma main_writes_exported_witness :
  lower_on_ascii (with_pages trip_pages)
  ∧ py "trip/day1" ∈ dict_keys (get_public_pages (with_pages trip_pages))
  ∧ ∃ files, main (with_pages trip_pages) sample_host = Return files
      ∧ is_Some (dict_get (py "html-output/trip-day1.html") files).
Proof.
  assert (Hlow : lower_on_ascii (with_pages trip_pages)) by (intros s _; reflexivity).
  assert (Hin : py "trip/day1" ∈ dict_keys (get_public_pages (with_pages trip_pages))).
  { vm_compute. apply list_elem_of_further, list_elem_of_here. }
  split; [exact Hlow|]. split; [exact Hin|].
  destruct (main (with_pages trip_pages) sample_host) as [files|e] eqn:E;
    [|vm_compute in E; discriminate E].
  destruct (export_page_to_html (with_pages trip_pages) sample_host (py "trip/day1")
              (get_public_pages (with_pages trip_pages))) as [[html|]|e] eqn:Ex;
    [|vm_compute in Ex; discriminate Ex..].
  exists files. split; [reflexivity|].
  exact (proj1 (main_writes_exported (with_pages trip_pages) sample_host Hlow files
                  (py "trip/day1") html E Hin Ex)).
Defined.
